(** * completions-sdk: tool-provider registry, streaming reconstruction
      and turn orchestration of [src/index.ts]

    A shallow embedding of the [MultiProviderOpenAI] class.  The fields of
    the SDK object and the outside world (clock, subprocesses, network,
    completion backend) live in one record [World]; every method is a
    computation in the state-and-exception monad [M].  JavaScript [Map]s
    whose iteration order is observable are insertion-ordered association
    lists ([jm_get], [jm_set]); [toolToServerMap], which is only probed by
    key, is a [gmap].  Everything the program obtains from outside
    (variable substitution, [spawn], [fetch], [JSON.parse],
    [JSON.stringify], the completion backend) is a field of
    [Environment]. *)

From Stdlib Require Import Ascii String.
From stdpp Require Import gmap strings list pretty.

Local Open Scope string_scope.
Local Open Scope N_scope.

(** ** JavaScript basics *)

(** A thrown [Error] is represented by its [message]. *)
Inductive Result (A : Type) : Type :=
  | Ok (a : A)
  | Throw (msg : string).
Arguments Ok {A} a.
Arguments Throw {A} msg.

(** Truthiness of a possibly undefined string: [undefined] and the empty
    string are falsy. *)
Definition truthy (o : option string) : bool :=
  match o with
  | Some s => negb (String.eqb s "")
  | None => false
  end.

(** [o || d] for a possibly undefined string. *)
Definition or_else (o : option string) (d : string) : string :=
  match o with
  | Some s => if String.eqb s "" then d else s
  | None => d
  end.

(** Truthiness of a possibly undefined number. *)
Definition truthyN (o : option N) : bool :=
  match o with
  | Some n => negb (n =? 0)
  | None => false
  end.

(** Decimal rendering of a number inside a template string. *)
Definition show (n : N) : string := pretty n.

(** *** Insertion-ordered maps ([Map], and objects with string keys) *)

Section JsMap.
Context {K V : Type} `{EqDecision K}.

Fixpoint jm_get (k : K) (m : list (K * V)) : option V :=
  match m with
  | [] => None
  | (k', v) :: m' => if decide (k = k') then Some v else jm_get k m'
  end.

Definition jm_has (k : K) (m : list (K * V)) : bool :=
  match jm_get k m with Some _ => true | None => false end.

(** [Map.prototype.set]: an existing key keeps its position. *)
Fixpoint jm_set (k : K) (v : V) (m : list (K * V)) : list (K * V) :=
  match m with
  | [] => [(k, v)]
  | (k', v') :: m' =>
      if decide (k = k') then (k, v) :: m' else (k', v') :: jm_set k v m'
  end.

Definition jm_values (m : list (K * V)) : list V := m.*2.
Definition jm_keys (m : list (K * V)) : list K := m.*1.
End JsMap.

(** *** The string operations of [_mcpRequest]

    A string is the sequence of its UTF-16 code units, one character of
    [string] per unit: the texts modelled are those whose code units are
    all below 256.  Texts with other code units are outside the model. *)

Definition newline : ascii := "010"%char.

(** The white space and line terminators that [trim] removes: among the
    code units below 256 these are U+0009 to U+000D, the space U+0020 and
    the no-break space U+00A0. *)
Definition is_space (a : ascii) : bool :=
  let n := N_of_ascii a in
  ((9 <=? n) && (n <=? 13)) || (n =? 32) || (n =? 160).

Fixpoint trimStart (s : string) : string :=
  match s with
  | String a s' => if is_space a then trimStart s' else s
  | EmptyString => EmptyString
  end.

Definition string_rev (s : string) : string :=
  string_of_list_ascii (rev (list_ascii_of_string s)).

Definition trim (s : string) : string :=
  string_rev (trimStart (string_rev (trimStart s))).

(** [s.split(c)]: always at least one piece. *)
Fixpoint split (c : ascii) (s : string) : list string :=
  match s with
  | EmptyString => [EmptyString]
  | String a s' =>
      if Ascii.eqb a c then EmptyString :: split c s'
      else match split c s' with
           | h :: t => String a h :: t
           | [] => [String a EmptyString]
           end
  end.

Definition startsWith (s p : string) : bool := String.prefix p s.

(** [s.substring(n)] *)
Fixpoint substring_from (n : nat) (s : string) : string :=
  match n, s with
  | O, _ => s
  | S n', String _ s' => substring_from n' s'
  | S _, EmptyString => EmptyString
  end.

Definition data_marker : string := "data: ".

(** [text.trim().split("\n").find(l => l.startsWith("data: "))?.substring(6)] *)
Definition find_data_line (text : string) : option string :=
  substring_from 6 <$> List.find (fun l => startsWith l data_marker)
                                 (split newline (trim text)).

(** ** Data model *)

(** Decoded JSON values: tool arguments and results. *)
#[local] Set Warnings "-register-all".
Inductive Json : Type :=
  | JNull
  | JBool (b : bool)
  | JNum (n : Z)
  | JStr (s : string)
  | JArr (l : list Json)
  | JObj (l : list (string * Json)).

(** Truthiness of a decoded JSON value. *)
Definition json_truthy (j : Json) : bool :=
  match j with
  | JNull => false
  | JBool b => b
  | JNum n => negb (n =? 0)%Z
  | JStr s => negb (String.eqb s "")
  | JArr _ | JObj _ => true
  end.

Inductive ServerType : Type := Command | Http | StreamableHttp.

Global Instance ServerType_eq_dec : EqDecision ServerType.
Proof. solve_decision. Defined.

(** [MCPServerDefinition]; [def_type] only ever holds [Http] or
    [StreamableHttp]. *)
Record MCPServerDefinition : Type := {
  def_command : option string;
  def_args : option (list string);
  def_type : option ServerType;
  def_url : option string;
  def_headers : option (list (string * string));
  def_timeout : option N;
  def_env : list (string * string)
}.

(** A [ChildProcess] object is identified by a handle. *)
Definition Handle := nat.

(** [process] is the [ChildProcess] object of a command server and
    [process_pid] its [pid] member, which is [undefined] when the process
    could not be launched. *)
Record MCPServerInstance : Type := {
  name : string;
  config : MCPServerDefinition;
  type : ServerType;
  process : option Handle;
  process_pid : option Handle;
  sessionId : option string;
  initialized : bool;
  lastError : option string;
  startTime : option N
}.

Inductive Status : Type := Connected | Disconnected | Error | Starting.

Record MCPServerStatus : Type := {
  st_name : string;
  st_type : ServerType;
  st_status : Status;
  st_pid : option Handle;
  st_url : option string;
  st_lastError : option string;
  st_uptime : option Z
}.

(** A tool as advertised by a server in a [tools/list] reply. *)
Record McpTool : Type := {
  mt_name : string;
  mt_description : string;
  mt_inputSchema : Json
}.

(** A tool as sent to the completion backend. *)
Record Tool : Type := {
  fn_name : string;
  fn_description : string;
  fn_parameters : Json;
  _mcpServerName : option string;
  _isPerRequest : bool
}.

(** *** Protocol exchange *)

Inductive Params : Type :=
  | ParamsEmpty
  | ParamsInitialize
  | ParamsToolCall (tool : string) (arguments : Json).

Record FetchRequest : Type := {
  fr_url : option string;
  fr_session : option string;
  fr_headers : option (list (string * string));
  fr_method : string;
  fr_params : option Params;
  fr_timeout : option N
}.

Record HttpResponse : Type := {
  ok : bool;
  status : N;
  statusText : string;
  text : string;
  session_header : option string
}.

(** The decoded event line: [error] is the message of the [error] member
    of the JSON-RPC reply when it has one, [result] its [result] member,
    [None] when the reply has none ([undefined]).  Of the result,
    [res_value] is the value as decoded and [res_tools] its [tools]
    member. *)
Record RpcResult : Type := {
  res_tools : option (list McpTool);
  res_value : Json
}.

Record Payload : Type := {
  error : option string;
  result : option RpcResult
}.

(** [if (data.result)] *)
Definition has_result (data : Payload) : bool :=
  match result data with
  | Some r => json_truthy (res_value r)
  | None => false
  end.

(** *** Completion requests, responses and stream chunks *)

Record ToolCall : Type := {
  tc_id : string;
  function_name : string;
  function_arguments : string
}.

(** The [content] of a tool-result message.  It is a string, except for
    what the extraction from a tool's result (index.ts 1411-1423,
    1582-1594) can leave: [undefined], the serialization of an absent
    result, or the [text] member of the first content item when that is
    not a string. *)
Inductive Content : Type :=
  | ContentText (s : string)
  | ContentValue (j : Json)
  | ContentUndefined.
Coercion ContentText : string >-> Content.

Record ToolResultMessage : Type := {
  tool_call_id : string;
  content : Content
}.

Inductive Message : Type :=
  | Plain (role body : string)
  | Assistant (body : option string) (tool_calls : option (list ToolCall))
  | ToolResult (r : ToolResultMessage).

Record Options : Type := {
  model : string;
  messages : list Message;
  tools : option (list Tool);
  tool_choice : option string;
  stream : bool;
  mcpServers : option (list (string * MCPServerDefinition));
  toolExecutionFeedback : bool
}.

Record Response : Type := {
  message_content : option string;
  message_tool_calls : option (list ToolCall);
  _mcpToolResults : option (list ToolResultMessage);
  _originalToolCalls : option (list ToolCall)
}.

Record ToolCallDelta : Type := {
  index : N;
  delta_id : option string;
  delta_name : option string;
  delta_arguments : option string
}.

(** [chunk.choices[0].delta.content], [.delta.tool_calls] and
    [.finish_reason]. *)
Record Chunk : Type := {
  delta_content : option string;
  delta_tool_calls : option (list ToolCallDelta);
  finish_reason : option string
}.

Inductive ToolExecutionEvent : Type :=
  | tool_call_detected
  | tool_execution_start (tools : list string) (totalTools : nat)
  | tool_executing (toolName : string) (position totalTools : nat)
  | tool_completed (toolName : string)
  | tool_error (toolName : string) (error : string)
  | tools_completed (totalTools successful : nat)
  | final_response_start.

(** What the streaming generator yields. *)
Inductive Yielded : Type :=
  | YChunk (c : Chunk)
  | YEvent (e : ToolExecutionEvent).

(** A backend stream: chunks with their arrival times, possibly cut short
    by an error. *)
Record Stream : Type := {
  chunks : list (N * Chunk);
  stream_error : option string
}.

Inductive Completion : Type :=
  | CompletionResponse (r : Response)
  | CompletionStream (s : Stream).

(** ** The outside world *)

Inductive SpawnOutcome : Type :=
  | Spawned               (* the 'spawn' event fires *)
  | SpawnFailed (msg : string)   (* the 'error' event fires *)
  | SpawnSilent.          (* neither fires within 10 s *)

(** [childProcess.pid] for the process object of handle [h]: a process that
    was launched has a pid, which is identified with its handle. *)
Definition launched_pid (outcome : SpawnOutcome) (h : Handle) : option Handle :=
  match outcome with
  | SpawnFailed _ => None
  | Spawned | SpawnSilent => Some h
  end.

(** What the program obtains from outside.  Servers, commands and the
    backend are taken to answer as a function of what they are asked. *)
Record Environment : Type := {
  substituteVariables : string -> string;
  spawn : string -> list string -> list (string * string) -> SpawnOutcome;
  fetch : FetchRequest -> Result HttpResponse;
  JSON_parse_payload : string -> Result Payload;
  JSON_parse : string -> Result Json;
  (** [JSON.stringify] of a decoded value *)
  JSON_stringify : Json -> string;
  sanitizeToolSchemaForGemini : Tool -> Tool;
  (** [chat.completions.create] of the provider client selected by the
      model name, without and with [stream: true] (the stream already
      normalised by [normalizeStream]) *)
  chat_completions_create : Options -> Result Response;
  chat_completions_stream : Options -> Result Stream
}.

(** The SDK object and the state of its surroundings.  [clock] is what
    [Date.now()] reads: it advances between operations, when a stream chunk
    arrives and when a subprocess launch times out.  [running] holds the
    subprocesses that have been launched and not killed; [requests] and
    [completions] log the protocol requests sent and the backend calls
    made. *)
Record World : Type := {
  (* fields of the SDK object *)
  mcpServersConfig : list (string * MCPServerDefinition);
  mcpEnabled : bool;
  mcpClient : bool;
  mcpServerInstances : list (string * MCPServerInstance);
  mcpToolsCache : option (list Tool);
  mcpLastCacheTime : N;
  toolToServerMap : gmap string string;
  (* the environment's state *)
  clock : N;
  next_handle : Handle;
  running : gset Handle;
  requests : list FetchRequest;
  completions : list Options
}.

Definition CACHE_DURATION : Z := 30000.

(** ** The state-and-exception monad

    A thrown error keeps the state reached so far: mutations made before a
    [throw] stay visible to the handler and to the caller. *)

Definition M (S A : Type) : Type := S -> Result A * S.

Definition ret {S A} (a : A) : M S A := fun s => (Ok a, s).

Definition bind {S A B} (m : M S A) (k : A -> M S B) : M S B :=
  fun s => match m s with
           | (Ok a, s') => k a s'
           | (Throw e, s') => (Throw e, s')
           end.

Definition throw {S A} (msg : string) : M S A := fun s => (Throw msg, s).

Definition try_catch {S A} (m : M S A) (handler : string -> M S A) : M S A :=
  fun s => match m s with
           | (Ok a, s') => (Ok a, s')
           | (Throw e, s') => handler e s'
           end.

(** [try { m } finally { f }] *)
Definition try_finally {S A} (m : M S A) (f : M S unit) : M S A :=
  fun s => let '(r, s') := m s in
           match f s' with
           | (Ok _, s'') => (r, s'')
           | (Throw e, s'') => (Throw e, s'')
           end.

Definition get {S} : M S S := fun s => (Ok s, s).
Definition modify {S} (f : S -> S) : M S unit := fun s => (Ok tt, f s).
Definition lift_result {S A} (r : Result A) : M S A := fun s => (r, s).

Declare Scope js_scope.
Delimit Scope js_scope with js.
Notation "x <- m ;; k" := (bind m (fun x => k))
  (at level 100, m at next level, right associativity) : js_scope.
Notation "m ;; k" := (bind m (fun _ => k))
  (at level 100, right associativity) : js_scope.
Local Open Scope js_scope.

(** A local mutable cell next to the world: an object passed by reference
    to a method that mutates it, or a [let] variable that a [finally]
    block reads. *)
Definition lift_world {L A} (m : M World A) : M (L * World) A :=
  fun '(l, w) => let '(r, w') := m w in (r, (l, w')).

Definition get_local {L} : M (L * World) L := fun '(l, w) => (Ok l, (l, w)).

Definition set_local {L} (l : L) : M (L * World) unit :=
  fun '(_, w) => (Ok tt, (l, w)).

(** Runs [m] on the cell [init]; the outcome and the final cell are both
    returned, whether [m] threw or not. *)
Definition with_local {L A} (init : L) (m : M (L * World) A)
  : M World (Result A * L) :=
  fun w => let '(r, (l, w')) := m (init, w) in (Ok (r, l), w').

(** *** World updates *)

Definition set_mcpClient (b : bool) (w : World) : World :=
  {| mcpServersConfig := mcpServersConfig w; mcpEnabled := mcpEnabled w;
     mcpClient := b; mcpServerInstances := mcpServerInstances w;
     mcpToolsCache := mcpToolsCache w; mcpLastCacheTime := mcpLastCacheTime w;
     toolToServerMap := toolToServerMap w; clock := clock w;
     next_handle := next_handle w; running := running w;
     requests := requests w; completions := completions w |}.

Definition set_mcpServerInstances (m : list (string * MCPServerInstance))
    (w : World) : World :=
  {| mcpServersConfig := mcpServersConfig w; mcpEnabled := mcpEnabled w;
     mcpClient := mcpClient w; mcpServerInstances := m;
     mcpToolsCache := mcpToolsCache w; mcpLastCacheTime := mcpLastCacheTime w;
     toolToServerMap := toolToServerMap w; clock := clock w;
     next_handle := next_handle w; running := running w;
     requests := requests w; completions := completions w |}.

Definition set_cache (c : option (list Tool)) (t : N) (w : World) : World :=
  {| mcpServersConfig := mcpServersConfig w; mcpEnabled := mcpEnabled w;
     mcpClient := mcpClient w; mcpServerInstances := mcpServerInstances w;
     mcpToolsCache := c; mcpLastCacheTime := t;
     toolToServerMap := toolToServerMap w; clock := clock w;
     next_handle := next_handle w; running := running w;
     requests := requests w; completions := completions w |}.

Definition set_toolToServerMap (m : gmap string string) (w : World) : World :=
  {| mcpServersConfig := mcpServersConfig w; mcpEnabled := mcpEnabled w;
     mcpClient := mcpClient w; mcpServerInstances := mcpServerInstances w;
     mcpToolsCache := mcpToolsCache w; mcpLastCacheTime := mcpLastCacheTime w;
     toolToServerMap := m; clock := clock w;
     next_handle := next_handle w; running := running w;
     requests := requests w; completions := completions w |}.

Definition set_clock (t : N) (w : World) : World :=
  {| mcpServersConfig := mcpServersConfig w; mcpEnabled := mcpEnabled w;
     mcpClient := mcpClient w; mcpServerInstances := mcpServerInstances w;
     mcpToolsCache := mcpToolsCache w; mcpLastCacheTime := mcpLastCacheTime w;
     toolToServerMap := toolToServerMap w; clock := t;
     next_handle := next_handle w; running := running w;
     requests := requests w; completions := completions w |}.

Definition set_processes (n : Handle) (r : gset Handle) (w : World) : World :=
  {| mcpServersConfig := mcpServersConfig w; mcpEnabled := mcpEnabled w;
     mcpClient := mcpClient w; mcpServerInstances := mcpServerInstances w;
     mcpToolsCache := mcpToolsCache w; mcpLastCacheTime := mcpLastCacheTime w;
     toolToServerMap := toolToServerMap w; clock := clock w;
     next_handle := n; running := r;
     requests := requests w; completions := completions w |}.

Definition set_requests (l : list FetchRequest) (w : World) : World :=
  {| mcpServersConfig := mcpServersConfig w; mcpEnabled := mcpEnabled w;
     mcpClient := mcpClient w; mcpServerInstances := mcpServerInstances w;
     mcpToolsCache := mcpToolsCache w; mcpLastCacheTime := mcpLastCacheTime w;
     toolToServerMap := toolToServerMap w; clock := clock w;
     next_handle := next_handle w; running := running w;
     requests := l; completions := completions w |}.

Definition set_completions (l : list Options) (w : World) : World :=
  {| mcpServersConfig := mcpServersConfig w; mcpEnabled := mcpEnabled w;
     mcpClient := mcpClient w; mcpServerInstances := mcpServerInstances w;
     mcpToolsCache := mcpToolsCache w; mcpLastCacheTime := mcpLastCacheTime w;
     toolToServerMap := toolToServerMap w; clock := clock w;
     next_handle := next_handle w; running := running w;
     requests := requests w; completions := l |}.

(** *** Instance updates *)

Definition with_process (h : Handle) (pid : option Handle)
    (i : MCPServerInstance) : MCPServerInstance :=
  {| name := name i; config := config i; type := type i; process := Some h;
     process_pid := pid; sessionId := sessionId i; initialized := initialized i;
     lastError := lastError i; startTime := startTime i |}.

Definition with_initialized (b : bool) (i : MCPServerInstance) : MCPServerInstance :=
  {| name := name i; config := config i; type := type i; process := process i;
     process_pid := process_pid i; sessionId := sessionId i; initialized := b;
     lastError := lastError i; startTime := startTime i |}.

Definition with_sessionId (s : option string) (i : MCPServerInstance)
  : MCPServerInstance :=
  {| name := name i; config := config i; type := type i; process := process i;
     process_pid := process_pid i; sessionId := s; initialized := initialized i;
     lastError := lastError i; startTime := startTime i |}.

Definition with_lastError (e : option string) (i : MCPServerInstance)
  : MCPServerInstance :=
  {| name := name i; config := config i; type := type i; process := process i;
     process_pid := process_pid i; sessionId := sessionId i; initialized := initialized i;
     lastError := e; startTime := startTime i |}.

Definition with_startTime (t : option N) (i : MCPServerInstance)
  : MCPServerInstance :=
  {| name := name i; config := config i; type := type i; process := process i;
     process_pid := process_pid i; sessionId := sessionId i; initialized := initialized i;
     lastError := lastError i; startTime := t |}.

(** The instance object that a start attempt creates. *)
Definition new_instance (serverName : string) (processedConfig : MCPServerDefinition)
    (serverType : ServerType) (now : N) : MCPServerInstance :=
  {| name := serverName; config := processedConfig; type := serverType;
     process := None; process_pid := None; sessionId := None;
     initialized := false;
     lastError := None; startTime := Some now |}.

(** [Date.now()] *)
Definition Date_now : M World N := fun w => (Ok (clock w), w).

(** [childProcess.kill()] *)
Definition kill (h : Handle) : M World unit :=
  modify (fun w => set_processes (next_handle w) (running w ∖ {[h]}) w).

(** ** The SDK methods *)

Section SDK.
Context (env : Environment).

(** *** Configuration *)

Definition processServerConfig (c : MCPServerDefinition) : MCPServerDefinition :=
  {| def_command := def_command c;
     def_args := List.map (substituteVariables env) <$> def_args c;
     def_type := def_type c;
     def_url := if truthy (def_url c)
                then substituteVariables env <$> def_url c
                else def_url c;
     def_headers :=
       List.map (fun kv => (kv.1, substituteVariables env kv.2)) <$> def_headers c;
     def_timeout := def_timeout c;
     def_env := def_env c |}.

Definition _getServerType (c : MCPServerDefinition) : Result ServerType :=
  if truthy (def_command c) then Ok Command
  else match def_type c with
       | Some t => Ok t
       | None =>
           if truthy (def_url c) then Ok StreamableHttp
           else Throw "Invalid server configuration: must specify either command or url/type"
       end.

(** *** Transport client *)

(** [fetch(url, {method: "POST", headers, body, signal})]; every request
    that is sent is recorded in [requests]. *)
Definition do_fetch (r : FetchRequest) : M World HttpResponse :=
  fun w => (fetch env r, set_requests (requests w ++ [r])%list w).

(** The POST that [_mcpRequest] sends for [instance]. *)
Definition build_request (instance : MCPServerInstance) (method : string)
    (params : Params) (session : option string) : FetchRequest :=
  {| fr_url := def_url (config instance);
     fr_session := if truthy session then session else None;
     fr_headers := def_headers (config instance);
     fr_method := method;
     fr_params := match params with
                  | ParamsEmpty => None
                  | p => Some p
                  end;
     fr_timeout := if truthyN (def_timeout (config instance))
                   then def_timeout (config instance) else None |}.

Definition _mcpRequest (serverName method : string) (params : Params)
    (session : option string) (customInstance : option MCPServerInstance)
  : M World (Payload * HttpResponse) :=
  w <- get ;;
  match (match customInstance with
         | Some i => Some i
         | None => jm_get serverName (mcpServerInstances w)
         end) with
  | None => throw ("MCP server not found: " ++ serverName)
  | Some instance =>
      if decide (type instance = Command) then
        throw ("Direct MCP requests not supported for command-based servers: "
               ++ serverName)
      else
        response <- do_fetch (build_request instance method params session) ;;
        if negb (ok response) then
          throw ("HTTP " ++ show (status response) ++ ": " ++ statusText response)
        else
          let dataLine := find_data_line (text response) in
          if negb (truthy dataLine) then
            throw ("Invalid SSE response format: " ++ text response)
          else
            data <- lift_result (JSON_parse_payload env (default "" dataLine)) ;;
            match error data with
            | Some message => throw ("MCP Error: " ++ message)
            | None => ret (data, response)
            end
  end.

(** *** Server registry *)

(** The instance under construction is the local cell. *)
Definition _initializeCommandServer : M (MCPServerInstance * World) unit :=
  fun '(instance, w) =>
    let h := next_handle w in
    let outcome := spawn env (default "" (def_command (config instance)))
                         (default [] (def_args (config instance)))
                         (def_env (config instance)) in
    let instance := with_process h (launched_pid outcome h) instance in
    match outcome with
    | Spawned =>
        (Ok tt, (with_initialized true instance,
                 set_processes (S h) ({[h]} ∪ running w) w))
    | SpawnFailed msg =>
        (Throw msg, (instance, set_processes (S h) (running w) w))
    | SpawnSilent =>
        (Throw ("Command server " ++ name instance
                ++ " failed to start within timeout"),
         (instance,
          set_clock (clock w + 10000)
            (set_processes (S h) ({[h]} ∪ running w) w)))
    end.

Definition _initializeHttpServer : M (MCPServerInstance * World) unit :=
  instance <- get_local ;;
  try_catch
    (r <- lift_world (_mcpRequest (name instance) "initialize"
                        ParamsInitialize None None) ;;
     let session := session_header r.2 in
     if has_result r.1 then
       try_catch
         (lift_world (_mcpRequest (name instance) "notifications/initialized"
                        ParamsEmpty session None) ;; ret tt)
         (fun _ => ret tt) ;;
       set_local (with_initialized true (with_sessionId session instance))
     else ret tt)
    (fun message =>
       throw ("Failed to initialize HTTP server " ++ name instance ++ ": "
              ++ message)).

Definition set_instance (serverName : string) (i : MCPServerInstance)
  : M World unit :=
  modify (fun w => set_mcpServerInstances
                     (jm_set serverName i (mcpServerInstances w)) w).

(** The start sequence selected by the transport kind. *)
Definition start_sequence (t : ServerType) : M (MCPServerInstance * World) unit :=
  if decide (t = Command) then _initializeCommandServer
  else _initializeHttpServer.

Definition _initializeMCPServer (serverName : string) : M World unit :=
  w <- get ;;
  match jm_get serverName (mcpServersConfig w) with
  | None => ret tt
  | Some c =>
      let processedConfig := processServerConfig c in
      serverType <- lift_result (_getServerType processedConfig) ;;
      now <- Date_now ;;
      let instance := new_instance serverName processedConfig serverType now in
      set_instance serverName instance ;;
      started <- with_local instance (start_sequence serverType) ;;
      match started.1 with
      | Ok _ => set_instance serverName started.2
      | Throw message =>
          set_instance serverName (with_lastError (Some message) started.2)
      end
  end.

(** [Promise.allSettled]: every attempt runs; rejections are absorbed.
    The attempts only interleave at their suspension points and each
    touches the instance of its own name, so they are run in order. *)
Fixpoint allSettled (attempts : list (M World unit)) : M World unit :=
  match attempts with
  | [] => ret tt
  | m :: rest => try_catch m (fun _ => ret tt) ;; allSettled rest
  end.

(** *** Tool catalog *)

Definition format_tool (serverName : string) (perRequest : bool) (t : McpTool)
  : Tool :=
  {| fn_name := mt_name t; fn_description := mt_description t;
     fn_parameters := mt_inputSchema t; _mcpServerName := Some serverName;
     _isPerRequest := perRequest |}.

(** [data.result?.tools || []] *)
Definition tools_of (data : Payload) : list McpTool :=
  default [] (result data ≫= res_tools).

Definition register_tools (serverName : string) (ts : list McpTool)
  : M World unit :=
  modify (fun w => set_toolToServerMap
    (foldl (fun m t => <[mt_name t := serverName]> m) (toolToServerMap w) ts) w).

(** The loop of [_getMCPToolsInternal] over the registry (index.ts 668-709). *)
Fixpoint collect_global_tools (entries : list (string * MCPServerInstance))
  : M World (list Tool) :=
  match entries with
  | [] => ret []
  | (serverName, instance) :: rest =>
      formattedTools <-
        (if negb (initialized instance) then ret []
         else try_catch
           (if decide (type instance = Command) then ret []
            else
              r <- _mcpRequest serverName "tools/list" ParamsEmpty
                     (sessionId instance) None ;;
              register_tools serverName (tools_of r.1) ;;
              ret (List.map (format_tool serverName false) (tools_of r.1)))
           (fun _ => ret [])) ;;
      more <- collect_global_tools rest ;;
      ret (formattedTools ++ more)%list
  end.

Definition _getMCPToolsInternal : M World (list Tool) :=
  modify (set_toolToServerMap ∅) ;;
  w <- get ;;
  collect_global_tools (mcpServerInstances w).

Definition initializeMCP : M World unit :=
  w <- get ;;
  if negb (mcpEnabled w) || (length (mcpServersConfig w) =? 0)%nat then ret tt
  else
    try_catch
      (modify (set_mcpClient true) ;;
       allSettled (List.map _initializeMCPServer (jm_keys (mcpServersConfig w))) ;;
       w' <- get ;;
       let connectedServers :=
         List.filter (fun e => initialized e.2) (mcpServerInstances w') in
       if (0 <? length connectedServers)%nat then
         try_catch (_getMCPToolsInternal ;; ret tt) (fun _ => ret tt)
       else ret tt)
      (fun _ => ret tt).

(** The worlds considered are those in which the initialization promise
    created by the constructor has settled. *)
Definition ensureMCPInitialized : M World unit := ret tt.

Definition getMCPTools : M World (list Tool) :=
  ensureMCPInitialized ;;
  now <- Date_now ;;
  w <- get ;;
  match mcpToolsCache w with
  | Some cached =>
      if (Z.of_N now - Z.of_N (mcpLastCacheTime w) <? CACHE_DURATION)%Z
      then ret cached
      else if negb (mcpEnabled w) || (length (mcpServerInstances w) =? 0)%nat
      then ret []
      else allTools <- _getMCPToolsInternal ;;
           modify (set_cache (Some allTools) now) ;;
           ret allTools
  | None =>
      if negb (mcpEnabled w) || (length (mcpServerInstances w) =? 0)%nat
      then ret []
      else allTools <- _getMCPToolsInternal ;;
           modify (set_cache (Some allTools) now) ;;
           ret allTools
  end.

(** *** Status and restart *)

Definition _getServerStatus (serverName : string) : M World MCPServerStatus :=
  w <- get ;;
  match jm_get serverName (mcpServerInstances w) with
  | None => throw ("MCP server not found: " ++ serverName)
  | Some instance =>
      now <- Date_now ;;
      ret {| st_name := serverName;
             st_type := type instance;
             st_status := if initialized instance then Connected
                          else if truthy (lastError instance) then Error
                          else Disconnected;
             st_lastError := lastError instance;
             st_uptime := if truthyN (startTime instance)
                          then Some (Z.of_N now
                                     - Z.of_N (default 0%N (startTime instance)))%Z
                          else None;
             st_pid := if decide (type instance = Command)
                       then process instance ≫= (fun _ => process_pid instance)
                       else None;
             st_url := if decide (type instance = Command)
                       then None else def_url (config instance) |}
  end.

Definition restartMCPServer (serverName : string) : M World unit :=
  w <- get ;;
  match jm_get serverName (mcpServerInstances w) with
  | None => throw ("MCP server not found: " ++ serverName)
  | Some instance =>
      match (if decide (type instance = Command) then process instance
             else None) with
      | Some h => kill h
      | None => ret tt
      end ;;
      now <- Date_now ;;
      set_instance serverName
        (with_startTime (Some now)
           (with_lastError None (with_initialized false instance))) ;;
      _initializeMCPServer serverName
  end.

(** *** Calling tools *)

Definition _callToolOnServer (serverName toolName : string) (args : Json)
  : M World (option RpcResult) :=
  w <- get ;;
  match jm_get serverName (mcpServerInstances w) with
  | None => throw ("MCP server not found: " ++ serverName)
  | Some instance =>
      if negb (initialized instance) then
        throw ("Server " ++ serverName ++ " is not initialized")
      else
        try_catch
          (if decide (type instance = Command) then
             throw ("Command-based tool calling not yet implemented for "
                    ++ serverName)
           else
             r <- _mcpRequest serverName "tools/call"
                    (ParamsToolCall toolName args) (sessionId instance) None ;;
             ret (result r.1))
          (fun message => throw message)
  end.

Definition _callToolByName (toolName : string) (args : Json)
  : M World (option RpcResult) :=
  w <- get ;;
  let serverName := toolToServerMap w !! toolName in
  if negb (truthy serverName) then
    throw ("Tool " ++ toolName ++ " not found on any connected MCP server")
  else _callToolOnServer (default "" serverName) toolName args.

(** *** Per-request servers *)

(** The loop of [_initializePerRequestServers] (index.ts 951-981), with the
    map built so far.  The source puts the instance in the map before it
    starts and mutates it in place; the map is only read once the loop has
    ended, so the entry is written here when the start sequence is over. *)
Fixpoint start_per_request (entries : list (string * MCPServerDefinition))
    (perRequestServers : list (string * MCPServerInstance))
  : M World (list (string * MCPServerInstance)) :=
  match entries with
  | [] => ret perRequestServers
  | (serverName, c) :: rest =>
      now <- Date_now ;;
      let tempServerName := "temp_" ++ serverName ++ "_" ++ show now in
      let processedConfig := processServerConfig c in
      serverType <- lift_result (_getServerType processedConfig) ;;
      now' <- Date_now ;;
      let instance :=
        new_instance tempServerName processedConfig serverType now' in
      started <- with_local instance (start_sequence serverType) ;;
      start_per_request rest
        (jm_set tempServerName
           match started.1 with
           | Ok _ => started.2
           | Throw message => with_lastError (Some message) started.2
           end
           perRequestServers)
  end.

Definition _initializePerRequestServers
    (mcpServersConfig : list (string * MCPServerDefinition))
  : M World (list (string * MCPServerInstance)) :=
  start_per_request mcpServersConfig [].

Fixpoint _getToolsFromPerRequestServers
    (perRequestServers : list (string * MCPServerInstance))
  : M World (list Tool) :=
  match perRequestServers with
  | [] => ret []
  | (serverName, instance) :: rest =>
      formattedTools <-
        (if negb (initialized instance) then ret []
         else try_catch
           (if decide (type instance = Command) then ret []
            else
              r <- _mcpRequest serverName "tools/list" ParamsEmpty
                     (sessionId instance) (Some instance) ;;
              ret (List.map (format_tool serverName true) (tools_of r.1)))
           (fun _ => ret [])) ;;
      more <- _getToolsFromPerRequestServers rest ;;
      ret (formattedTools ++ more)%list
  end.

Fixpoint _cleanupPerRequestServers
    (perRequestServers : list (string * MCPServerInstance)) : M World unit :=
  match perRequestServers with
  | [] => ret tt
  | (_, instance) :: rest =>
      match (if decide (type instance = Command) then process instance
             else None) with
      | Some h => kill h
      | None => ret tt
      end ;;
      _cleanupPerRequestServers rest
  end.

(** The loop of [_callToolWithServers]: [Some r] when a per-request server
    answered (the [return] inside the loop), [None] when the loop ran to
    its end. *)
Fixpoint call_on_per_request (toolName : string) (args : Json)
    (perRequestServers : list (string * MCPServerInstance))
  : M World (option (option RpcResult)) :=
  match perRequestServers with
  | [] => ret None
  | (serverName, instance) :: rest =>
      answered <-
        (if negb (initialized instance) then ret None
         else try_catch
           (if decide (type instance = Command) then ret None
            else
              r <- _mcpRequest serverName "tools/list" ParamsEmpty
                     (sessionId instance) (Some instance) ;;
              let hasTool :=
                existsb (fun t => String.eqb (mt_name t) toolName)
                        (tools_of r.1) in
              if hasTool then
                called <- _mcpRequest serverName "tools/call"
                            (ParamsToolCall toolName args)
                            (sessionId instance) (Some instance) ;;
                ret (Some (result called.1))
              else ret None)
           (fun _ => ret None)) ;;
      match answered with
      | Some r => ret (Some r)
      | None => call_on_per_request toolName args rest
      end
  end.

Definition _callToolWithServers (toolName : string) (args : Json)
    (perRequestServers : list (string * MCPServerInstance))
  : M World (option RpcResult) :=
  answered <- call_on_per_request toolName args perRequestServers ;;
  match answered with
  | Some r => ret r
  | None => _callToolByName toolName args
  end.

(** *** Completion backend *)

Definition createChatCompletion (options : Options) : M World Completion :=
  fun w =>
    (if stream options
     then match chat_completions_stream env options with
          | Ok s => Ok (CompletionStream s)
          | Throw e => Throw e
          end
     else match chat_completions_create env options with
          | Ok r => Ok (CompletionResponse r)
          | Throw e => Throw e
          end,
     set_completions (completions w ++ [options])%list w).

Definition optimizeToolsForProvider (ts : list Tool) (modelName : string)
  : list Tool :=
  if negb (startsWith modelName "gemini-") || (length ts =? 0)%nat then ts
  else List.map (sanitizeToolSchemaForGemini env) ts.

(** *** The content of a tool result

    [let content = JSON.stringify(result)], replaced inside a [try] by
    [result.content[0].text] when that is truthy, else by [result.content]
    or [result] when one of them is a string; the [catch], reached when
    [result] is [undefined] or [null], serializes again
    (index.ts 1410-1423, 1581-1594). *)
Definition result_content (result : option RpcResult) : Content :=
  match result with
  | None => ContentUndefined
  | Some r =>
      let serialized := ContentText (JSON_stringify env (res_value r)) in
      match res_value r with
      | JStr s => ContentText s
      | JObj members =>
          match jm_get "content" members with
          | Some (JStr s) => ContentText s
          | Some (JArr (JObj item :: _)) =>
              match jm_get "text" item with
              | Some text =>
                  if json_truthy text then
                    match text with
                    | JStr s => ContentText s
                    | _ => ContentValue text
                    end
                  else serialized
              | None => serialized
              end
          | _ => serialized
          end
      | _ => serialized
      end
  end.

(** *** Executing one tool call

    The routing block that both the streaming loop (index.ts 1396-1461)
    and [_processToolCalls] (1570-1617) contain; the flag tells whether
    the tool was executed. *)
Definition route_tool_call (toolCall : ToolCall) (args : Json)
    (perRequestServers : list (string * MCPServerInstance))
  : M World (ToolResultMessage * bool) :=
  w <- get ;;
  match toolToServerMap w !! function_name toolCall with
  | Some _ =>
      if mcpEnabled w && mcpClient w
         && (0 <? length (mcpServerInstances w))%nat
      then
        r <- _callToolWithServers (function_name toolCall) args
               perRequestServers ;;
        ret ({| tool_call_id := tc_id toolCall;
                content := result_content r |}, true)
      else
        ret ({| tool_call_id := tc_id toolCall;
                content :=
                  ContentText
                    ("Tool " ++ function_name toolCall
                     ++ " is not available (MCP server not connected)") |},
             false)
  | None =>
      ret ({| tool_call_id := tc_id toolCall;
              content :=
                ContentText ("Tool " ++ function_name toolCall
                             ++ " requires external execution") |}, false)
  end.

(** *** Non-streaming tool phase *)

(** The loop of [_processToolCalls] (index.ts 1553-1628): every iteration
    pushes one result message. *)
Fixpoint process_each (toolCalls : list ToolCall)
    (perRequestServers : list (string * MCPServerInstance))
  : M World (list ToolResultMessage) :=
  match toolCalls with
  | [] => ret []
  | toolCall :: rest =>
      pushed <-
        try_catch
          match JSON_parse env (function_arguments toolCall) with
          | Throw parseError =>
              ret {| tool_call_id := tc_id toolCall;
                     content := ContentText ("Error: Invalid tool arguments - "
                                             ++ parseError) |}
          | Ok args =>
              r <- route_tool_call toolCall args perRequestServers ;;
              ret r.1
          end
          (fun message =>
             ret {| tool_call_id := tc_id toolCall;
                    content := ContentText ("Error: " ++ message) |}) ;;
      more <- process_each rest perRequestServers ;;
      ret (pushed :: more)
  end.

(** [{...options, messages}] with [tools] and [tool_choice] deleted
    (index.ts 1513-1520, 1637-1647). *)
Definition without_tools (messages' : list Message) (o : Options) : Options :=
  {| model := model o; messages := messages'; tools := None;
     tool_choice := None; stream := stream o; mcpServers := mcpServers o;
     toolExecutionFeedback := toolExecutionFeedback o |}.

Definition _processToolCalls (response : Response) (originalOptions : Options)
    (perRequestServers : list (string * MCPServerInstance))
  : M World Completion :=
  match message_tool_calls response with
  | None => throw "Cannot read properties of undefined (reading 'length')"
  | Some toolCalls =>
      toolResults <- process_each toolCalls perRequestServers ;;
      if (0 <? length toolResults)%nat then
        let followUpOptions :=
          without_tools
            (messages originalOptions
             ++ [Assistant (message_content response) (Some toolCalls)]
             ++ List.map ToolResult toolResults)%list
            originalOptions in
        followUp <- createChatCompletion followUpOptions ;;
        match followUp with
        | CompletionResponse followUpResponse =>
            ret (CompletionResponse
                   {| message_content := message_content followUpResponse;
                      message_tool_calls := message_tool_calls followUpResponse;
                      _mcpToolResults := Some toolResults;
                      _originalToolCalls := Some toolCalls |})
        | CompletionStream s => ret (CompletionStream s)
        end
      else
        ret (CompletionResponse
               {| message_content := message_content response;
                  message_tool_calls := message_tool_calls response;
                  _mcpToolResults := Some toolResults;
                  _originalToolCalls := _originalToolCalls response |})
  end.

(** *** Streaming reconstruction *)

(** One [toolCallDelta] applied to [toolCallsBuffer] (index.ts 1258-1285). *)
Definition apply_tool_call_delta (now : N) (toolCallsBuffer : list (N * ToolCall))
    (toolCallDelta : ToolCallDelta) : list (N * ToolCall) :=
  match jm_get (index toolCallDelta) toolCallsBuffer with
  | None =>
      jm_set (index toolCallDelta)
        {| tc_id := or_else (delta_id toolCallDelta)
                      ("call_" ++ show now ++ "_" ++ show (index toolCallDelta));
           function_name := or_else (delta_name toolCallDelta) "";
           function_arguments := or_else (delta_arguments toolCallDelta) "" |}
        toolCallsBuffer
  | Some existing =>
      jm_set (index toolCallDelta)
        {| tc_id := if truthy (delta_id toolCallDelta)
                    then default "" (delta_id toolCallDelta)
                    else tc_id existing;
           function_name :=
             if truthy (delta_name toolCallDelta)
             then function_name existing ++ default "" (delta_name toolCallDelta)
             else function_name existing;
           function_arguments :=
             if truthy (delta_arguments toolCallDelta)
             then function_arguments existing
                  ++ default "" (delta_arguments toolCallDelta)
             else function_arguments existing |}
        toolCallsBuffer
  end.

(** The filter applied to [toolCallsBuffer.values()] (index.ts 1304-1313). *)
Definition valid_tool_call (toolCall : ToolCall) : bool :=
  negb (negb (truthy (Some (tc_id toolCall)))
        || negb (truthy (Some (function_name toolCall)))).

Definition finalize (toolCallsBuffer : list (N * ToolCall)) : list ToolCall :=
  List.filter valid_tool_call (jm_values toolCallsBuffer).

(** The generator's cell is the sequence of values yielded so far. *)
Definition yield (y : Yielded) : M (list Yielded * World) unit :=
  fun '(ys, w) => (Ok tt, ((ys ++ [y])%list, w)).

Definition yield_event (feedback : bool) (e : ToolExecutionEvent)
  : M (list Yielded * World) unit :=
  if feedback then yield (YEvent e) else ret tt.

Record Accumulated : Type := {
  assistant_content : string;
  toolCallsBuffer_of : list (N * ToolCall);
  hasToolCalls : bool
}.

(** One iteration of [for await (const chunk of initialStream)]. *)
Definition consume_chunk (feedback : bool) (acc : Accumulated) (chunk : Chunk)
  : M (list Yielded * World) Accumulated :=
  acc1 <-
    (if truthy (delta_content chunk) then
       yield (YChunk chunk) ;;
       ret {| assistant_content :=
                assistant_content acc ++ default "" (delta_content chunk);
              toolCallsBuffer_of := toolCallsBuffer_of acc;
              hasToolCalls := hasToolCalls acc |}
     else ret acc) ;;
  acc2 <-
    match delta_tool_calls chunk with
    | Some deltas =>
        yield_event (feedback && (length (toolCallsBuffer_of acc1) =? 0)%nat)
          tool_call_detected ;;
        now <- lift_world Date_now ;;
        yield (YChunk chunk) ;;
        ret {| assistant_content := assistant_content acc1;
               toolCallsBuffer_of :=
                 foldl (apply_tool_call_delta now) (toolCallsBuffer_of acc1)
                       deltas;
               hasToolCalls := true |}
    | None => ret acc1
    end ;;
  (if truthy (finish_reason chunk) then yield (YChunk chunk) else ret tt) ;;
  ret acc2.

(** Each chunk arrives at its own time. *)
Fixpoint drain (feedback : bool) (cs : list (N * Chunk)) (acc : Accumulated)
  : M (list Yielded * World) Accumulated :=
  match cs with
  | [] => ret acc
  | (t, chunk) :: rest =>
      lift_world (modify (set_clock t)) ;;
      acc' <- consume_chunk feedback acc chunk ;;
      drain feedback rest acc'
  end.

Definition end_of_stream (s : Stream) : M (list Yielded * World) unit :=
  match stream_error s with
  | Some message => throw message
  | None => ret tt
  end.

(** One iteration of the tool loop of the generator (index.ts 1336-1486). *)
Definition execute_streamed (feedback : bool)
    (perRequestServers : list (string * MCPServerInstance))
    (total position : nat) (toolCall : ToolCall)
  : M (list Yielded * World) ToolResultMessage :=
  yield_event feedback
    (tool_executing (function_name toolCall) (position + 1) total) ;;
  try_catch
    match (if String.eqb (trim (function_arguments toolCall)) ""
           then Throw "Empty arguments"
           else JSON_parse env (function_arguments toolCall)) with
    | Throw parseError =>
        yield_event feedback (tool_error (function_name toolCall) parseError) ;;
        ret {| tool_call_id := tc_id toolCall;
               content := ContentText ("Error: Invalid tool arguments - "
                                       ++ parseError) |}
    | Ok args =>
        r <- lift_world (route_tool_call toolCall args perRequestServers) ;;
        yield_event (feedback && r.2) (tool_completed (function_name toolCall)) ;;
        ret r.1
    end
    (fun message =>
       yield_event feedback (tool_error (function_name toolCall) message) ;;
       ret {| tool_call_id := tc_id toolCall;
              content := ContentText ("Error: " ++ message) |}).

(** The tool loop of the generator, in the order of the tool calls. *)
Fixpoint execute_all (feedback : bool)
    (perRequestServers : list (string * MCPServerInstance))
    (total position : nat) (toolCalls : list ToolCall)
  : M (list Yielded * World) (list ToolResultMessage) :=
  match toolCalls with
  | [] => ret []
  | toolCall :: rest =>
      pushed <- execute_streamed feedback perRequestServers total position
                  toolCall ;;
      more <- execute_all feedback perRequestServers total (S position) rest ;;
      ret (pushed :: more)
  end.

(** [toolResults.filter((r) => !r.content.startsWith("Error:")).length]:
    the call of [startsWith] throws a [TypeError] at the first content
    that is not a string. *)
Fixpoint count_successful (toolResults : list ToolResultMessage) : Result nat :=
  match toolResults with
  | [] => Ok O
  | r :: rest =>
      match content r with
      | ContentText s =>
          match count_successful rest with
          | Ok n => Ok (if startsWith s "Error:" then n else S n)
          | Throw e => Throw e
          end
      | ContentValue _ => Throw "r.content.startsWith is not a function"
      | ContentUndefined =>
          Throw "Cannot read properties of undefined (reading 'startsWith')"
      end
  end.

(** [for await (const chunk of followUpStream) yield chunk] *)
Fixpoint forward (cs : list (N * Chunk)) : M (list Yielded * World) unit :=
  match cs with
  | [] => ret tt
  | (t, chunk) :: rest =>
      lift_world (modify (set_clock t)) ;;
      yield (YChunk chunk) ;;
      forward rest
  end.

(** The body of the async generator, run when its consumer drains it. *)
Definition _createStreamingWithTools (options : Options)
    (perRequestServers : list (string * MCPServerInstance))
    (feedback : bool) : M (list Yielded * World) unit :=
  initialStream <- lift_world (createChatCompletion options) ;;
  match initialStream with
  | CompletionResponse _ => throw "initialStream is not async iterable"
  | CompletionStream initial =>
      acc <- drain feedback (chunks initial)
               {| assistant_content := ""; toolCallsBuffer_of := [];
                  hasToolCalls := false |} ;;
      end_of_stream initial ;;
      if negb (hasToolCalls acc) then ret tt
      else
        let toolCalls := finalize (toolCallsBuffer_of acc) in
        if (length toolCalls =? 0)%nat then ret tt
        else
          yield_event feedback
            (tool_execution_start (List.map function_name toolCalls)
                                  (length toolCalls)) ;;
          toolResults <- execute_all feedback perRequestServers
                           (length toolCalls) 0 toolCalls ;;
          if (length toolResults =? 0)%nat then ret tt
          else
            (if feedback then
               successful <- lift_result (count_successful toolResults) ;;
               yield (YEvent (tools_completed (length toolCalls) successful))
             else ret tt) ;;
            let followUpOptions :=
              without_tools
                (messages options
                 ++ [Assistant (Some (assistant_content acc)) (Some toolCalls)]
                 ++ List.map ToolResult toolResults)%list
                options in
            yield_event feedback final_response_start ;;
            followUpStream <- lift_world (createChatCompletion followUpOptions) ;;
            match followUpStream with
            | CompletionResponse _ =>
                throw "followUpStream is not async iterable"
            | CompletionStream followUp =>
                forward (chunks followUp) ;;
                end_of_stream followUp
            end
  end.

(** *** The turn *)

Inductive Outcome : Type :=
  | Returned (c : Completion)
  | Generator (g : M (list Yielded * World) unit).

(** The request sent to the backend (index.ts 1158-1175). *)
Definition enhance (options : Options) (allTools : list Tool) : Options :=
  if (0 <? length allTools)%nat then
    {| model := model options; messages := messages options;
       tools := Some (optimizeToolsForProvider allTools (model options));
       tool_choice := Some (or_else (tool_choice options) "auto");
       stream := stream options; mcpServers := None;
       toolExecutionFeedback := false |}
  else
    {| model := model options; messages := messages options;
       tools := tools options;
       tool_choice := if truthy (tool_choice options) then None
                      else tool_choice options;
       stream := stream options; mcpServers := None;
       toolExecutionFeedback := false |}.

(** The local cell is the variable [perRequestServers], which the
    [finally] block reads. *)
Definition createWithMCPTools (options : Options) : M World Outcome :=
  finished <- with_local ([] : list (string * MCPServerInstance))
    (try_finally
       (try_catch
          (perRequestTools <-
             match mcpServers options with
             | Some definitions =>
                 started <- lift_world
                              (_initializePerRequestServers definitions) ;;
                 set_local started ;;
                 lift_world (_getToolsFromPerRequestServers started)
             | None => ret []
             end ;;
           globalMcpTools <- lift_world getMCPTools ;;
           let userTools := default [] (tools options) in
           let allTools := (userTools ++ globalMcpTools ++ perRequestTools)%list in
           let enhancedOptions := enhance options allTools in
           perRequestServers <- get_local ;;
           if stream options then
             ret (Generator (_createStreamingWithTools enhancedOptions
                               perRequestServers
                               (toolExecutionFeedback options)))
           else
             response <- lift_world (createChatCompletion enhancedOptions) ;;
             match response with
             | CompletionResponse r =>
                 match message_tool_calls r with
                 | Some _ =>
                     c <- lift_world
                            (_processToolCalls r options perRequestServers) ;;
                     ret (Returned c)
                 | None => ret (Returned response)
                 end
             | CompletionStream _ => ret (Returned response)
             end)
          (fun message => throw message))
       (perRequestServers <- get_local ;;
        if (0 <? length perRequestServers)%nat
        then lift_world (_cleanupPerRequestServers perRequestServers)
        else ret tt)) ;;
  lift_result finished.1.

(** Draining a generator: the values it yielded and how it ended. *)
Definition run_generator (g : M (list Yielded * World) unit)
  : M World (Result unit * list Yielded) :=
  with_local [] g.

End SDK.

(** ** Derived definitions used in the statements *)

(** The buffer built from a sequence of deltas, each with the time at
    which its chunk arrived. *)
Definition reconstruct_from (buffer : list (N * ToolCall))
    (timed : list (N * ToolCallDelta)) : list (N * ToolCall) :=
  foldl (fun b td => apply_tool_call_delta td.1 b td.2) buffer timed.

Definition reconstruct (timed : list (N * ToolCallDelta)) : list (N * ToolCall) :=
  reconstruct_from [] timed.

(** The deltas of a stream that belong to the tool call of index [i]. *)
Definition only (i : N) (timed : list (N * ToolCallDelta))
  : list (N * ToolCallDelta) :=
  List.filter (fun td => index td.2 =? i) timed.

(** The text carried by a fragment ([undefined] carries nothing). *)
Definition fragment (o : option string) : string := or_else o "".

Fixpoint joined_names (frags : list ToolCallDelta) : string :=
  match frags with
  | [] => ""
  | d :: rest => fragment (delta_name d) ++ joined_names rest
  end.

Fixpoint joined_arguments (frags : list ToolCallDelta) : string :=
  match frags with
  | [] => ""
  | d :: rest => fragment (delta_arguments d) ++ joined_arguments rest
  end.

(** The last non-empty id carried by the fragments, if any. *)
Fixpoint last_id (frags : list ToolCallDelta) : option string :=
  match frags with
  | [] => None
  | d :: rest =>
      match last_id rest with
      | Some i => Some i
      | None => if truthy (delta_id d) then delta_id d else None
      end
  end.

(** What one chunk arriving at [now] does to the accumulated state. *)
Definition absorb (now : N) (acc : Accumulated) (chunk : Chunk) : Accumulated :=
  {| assistant_content :=
       if truthy (delta_content chunk)
       then assistant_content acc ++ default "" (delta_content chunk)
       else assistant_content acc;
     toolCallsBuffer_of :=
       match delta_tool_calls chunk with
       | Some deltas =>
           foldl (apply_tool_call_delta now) (toolCallsBuffer_of acc) deltas
       | None => toolCallsBuffer_of acc
       end;
     hasToolCalls :=
       match delta_tool_calls chunk with
       | Some _ => true
       | None => hasToolCalls acc
       end |}.

Fixpoint accumulate (cs : list (N * Chunk)) (acc : Accumulated) : Accumulated :=
  match cs with
  | [] => acc
  | (t, chunk) :: rest => accumulate rest (absorb t acc chunk)
  end.

Definition nothing_accumulated : Accumulated :=
  {| assistant_content := ""; toolCallsBuffer_of := []; hasToolCalls := false |}.

(** The deltas of a stream in arrival order. *)
Definition timed_deltas (cs : list (N * Chunk)) : list (N * ToolCallDelta) :=
  flat_map (fun tc => List.map (pair tc.1) (default [] (delta_tool_calls tc.2))) cs.

Fixpoint last_time (cs : list (N * Chunk)) (t0 : N) : N :=
  match cs with
  | [] => t0
  | (t, _) :: rest => last_time rest t
  end.

(** The derived status and uptime of an instance at time [now]. *)
Definition derived_status (instance : MCPServerInstance) : Status :=
  if initialized instance then Connected
  else if truthy (lastError instance) then Error
  else Disconnected.

(** Frames: a computation preserves what [keep] observes of the state. *)
Definition preserves {S A X : Type} (keep : S -> X) (m : M S A) : Prop :=
  forall s, keep (m s).2 = keep s.

(** The outcome of one protocol exchange with a resolved [instance]. *)
Definition exchange (env : Environment) (serverName : string)
    (instance : MCPServerInstance) (method : string) (params : Params)
    (session : option string) : Result (Payload * HttpResponse) :=
  if decide (type instance = Command) then
    Throw ("Direct MCP requests not supported for command-based servers: "
           ++ serverName)
  else
    match fetch env (build_request instance method params session) with
    | Throw e => Throw e
    | Ok response =>
        if negb (ok response) then
          Throw ("HTTP " ++ show (status response) ++ ": " ++ statusText response)
        else
          match find_data_line (text response) with
          | Some line =>
              if String.eqb line "" then
                Throw ("Invalid SSE response format: " ++ text response)
              else
                match JSON_parse_payload env line with
                | Throw e => Throw e
                | Ok data =>
                    match error data with
                    | Some message => Throw ("MCP Error: " ++ message)
                    | None => Ok (data, response)
                    end
                end
          | None => Throw ("Invalid SSE response format: " ++ text response)
          end
    end.

(** The outcome of the HTTP handshake of [instance] when its name resolves
    to [registered], and the instance it leaves. *)
Definition handshake (env : Environment) (registered instance : MCPServerInstance)
  : Result unit * MCPServerInstance :=
  match exchange env (name instance) registered "initialize" ParamsInitialize
                 None with
  | Throw message =>
      (Throw ("Failed to initialize HTTP server " ++ name instance ++ ": "
              ++ message), instance)
  | Ok (data, response) =>
      if has_result data then
        (Ok tt, with_initialized true
                  (with_sessionId (session_header response) instance))
      else (Ok tt, instance)
  end.

(** The outcome of launching the subprocess of [instance] with handle [h]. *)
Definition launch (env : Environment) (instance : MCPServerInstance) (h : Handle)
  : Result unit * MCPServerInstance :=
  match spawn env (default "" (def_command (config instance)))
              (default [] (def_args (config instance)))
              (def_env (config instance)) with
  | Spawned => (Ok tt, with_initialized true (with_process h (Some h) instance))
  | SpawnFailed msg => (Throw msg, with_process h None instance)
  | SpawnSilent =>
      (Throw ("Command server " ++ name instance
              ++ " failed to start within timeout"),
       with_process h (Some h) instance)
  end.

Definition started (env : Environment) (instance : MCPServerInstance) (h : Handle)
  : Result unit * MCPServerInstance :=
  if decide (type instance = Command) then launch env instance h
  else handshake env instance instance.

(** What [_initializeMCPServer] leaves in the registry after the start
    sequence ended. *)
Definition settled (s : Result unit * MCPServerInstance) : MCPServerInstance :=
  match s.1 with
  | Ok _ => s.2
  | Throw message => with_lastError (Some message) s.2
  end.

(** Whether a server defined by [processedConfig] ends initialized, and the
    error recorded for it: a function of its own definition only. *)
Definition start_verdict (env : Environment) (serverName : string)
    (processedConfig : MCPServerDefinition) (t : ServerType)
  : bool * option string :=
  let i := settled (started env (new_instance serverName processedConfig t 0) O) in
  (initialized i, lastError i).


(** ** A concrete environment for the examples

    Six HTTP servers ([http://fs] offers [read_file], [http://extra]
    offers [lookup], [http://mute] offers [ping] and answers a call with
    neither result nor error, [http://plain] answers without an event
    line, [http://indented] answers with white space before the marker,
    [http://refuses] answers with a JSON-RPC error) and two commands
    ([missing] cannot be launched, any other command starts). *)

Definition no_definition : MCPServerDefinition :=
  {| def_command := None; def_args := None; def_type := None; def_url := None;
     def_headers := None; def_timeout := None; def_env := [] |}.

Definition command_definition (cmd : string) : MCPServerDefinition :=
  {| def_command := Some cmd; def_args := None; def_type := None;
     def_url := None; def_headers := None; def_timeout := None; def_env := [] |}.

Definition http_definition (url : string) : MCPServerDefinition :=
  {| def_command := None; def_args := None; def_type := Some StreamableHttp;
     def_url := Some url; def_headers := None; def_timeout := None;
     def_env := [] |}.

Definition reply (body : string) : Result HttpResponse :=
  Ok {| ok := true; status := 200; statusText := "OK"; text := body;
        session_header := Some "session-1" |}.

Definition demo_fetch (r : FetchRequest) : Result HttpResponse :=
  match fr_url r with
  | Some url =>
      if String.eqb url "http://plain" then reply "hello"
      else if String.eqb url "http://indented" then reply "  data: init"
      else if String.eqb url "http://refuses" then reply "data: error"
      else if String.eqb url "http://fs" || String.eqb url "http://extra" then
        if String.eqb (fr_method r) "tools/list" then
          if String.eqb url "http://fs" then reply "data: list_fs"
          else reply "data: list_extra"
        else if String.eqb (fr_method r) "tools/call" then reply "data: called"
        else reply "data: init"
      else if String.eqb url "http://mute" then
        if String.eqb (fr_method r) "tools/list" then reply "data: list_mute"
        else if String.eqb (fr_method r) "tools/call" then reply "data: empty"
        else reply "data: init"
      else Throw "fetch failed"
  | None => Throw "Failed to parse URL from undefined"
  end.

Definition demo_tool (n : string) : McpTool :=
  {| mt_name := n; mt_description := "a tool"; mt_inputSchema := JObj [] |}.

Definition demo_parse_payload (line : string) : Result Payload :=
  if String.eqb line "init" then
    Ok {| error := None;
          result := Some {| res_tools := None; res_value := JObj [] |} |}
  else if String.eqb line "list_fs" then
    Ok {| error := None;
          result := Some {| res_tools := Some [demo_tool "read_file"];
                            res_value := JObj [] |} |}
  else if String.eqb line "list_extra" then
    Ok {| error := None;
          result := Some {| res_tools := Some [demo_tool "lookup"];
                            res_value := JObj [] |} |}
  else if String.eqb line "list_mute" then
    Ok {| error := None;
          result := Some {| res_tools := Some [demo_tool "ping"];
                            res_value := JObj [] |} |}
  else if String.eqb line "called" then
    Ok {| error := None;
          result := Some {| res_tools := None; res_value := JStr "contents" |} |}
  else if String.eqb line "empty" then
    Ok {| error := None; result := None |}
  else if String.eqb line "error" then
    Ok {| error := Some "denied"; result := None |}
  else Throw "Unexpected token".

Definition demo_parse (s : string) : Result Json :=
  if String.eqb s "{}" then Ok (JObj [])
  else Throw "Unexpected end of JSON input".

(** Serializes the values that the examples meet. *)
Definition demo_stringify (j : Json) : string :=
  match j with
  | JNull => "null"
  | JBool true => "true"
  | JBool false => "false"
  | JNum n => pretty n
  | JArr [] => "[]"
  | _ => "{}"
  end.

Definition demo_call (n : string) : ToolCall :=
  {| tc_id := "call_1"; function_name := n; function_arguments := "{}" |}.

(** The model asks for the tool named after the colon of its model name
    while tools are on offer, and answers in plain text otherwise. *)
Definition requested_tool (o : Options) : option string :=
  match tools o with
  | Some _ =>
      if String.eqb (model o) "ask:read_file" then Some "read_file"
      else if String.eqb (model o) "ask:lookup" then Some "lookup"
      else if String.eqb (model o) "ask:ping" then Some "ping"
      else None
  | None => None
  end.

Definition demo_create (o : Options) : Result Response :=
  match requested_tool o with
  | Some n =>
      Ok {| message_content := None; message_tool_calls := Some [demo_call n];
            _mcpToolResults := None; _originalToolCalls := None |}
  | None =>
      Ok {| message_content := Some "answer"; message_tool_calls := None;
            _mcpToolResults := None; _originalToolCalls := None |}
  end.

Definition text_chunk (s : string) : Chunk :=
  {| delta_content := Some s; delta_tool_calls := None; finish_reason := None |}.

Definition tool_chunk (d : ToolCallDelta) : Chunk :=
  {| delta_content := None; delta_tool_calls := Some [d]; finish_reason := None |}.

Definition demo_stream (o : Options) : Result Stream :=
  match requested_tool o with
  | Some n =>
      Ok {| chunks :=
              [(10, tool_chunk {| index := 0; delta_id := Some "call_1";
                                  delta_name := Some n;
                                  delta_arguments := Some "{" |});
               (11, tool_chunk {| index := 0; delta_id := None;
                                  delta_name := None;
                                  delta_arguments := Some "}" |})];
            stream_error := None |}
  | None =>
      Ok {| chunks := [(20, text_chunk "answer")]; stream_error := None |}
  end.

Definition demo_env : Environment :=
  {| substituteVariables := fun s => s;
     spawn := fun cmd _ _ =>
                if String.eqb cmd "missing"
                then SpawnFailed "spawn missing ENOENT" else Spawned;
     fetch := demo_fetch;
     JSON_parse_payload := demo_parse_payload;
     JSON_parse := demo_parse;
     JSON_stringify := demo_stringify;
     sanitizeToolSchemaForGemini := fun t => t;
     chat_completions_create := demo_create;
     chat_completions_stream := demo_stream |}.

(** The SDK object as the constructor leaves it, at time [now]. *)
Definition constructed (servers : list (string * MCPServerDefinition)) (now : N)
  : World :=
  {| mcpServersConfig := servers; mcpEnabled := true; mcpClient := false;
     mcpServerInstances := []; mcpToolsCache := None; mcpLastCacheTime := 0;
     toolToServerMap := ∅; clock := now; next_handle := O; running := ∅;
     requests := []; completions := [] |}.

Definition demo_options (modelName : string) (streaming : bool)
    (servers : option (list (string * MCPServerDefinition))) : Options :=
  {| model := modelName; messages := [Plain "user" "hello"]; tools := None;
     tool_choice := None; stream := streaming; mcpServers := servers;
     toolExecutionFeedback := false |}.

(** A backend whose stream announces a tool call without ever naming it. *)
Definition nameless_stream (o : Options) : Result Stream :=
  Ok {| chunks :=
          [(10, text_chunk "Let me check.");
           (11, tool_chunk {| index := 0; delta_id := Some "call_1";
                              delta_name := None;
                              delta_arguments := Some "{}" |})];
        stream_error := None |}.

Definition nameless_env : Environment :=
  {| substituteVariables := substituteVariables demo_env;
     spawn := spawn demo_env;
     fetch := fetch demo_env;
     JSON_parse_payload := JSON_parse_payload demo_env;
     JSON_parse := JSON_parse demo_env;
     JSON_stringify := JSON_stringify demo_env;
     sanitizeToolSchemaForGemini := sanitizeToolSchemaForGemini demo_env;
     chat_completions_create := chat_completions_create demo_env;
     chat_completions_stream := nameless_stream |}.

(** A request as [createWithMCPTools] passes it on once the catalog of
    [http://fs] has been merged in. *)
Definition demo_enhanced (modelName : string) (streaming : bool) : Options :=
  {| model := modelName; messages := [Plain "user" "hello"];
     tools := Some [format_tool "fs" false (demo_tool "read_file")];
     tool_choice := Some "auto"; stream := streaming; mcpServers := None;
     toolExecutionFeedback := false |}.

(** The SDK object once the single server [fs] at [http://fs] is connected. *)
Definition fs_connected : World :=
  (initializeMCP demo_env (constructed [("fs", http_definition "http://fs")] 0)).2.

(** The SDK object once the single server [mute] at [http://mute] is
    connected. *)
Definition mute_connected : World :=
  (initializeMCP demo_env (constructed [("mute", http_definition "http://mute")] 0)).2.

(** An initialized per-request instance of the server at [http://extra]. *)
Definition extra_instance : MCPServerInstance :=
  with_initialized true
    (with_sessionId (Some "session-1")
       (new_instance "temp_extra_5" (http_definition "http://extra")
                     StreamableHttp 5)).

Definition asks_lookup : Response :=
  {| message_content := None; message_tool_calls := Some [demo_call "lookup"];
     _mcpToolResults := None; _originalToolCalls := None |}.

(** The tool-result messages among the messages of a request. *)
Definition tool_results_of (o : Options) : list ToolResultMessage :=
  flat_map (fun m => match m with ToolResult r => [r] | _ => [] end) (messages o).

(** Runs [m] and then [k] on the world that [m] leaves, throwing or not. *)
Definition and_then {A B} (m : M World A) (k : M World B) : M World B :=
  fun w => k (m w).2.

(** The update that a delta makes to an existing entry. *)
Definition merge_delta (existing : ToolCall) (d : ToolCallDelta) : ToolCall :=
  {| tc_id := if truthy (delta_id d) then default "" (delta_id d)
              else tc_id existing;
     function_name := function_name existing ++ fragment (delta_name d);
     function_arguments :=
       function_arguments existing ++ fragment (delta_arguments d) |}.

Definition ids_present (buffer : list (N * ToolCall)) : Prop :=
  Forall (fun e => tc_id e.2 <> "") buffer.

(** Whether [getMCPTools] would answer from the cache. *)
Definition cache_valid (w : World) : bool :=
  match mcpToolsCache w with
  | Some _ => (Z.of_N (clock w) - Z.of_N (mcpLastCacheTime w) <? CACHE_DURATION)%Z
  | None => false
  end.

(** Values that the generator passes through while draining the initial
    stream: chunks, and the notice that tool calls were detected. *)
Definition passthrough (y : Yielded) : Prop :=
  match y with
  | YChunk _ => True
  | YEvent e => e = tool_call_detected
  end.

(** The request of the follow-up completion. *)
Definition follow_up (o : Options) (assistant : Message)
    (toolResults : list ToolResultMessage) : Options :=
  without_tools (messages o ++ [assistant] ++ List.map ToolResult toolResults)%list o.

(** The count that the generator makes of the successful tools before the
    follow-up: only with execution feedback. *)
Definition counted (feedback : bool) (toolResults : list ToolResultMessage)
  : Result nat :=
  if feedback then count_successful toolResults else Ok O.

(** Whether the character [c] occurs in [s]. *)
Fixpoint mentions (c : ascii) (s : string) : bool :=
  match s with
  | EmptyString => false
  | String a s' => Ascii.eqb a c || mentions c s'
  end.

(** The subprocess that [_cleanupPerRequestServers] kills for an instance. *)
Definition subprocess_of (i : MCPServerInstance) : option Handle :=
  if decide (type i = Command) then process i else None.

Definition handles (servers : list (string * MCPServerInstance)) : gset Handle :=
  list_to_set (omap (fun e => subprocess_of e.2) servers).

(** The subprocesses running in [s.2] were running in [w] or belong to the
    per-request servers held in the cell [s.1]. *)
Definition covered (w : World) (s : list (string * MCPServerInstance) * World)
  : Prop :=
  forall h, h ∈ running s.2 -> h ∈ running w \/ h ∈ handles s.1.

(** The per-request definitions of a request are well formed: the names
    are the keys of an object, and every definition has a command or a
    url/type. *)
Definition well_formed_definitions (env : Environment)
    (definitions : list (string * MCPServerDefinition)) : Prop :=
  NoDup definitions.*1
  /\ Forall (fun d => exists t, _getServerType (processServerConfig env d.2) = Ok t)
            definitions.

(** What an observation [keep] of the world may ignore. *)
Definition ignores_requests {X} (keep : World -> X) : Prop :=
  forall l w, keep (set_requests l w) = keep w.
Definition ignores_instances {X} (keep : World -> X) : Prop :=
  forall m w, keep (set_mcpServerInstances m w) = keep w.
Definition ignores_instance {X} (keep : World -> X) (n : string) : Prop :=
  forall i w,
    keep (set_mcpServerInstances (jm_set n i (mcpServerInstances w)) w) = keep w.
Definition ignores_processes {X} (keep : World -> X) : Prop :=
  forall n r w, keep (set_processes n r w) = keep w.
Definition ignores_clock {X} (keep : World -> X) : Prop :=
  forall t w, keep (set_clock t w) = keep w.
Definition ignores_toolToServerMap {X} (keep : World -> X) : Prop :=
  forall m w, keep (set_toolToServerMap m w) = keep w.
Definition ignores_completions {X} (keep : World -> X) : Prop :=
  forall l w, keep (set_completions l w) = keep w.
Definition ignores_cache {X} (keep : World -> X) : Prop :=
  forall c t w, keep (set_cache c t w) = keep w.

(** ** Registry queries and direct tool calls *)

(** A call of [callMCPTool] under one of its two declared signatures:
    [callMCPTool(name, args)] and [callMCPTool(serverName, toolName, args)],
    where the third argument of the latter may be [undefined]. *)
Inductive ToolInvocation : Type :=
  | by_name (toolName : string) (args : Json)
  | on_server (serverName toolName : string) (args : option Json).

(** What [getMCPServerStatus] returns: one status, or one per instance. *)
Inductive StatusReport : Type :=
  | OneStatus (s : MCPServerStatus)
  | AllStatuses (l : list MCPServerStatus).

Section Queries.
Context (env : Environment).

(** The implementation tells the signatures apart by [args !== undefined]. *)
Definition callMCPTool (call : ToolInvocation) : M World (option RpcResult) :=
  match call with
  | on_server nameOrServer argsOrToolName (Some args) =>
      _callToolOnServer env nameOrServer argsOrToolName args
  | on_server nameOrServer argsOrToolName None =>
      _callToolByName env nameOrServer (JStr argsOrToolName)
  | by_name nameOrServer argsOrToolName =>
      _callToolByName env nameOrServer argsOrToolName
  end.

Definition _getToolsFromServer (serverName : string) : M World (list Tool) :=
  w <- get ;;
  match jm_get serverName (mcpServerInstances w) with
  | None => throw ("MCP server not found: " ++ serverName)
  | Some instance =>
      if negb (initialized instance) then
        throw ("Server " ++ serverName ++ " is not initialized")
      else if decide (type instance = Command) then
        throw ("Tool listing not yet implemented for command-based servers: "
               ++ serverName)
      else
        try_catch
          (r <- _mcpRequest env serverName "tools/list" ParamsEmpty
                  (sessionId instance) None ;;
           ret (List.map (format_tool serverName false) (tools_of r.1)))
          (fun message => throw message)
  end.

Definition listAvailableTools (serverName : option string) : M World (list Tool) :=
  if truthy serverName then _getToolsFromServer (default "" serverName)
  else getMCPTools env.

(** [data.result?.capabilities || {}], the result being [res_value]. *)
Definition capabilities_of (data : Payload) : Json :=
  match result data with
  | Some {| res_value := JObj members |} =>
      match jm_get "capabilities" members with
      | Some c => if json_truthy c then c else JObj []
      | None => JObj []
      end
  | _ => JObj []
  end.

Definition getMCPServerCapabilities (serverName : string) : M World Json :=
  w <- get ;;
  match jm_get serverName (mcpServerInstances w) with
  | None => throw ("MCP server not found: " ++ serverName)
  | Some instance =>
      if negb (initialized instance) then
        throw ("Server " ++ serverName ++ " is not initialized")
      else if decide (type instance = Command) then
        throw ("Capabilities querying not yet implemented for command-based servers: "
               ++ serverName)
      else
        try_catch
          (r <- _mcpRequest env serverName "initialize" ParamsInitialize
                  (sessionId instance) None ;;
           ret (capabilities_of r.1))
          (fun message => throw message)
  end.

End Queries.

(** The loop of [getMCPServerStatus] over the registry (index.ts 850-854). *)
Fixpoint statuses_of (entries : list (string * MCPServerInstance))
  : M World (list MCPServerStatus) :=
  match entries with
  | [] => ret []
  | (name, _) :: rest =>
      s <- _getServerStatus name ;;
      more <- statuses_of rest ;;
      ret (s :: more)
  end.

Definition getMCPServerStatus (serverName : option string) : M World StatusReport :=
  if truthy serverName then
    s <- _getServerStatus (default "" serverName) ;; ret (OneStatus s)
  else
    w <- get ;;
    statuses <- statuses_of (mcpServerInstances w) ;;
    ret (AllStatuses statuses).

(** ** Construction *)

(** The options of the constructor that it reads itself: [mcpServerUrls]
    when it is an array, [mcpServerUrl] when it is a string. *)
Record ClientOptions : Type := {
  opt_mcpServers : option (list (string * MCPServerDefinition));
  opt_mcpServerUrls : option (list string);
  opt_mcpServerUrl : option string;
  opt_mcpEnabled : option bool
}.

(** [{type: "streamable-http", url}] *)
Definition legacy_definition (url : string) : MCPServerDefinition :=
  {| def_command := None; def_args := None; def_type := Some StreamableHttp;
     def_url := Some url; def_headers := None; def_timeout := None;
     def_env := [] |}.

(** [mcpServerUrls.forEach((url, index) => ...)], from [index] on. *)
Fixpoint add_legacy_servers (urls : list string) (index : nat)
    (config : list (string * MCPServerDefinition))
  : list (string * MCPServerDefinition) :=
  match urls with
  | [] => config
  | url :: rest =>
      add_legacy_servers rest (S index)
        (jm_set ("legacy_server_" ++ show (N.of_nat index))
                (legacy_definition url) config)
  end.

(** The key under which the URL at position [index] is configured. *)
Definition legacy_name (index : nat) : string :=
  "legacy_server_" ++ show (N.of_nat index).

(** The configuration that the constructor stores (index.ts 343-361). *)
Definition configured_servers (options : ClientOptions)
  : list (string * MCPServerDefinition) :=
  let config := default [] (opt_mcpServers options) in
  let config := match opt_mcpServerUrls options with
                | Some urls => add_legacy_servers urls 0 config
                | None => config
                end in
  if truthy (opt_mcpServerUrl options)
  then jm_set "legacy_server"
         (legacy_definition (default "" (opt_mcpServerUrl options))) config
  else config.

Section Construction.
Context (env : Environment) (super_OpenAI : Result unit).

(** The constructor, followed by the initialization that it starts.
    [super_OpenAI] is the outcome of the base-class constructor called
    first, which throws for instance when it is given no API key. *)
Definition constructor (options : ClientOptions) : M World unit :=
  lift_result super_OpenAI ;;
  modify (fun w =>
    {| mcpServersConfig := configured_servers options;
       mcpEnabled := match opt_mcpEnabled options with
                     | Some false => false
                     | _ => true
                     end;
       mcpClient := false; mcpServerInstances := []; mcpToolsCache := None;
       mcpLastCacheTime := 0; toolToServerMap := ∅; clock := clock w;
       next_handle := next_handle w; running := running w;
       requests := requests w; completions := completions w |}) ;;
  try_catch (initializeMCP env) (fun _ => ret tt).

End Construction.

(** The registered instance that a direct request to [serverName] would
    be sent for: initialized and not command-based. *)
Definition reachable (serverName : string) (w : World) : option MCPServerInstance :=
  match jm_get serverName (mcpServerInstances w) with
  | Some i =>
      if initialized i && negb (bool_decide (type i = Command)) then Some i
      else None
  | None => None
  end.


(** ** Variable substitution

    [substituteVariables] (index.ts 109-123) makes two passes of
    [String.prototype.replace] with a global regular expression, the first
    for [${NAME}] and the second for [{{NAME}}].  A pass scans the text
    from left to right; where the expression matches, the match is
    replaced and the scan resumes after it, so replaced text is not
    scanned again by the same pass. *)

Module Substitution.

(** [process.env[varName]] as the replacer reads it: the value of the
    variable of that name when one is set and, failing that, the property
    that the object inherits under that name ([toString], [constructor],
    ...), as the text that [replace] inserts for it; [None] when there is
    neither. *)
Definition ProcessEnv : Type := string -> option string.



(** The longest prefix of [s] without a closing brace, which is what
    [[^}]+] captures, and the rest of [s]. *)
Fixpoint until_brace (s : string) : string * string :=
  match s with
  | EmptyString => (EmptyString, EmptyString)
  | String c s' =>
      if Ascii.eqb c "}" then (EmptyString, s)
      else (String c (until_brace s').1, (until_brace s').2)
  end.

(** A match of [/\$\{([^}]+)\}/] at the start of [s]: the text matched,
    the name captured and the text that follows the match. *)
Definition dollar_reference (s : string) : option (string * string * string) :=
  match s with
  | String "$" (String "{" rest) =>
      match until_brace rest with
      | (String c n, String "}" after) =>
          Some ("${" ++ String c n ++ "}", String c n, after)
      | _ => None
      end
  | _ => None
  end%char.

(** A match of [/\{\{([^}]+)\}\}/] at the start of [s]. *)
Definition template_reference (s : string) : option (string * string * string) :=
  match s with
  | String "{" (String "{" rest) =>
      match until_brace rest with
      | (String c n, String "}" (String "}" after)) =>
          Some ("{{" ++ String c n ++ "}}", String c n, after)
      | _ => None
      end
  | _ => None
  end%char.

(** [s.replace(re, (match, varName) => process.env[varName] || match)] for
    the expression recognised by [reference]; every step consumes at least
    one character, so the length of the text bounds the number of steps. *)
Fixpoint replace_from (reference : string -> option (string * string * string))
    (getenv : ProcessEnv) (fuel : nat) (s : string) : string :=
  match fuel with
  | O => s
  | S fuel' =>
      match reference s with
      | Some (matched, varName, after) =>
          or_else (getenv varName) matched
          ++ replace_from reference getenv fuel' after
      | None =>
          match s with
          | EmptyString => EmptyString
          | String c s' => String c (replace_from reference getenv fuel' s')
          end
      end
  end.

Definition replace (reference : string -> option (string * string * string))
    (getenv : ProcessEnv) (s : string) : string :=
  replace_from reference getenv (String.length s) s.

Definition substituteVariables (getenv : ProcessEnv) (value : string) : string :=
  let result := replace dollar_reference getenv value in
  replace template_reference getenv result.

(** The names that the two expressions capture at some position of a
    text. *)
Fixpoint referenced_names (s : string) : list string :=
  (match dollar_reference s with
   | Some (_, varName, _) => [varName]
   | None => []
   end
   ++ match template_reference s with
      | Some (_, varName, _) => [varName]
      | None => []
      end
   ++ match s with
      | EmptyString => []
      | String _ s' => referenced_names s'
      end)%list.

End Substitution.

(** The texts of a server definition that [processServerConfig] passes
    through substitution. *)
Definition definition_texts (c : MCPServerDefinition) : list string :=
  (default [] (def_args c)
   ++ (if truthy (def_url c) then [default "" (def_url c)] else [])
   ++ (default [] (def_headers c)).*2)%list.

(** No reference anywhere in [text] names something that has a value. *)
Definition unresolved (getenv : Substitution.ProcessEnv) (text : string) : Prop :=
  Forall (fun varName => truthy (getenv varName) = false)
         (Substitution.referenced_names text).

(** A recogniser reports matches that are non-empty prefixes of the text. *)
Definition recognises (reference : string -> option (string * string * string))
  : Prop :=
  forall s matched varName after,
    reference s = Some (matched, varName, after) ->
    s = matched ++ after /\ matched <> "".

(** An environment whose substitution is the one above. *)
Definition substituting_env (getenv : Substitution.ProcessEnv) : Environment :=
  {| substituteVariables := Substitution.substituteVariables getenv;
     spawn := spawn demo_env;
     fetch := fetch demo_env;
     JSON_parse_payload := JSON_parse_payload demo_env;
     JSON_parse := JSON_parse demo_env;
     JSON_stringify := JSON_stringify demo_env;
     sanitizeToolSchemaForGemini := sanitizeToolSchemaForGemini demo_env;
     chat_completions_create := chat_completions_create demo_env;
     chat_completions_stream := chat_completions_stream demo_env |}.


(** ** Providers

    The layer beneath [createChatCompletion] (index.ts 90-103, 151-202,
    305-321, 1099-1128): the provider is chosen by the prefix of the model
    name, its client is created once and kept in the module-level map
    [providerClients], the request is adjusted for the provider and a
    stream is passed through [normalizeStream]. *)

(** [delete object[key]] on an object given by its members. *)
Definition delete {V} (key : string) (object : list (string * V))
  : list (string * V) :=
  List.filter (fun member => negb (String.eqb member.1 key)) object.

Module Provider.

Record ProviderConfig : Type := {
  provider_name : string;
  baseURL : string;
  apiKeyEnv : string
}.

Definition PROVIDER_CONFIGS : list (string * ProviderConfig) :=
  [("claude-", {| provider_name := "Anthropic Claude";
                  baseURL := "https://api.anthropic.com/v1/";
                  apiKeyEnv := "ANTHROPIC_API_KEY" |});
   ("gemini-", {| provider_name := "Google Gemini";
                  baseURL := "https://generativelanguage.googleapis.com/v1beta/openai/";
                  apiKeyEnv := "GEMINI_API_KEY" |})].

Definition getProviderConfig (modelName : string) : option ProviderConfig :=
  snd <$> List.find (fun entry => startsWith modelName entry.1) PROVIDER_CONFIGS.

(** A client object: [new OpenAI({apiKey, baseURL})] for a provider, which
    is given a non-empty key, or [new OpenAI(this.originalOpenAIOptions)]
    for the default one. *)
Inductive Client : Type :=
  | ProviderClient (apiKey baseURL : string)
  | DefaultClient.

(** The fields of a request other than [model]. *)
Definition Fields : Type := list (string * Json).

Definition optimizeParametersForProvider (options : Fields) (modelName : string)
  : Fields :=
  if startsWith modelName "gemini-" then
    let optimized := delete "max_tokens" options in
    match jm_get "stream" optimized with
    | Some s => if json_truthy s then jm_set "stream" (JBool true) optimized
                else optimized
    | None => optimized
    end
  else options.

(** A chunk as a provider sends it: its [type] member and the rest. *)
Record RawChunk : Type := {
  chunk_type : option string;
  chunk_body : Chunk
}.

Record RawStream : Type := {
  raw_chunks : list (N * RawChunk);
  raw_error : option string
}.

(** The generator [normalizeStream]: the chunks it yields, and the error
    of the underlying stream, which it rethrows. *)
Definition normalizeStream (stream : RawStream) (modelName : string) : RawStream :=
  {| raw_chunks :=
       if startsWith modelName "claude-"
       then List.filter
              (fun c => negb (bool_decide (chunk_type c.2 = Some "ping")))
              (raw_chunks stream)
       else raw_chunks stream;
     raw_error := raw_error stream |}.

Inductive Reply : Type :=
  | ReplyResponse (r : Response)
  | ReplyStream (s : RawStream).

(** The module-level map [providerClients] and the requests made so far:
    which client was asked, for which model, with which fields. *)
Record Layer : Type := {
  providerClients : list (string * Client);
  sent : list (Client * string * Fields)
}.

Section Clients.
(** [process.env]; how [new OpenAI(this.originalOpenAIOptions)] ends, which
    the library decides; and [client.chat.completions.create]. *)
Context (getenv : Substitution.ProcessEnv)
        (new_OpenAI : Result unit)
        (create : Client -> string -> Fields -> Result Reply).

Definition getProviderClient (providerConfig : ProviderConfig)
  : M Layer (option Client) :=
  let key := baseURL providerConfig in
  l <- get ;;
  (if negb (jm_has key (providerClients l)) then
     let apiKey := getenv (apiKeyEnv providerConfig) in
     if negb (truthy apiKey) then
       throw ("Missing API key for " ++ provider_name providerConfig
              ++ ". Please set " ++ apiKeyEnv providerConfig
              ++ " environment variable.")
     else
       modify (fun l =>
         {| providerClients :=
              jm_set key (ProviderClient (default "" apiKey)
                                         (baseURL providerConfig))
                     (providerClients l);
            sent := sent l |})
   else ret tt) ;;
  l <- get ;;
  ret (jm_get key (providerClients l)).

(** [client.chat.completions.create(optimizedOptions)], logged. *)
Definition chat_completions (client : Client) (modelName : string)
    (optimizedOptions : Fields) : M Layer Reply :=
  fun l =>
    (create client modelName optimizedOptions,
     {| providerClients := providerClients l;
        sent := (sent l ++ [(client, modelName, optimizedOptions)])%list |}).

Definition createChatCompletion (modelName : string) (options : Fields)
  : M Layer Reply :=
  let providerConfig := getProviderConfig modelName in
  let optimizedOptions := optimizeParametersForProvider options modelName in
  client <-
    match providerConfig with
    | Some providerConfig =>
        found <- getProviderClient providerConfig ;;
        match found with
        | Some client => ret client
        | None => throw "Cannot read properties of undefined (reading 'chat')"
        end
    | None => lift_result new_OpenAI ;; ret DefaultClient
    end ;;
  response <- chat_completions client modelName optimizedOptions ;;
  match jm_get "stream" optimizedOptions with
  | Some s =>
      if json_truthy s then
        match response with
        | ReplyStream raw => ret (ReplyStream (normalizeStream raw modelName))
        | ReplyResponse _ =>
            ret (ReplyStream {| raw_chunks := [];
                                raw_error := Some "stream is not async iterable" |})
        end
      else ret response
  | None => ret response
  end.

End Clients.

End Provider.


(** ** Tool schemas for Gemini

    [sanitizeToolSchemaForGemini] (index.ts 204-283) works on a copy of the
    tool made by [JSON.parse(JSON.stringify(tool))].  Objects are given by
    their members in enumeration order; assigning a member keeps the
    position of an existing key and appends a new one.  The key
    [__proto__], which assignment treats specially, is outside the
    model. *)

Module Gemini.

(** The schema keywords that [cleanSchemaProperties] skips. *)
Definition skipped_keywords : list string :=
  ["anyOf"; "oneOf"; "allOf"; "not"; "$ref"; "const"; "examples"; "default";
   "$schema"; "additionalProperties"].

Definition skipped (key : string) : bool :=
  existsb (String.eqb key) skipped_keywords.

(** [cleanSchemaProperties]: a value that is not an object is returned as
    it is; of an object, and of an array (whose entries are its elements
    under their indices), the entries with a skipped key are dropped and
    the others are cleaned.  An element of an array that is a value of an
    entry is cleaned when [typeof] calls it an object. *)
Fixpoint cleanSchemaProperties (obj : Json) : Json :=
  let clean_value (value : Json) : Json :=
    match value with
    | JArr items =>
        JArr (List.map (fun item => match item with
                                    | JNull | JArr _ | JObj _ =>
                                        cleanSchemaProperties item
                                    | _ => item
                                    end) items)
    | JObj _ => cleanSchemaProperties value
    | _ => value
    end in
  match obj with
  | JObj members =>
      JObj ((fix over (l : list (string * Json)) : list (string * Json) :=
               match l with
               | [] => []
               | (key, value) :: l' =>
                   if skipped key then over l'
                   else (key, clean_value value) :: over l'
               end) members)
  | JArr items =>
      JObj ((fix over (index : nat) (l : list Json) : list (string * Json) :=
               match l with
               | [] => []
               | value :: l' =>
                   (show (N.of_nat index), clean_value value) :: over (S index) l'
               end) 0%nat items)
  | _ => obj
  end.

(** The three ways in which the function above treats a value, by where
    the value stands. *)
Definition clean_item (item : Json) : Json :=
  match item with
  | JNull | JArr _ | JObj _ => cleanSchemaProperties item
  | _ => item
  end.

Definition clean_value (value : Json) : Json :=
  match value with
  | JArr items => JArr (List.map clean_item items)
  | JObj _ => cleanSchemaProperties value
  | _ => value
  end.

Fixpoint clean_members (l : list (string * Json)) : list (string * Json) :=
  match l with
  | [] => []
  | (key, value) :: l' =>
      if skipped key then clean_members l'
      else (key, clean_value value) :: clean_members l'
  end.

Fixpoint clean_elements (index : nat) (l : list Json) : list (string * Json) :=
  match l with
  | [] => []
  | value :: l' =>
      (show (N.of_nat index), clean_value value) :: clean_elements (S index) l'
  end.

(** The parameters given to a tool that has none. *)
Definition EMPTY_PARAMETERS : Json :=
  JObj [("type", JStr "object"); ("properties", JObj []); ("required", JArr [])].

Definition basic_types : list string :=
  ["string"; "number"; "boolean"; "array"; "object"].

(** [["string", ...].includes(type)] *)
Definition is_basic_type (t : Json) : bool :=
  match t with
  | JStr s => existsb (String.eqb s) basic_types
  | _ => false
  end.

(** One iteration of the loop over [Object.entries(params.properties)]. *)
Definition ensure_basic_type (propSchema : Json) : Result Json :=
  match propSchema with
  | JNull => Throw "Cannot read properties of null (reading 'type')"
  | JObj fields =>
      match jm_get "type" fields with
      | Some t =>
          if json_truthy t && negb (is_basic_type t)
          then Ok (JObj (jm_set "type" (JStr "string") fields))
          else Ok propSchema
      | None => Ok propSchema
      end
  | _ => Ok propSchema
  end.

Fixpoint ensure_basic_types (properties : list (string * Json))
  : Result (list (string * Json)) :=
  match properties with
  | [] => Ok []
  | (propName, propSchema) :: rest =>
      match ensure_basic_type propSchema with
      | Throw e => Throw e
      | Ok propSchema' =>
          match ensure_basic_types rest with
          | Throw e => Throw e
          | Ok rest' => Ok ((propName, propSchema') :: rest')
          end
      end
  end.

Definition with_parameters (parameters : Json) (tool : Tool) : Tool :=
  {| fn_name := fn_name tool; fn_description := fn_description tool;
     fn_parameters := parameters; _mcpServerName := _mcpServerName tool;
     _isPerRequest := _isPerRequest tool |}.

(** How a primitive is named by the error of an assignment to one of its
    properties, which module code, being strict, raises. *)
Definition primitive_name (j : Json) : string :=
  match j with
  | JBool b => "boolean '" ++ (if b then "true" else "false") ++ "'"
  | JNum n => "number '" ++ pretty n ++ "'"
  | JStr s => "string '" ++ s ++ "'"
  | _ => ""
  end.

(** The members of [params] once the metadata is deleted, the properties
    are cleaned and [required] is an array (index.ts 219-266). *)
Definition prepare (params : list (string * Json)) : list (string * Json) :=
  let params := delete "additionalProperties" (delete "$schema" params) in
  let params :=
    match jm_get "properties" params with
    | Some properties =>
        if json_truthy properties
        then jm_set "properties" (cleanSchemaProperties properties) params
        else params
    | None => params
    end in
  match jm_get "required" params with
  | Some (JArr _) => params
  | _ => jm_set "required" (JArr []) params
  end.

Definition sanitizeToolSchemaForGemini (tool : Tool) : Result Tool :=
  if negb (json_truthy (fn_parameters tool)) then
    Ok (with_parameters EMPTY_PARAMETERS tool)
  else
    match fn_parameters tool with
    | JObj params =>
        let params := prepare params in
        match jm_get "properties" params with
        | Some (JObj properties) =>
            match ensure_basic_types properties with
            | Ok properties' =>
                Ok (with_parameters
                      (JObj (jm_set "properties" (JObj properties') params)) tool)
            | Throw e => Throw e
            end
        | _ => Ok (with_parameters (JObj params) tool)
        end
    | JArr _ =>
        (* the assignments add properties to the array that its
           serialization does not show *)
        Ok tool
    | primitive =>
        Throw ("Cannot create property 'required' on "
               ++ primitive_name primitive)
    end.

(** [optimizeToolsForProvider] with the sanitizer above: the first tool
    that makes it throw ends the whole call. *)
Fixpoint sanitize_all (tools : list Tool) : Result (list Tool) :=
  match tools with
  | [] => Ok []
  | tool :: rest =>
      match sanitizeToolSchemaForGemini tool with
      | Throw e => Throw e
      | Ok sanitized =>
          match sanitize_all rest with
          | Throw e => Throw e
          | Ok rest' => Ok (sanitized :: rest')
          end
      end
  end.

Definition optimizeToolsForProvider (tools : option (list Tool))
    (modelName : string) : Result (option (list Tool)) :=
  match tools with
  | Some (tool :: rest) =>
      if negb (startsWith modelName "gemini-") then Ok tools
      else match sanitize_all (tool :: rest) with
           | Ok sanitizedTools => Ok (Some sanitizedTools)
           | Throw e => Throw e
           end
  | _ => Ok tools
  end.

End Gemini.

(** ** Further definitions used in the statements *)

(** Members that cleaning leaves as they are. *)
Definition fixed_members (l : list (string * Json)) : Prop :=
  Forall (fun e => Gemini.skipped e.1 = false /\ Gemini.clean_value e.2 = e.2) l.

(** The characters of a rendered number. *)
Definition is_digit (c : ascii) : bool :=
  let n := N_of_ascii c in (48 <=? n) && (n <=? 57).

(** Whether [key] names a member anywhere inside a value. *)
Fixpoint mentions_key (key : string) (j : Json) : bool :=
  match j with
  | JObj members =>
      (fix among (l : list (string * Json)) : bool :=
         match l with
         | [] => false
         | (k, value) :: l' =>
             String.eqb k key || mentions_key key value || among l'
         end) members
  | JArr items =>
      (fix among (l : list Json) : bool :=
         match l with
         | [] => false
         | value :: l' => mentions_key key value || among l'
         end) items
  | _ => false
  end.

(** An instance that answers protocol requests: initialized and not
    command-based. *)
Definition connected_over_http (i : MCPServerInstance) : bool :=
  initialized i && negb (bool_decide (type i = Command)).

(** The chunks and the events among the values that the generator yields. *)
Definition chunks_of (ys : list Yielded) : list Chunk :=
  flat_map (fun y => match y with YChunk c => [c] | YEvent _ => [] end) ys.

Definition events_of (ys : list Yielded) : list ToolExecutionEvent :=
  flat_map (fun y => match y with YEvent e => [e] | YChunk _ => [] end) ys.

(** How often the loop over the initial stream yields a chunk: once for
    its content, once for its tool-call deltas, once for its finish
    reason. *)
Definition copies (chunk : Chunk) : nat :=
  (if truthy (delta_content chunk) then 1 else 0)
  + (match delta_tool_calls chunk with Some _ => 1 | None => 0 end)
  + (if truthy (finish_reason chunk) then 1 else 0).

(** The progress notices among the values yielded: tool, position, total. *)
Definition progress_of (ys : list Yielded) : list (string * nat * nat) :=
  flat_map (fun y => match y with
                     | YEvent (tool_executing n position total) =>
                         [(n, position, total)]
                     | _ => []
                     end) ys.

(** A reply framed as a server-sent event, with or without the line that
    names the event. *)
Definition sse_message (named : bool) (payload : string) : string :=
  (if named then "event: message" ++ String newline "" else "")
  ++ data_marker ++ payload ++ String newline (String newline "").

(** Induction over decoded JSON values. *)
Fixpoint Json_induction (P : Json -> Prop)
    (Hnull : P JNull) (Hbool : forall b, P (JBool b))
    (Hnum : forall n, P (JNum n)) (Hstr : forall s, P (JStr s))
    (Harr : forall items, Forall P items -> P (JArr items))
    (Hobj : forall members, Forall (fun e => P e.2) members -> P (JObj members))
    (j : Json) {struct j} : P j :=
  match j with
  | JNull => Hnull
  | JBool b => Hbool b
  | JNum n => Hnum n
  | JStr s => Hstr s
  | JArr items =>
      Harr items
        ((fix all (l : list Json) : Forall P l :=
            match l with
            | [] => List.Forall_nil P
            | x :: l' =>
                @List.Forall_cons Json P x l'
                  (Json_induction P Hnull Hbool Hnum Hstr Harr Hobj x) (all l')
            end) items)
  | JObj members =>
      Hobj members
        ((fix all (l : list (string * Json)) : Forall (fun e => P e.2) l :=
            match l with
            | [] => List.Forall_nil _
            | e :: l' =>
                @List.Forall_cons (string * Json) (fun e => P e.2) e l'
                  (Json_induction P Hnull Hbool Hnum Hstr Harr Hobj e.2) (all l')
            end) members)
  end.

(** ** Basic facts *)

Lemma append_nil_r (s : string) : s ++ "" = s.
Proof.
  induction s as [|a s IH]; [done|].
  change (String a (s ++ "") = String a s). by rewrite IH.
Qed.

Lemma append_assoc (s t u : string) : (s ++ t) ++ u = s ++ (t ++ u).
Proof.
  induction s as [|a s IH]; [done|].
  change (String a ((s ++ t) ++ u) = String a (s ++ (t ++ u))). by rewrite IH.
Qed.

Lemma truthy_Some (s : string) : truthy (Some s) = true <-> s <> "".
Proof.
  unfold truthy. destruct (String.eqb_spec s ""); simpl; split; congruence.
Qed.

Lemma or_else_fragment (o : option string) (x : string) :
  (if truthy o then x ++ default "" o else x) = x ++ fragment o.
Proof.
  unfold fragment, or_else, truthy. destruct o as [s|]; simpl.
  - destruct (String.eqb_spec s ""); simpl; by rewrite ?append_nil_r.
  - by rewrite append_nil_r.
Qed.

Lemma fragment_Some (s : string) : fragment (Some s) = s.
Proof.
  unfold fragment, or_else. by destruct (String.eqb_spec s "") as [->|].
Qed.

Lemma or_else_nonempty (o : option string) (d : string) :
  d <> "" -> or_else o d <> "".
Proof.
  unfold or_else. destruct o as [s|]; [|done].
  by destruct (String.eqb_spec s "").
Qed.

Lemma fallback_id_nonempty (now i : N) : "call_" ++ show now ++ "_" ++ show i <> "".
Proof. discriminate. Qed.

Section JsMapFacts.
Context {K V : Type} `{EqDecision K}.
Implicit Types (m : list (K * V)).

Lemma jm_get_set_eq k v m : jm_get k (jm_set k v m) = Some v.
Proof.
  induction m as [|[k' v'] m IH]; simpl.
  - by rewrite decide_True.
  - destruct (decide (k = k')) as [->|Hne]; simpl.
    + by rewrite decide_True.
    + by rewrite decide_False.
Qed.

Lemma jm_get_set_ne k k' v m : k <> k' -> jm_get k' (jm_set k v m) = jm_get k' m.
Proof.
  intros Hne. induction m as [|[k0 v0] m IH]; simpl.
  - by rewrite decide_False.
  - destruct (decide (k = k0)) as [->|Hne0]; simpl.
    + by rewrite !(decide_False (P := k' = k0)).
    + destruct (decide (k' = k0)); [done|apply IH].
Qed.

Lemma jm_get_In k v m : jm_get k m = Some v -> In (k, v) m.
Proof.
  induction m as [|[k' v'] m IH]; simpl; [done|].
  destruct (decide (k = k')) as [->|]; [intros [= ->]; by left|].
  intros; right; auto.
Qed.

Lemma jm_get_NoDup k v m : NoDup m.*1 -> In (k, v) m -> jm_get k m = Some v.
Proof.
  induction m as [|[k' v'] m IH]; simpl; [done|].
  intros Hnd [Heq|Hin].
  - simplify_eq. by rewrite decide_True.
  - apply NoDup_cons in Hnd as [Hnotin Hnd].
    destruct (decide (k = k')) as [->|]; [|by apply IH].
    exfalso. apply Hnotin. apply list_elem_of_In.
    change k' with ((k', v).1). apply in_map, Hin.
Qed.

Lemma jm_set_Forall (P : K * V -> Prop) k v m :
  Forall P m -> P (k, v) -> Forall P (jm_set k v m).
Proof.
  intros Hall Hnew. induction Hall as [|[k' v'] m HP Hall IH]; simpl.
  - by constructor.
  - destruct (decide (k = k')); constructor; auto.
Qed.
End JsMapFacts.

(** ** Frame rules *)

Section Frames.
Context {S X : Type} (keep : S -> X).

Lemma preserves_ret {A} (a : A) : preserves keep (ret a).
Proof. by intros s. Qed.

Lemma preserves_throw {A} msg : preserves keep (throw (A := A) msg).
Proof. by intros s. Qed.

Lemma preserves_get : preserves keep get.
Proof. by intros s. Qed.

Lemma preserves_lift_result {A} (r : Result A) : preserves keep (lift_result r).
Proof. by intros s. Qed.

Lemma preserves_modify (f : S -> S) :
  (forall s, keep (f s) = keep s) -> preserves keep (modify f).
Proof. intros Hf s. apply Hf. Qed.

Lemma preserves_bind {A B} (m : M S A) (k : A -> M S B) :
  preserves keep m -> (forall a, preserves keep (k a)) ->
  preserves keep (bind m k).
Proof.
  intros Hm Hk s. unfold bind. specialize (Hm s).
  destruct (m s) as [[a|e] s']; simpl in *; [|done].
  by rewrite Hk.
Qed.

Lemma preserves_try_catch {A} (m : M S A) (h : string -> M S A) :
  preserves keep m -> (forall e, preserves keep (h e)) ->
  preserves keep (try_catch m h).
Proof.
  intros Hm Hh s. unfold try_catch. specialize (Hm s).
  destruct (m s) as [[a|e] s']; simpl in *; [done|].
  by rewrite Hh.
Qed.

Lemma preserves_try_finally {A} (m : M S A) (f : M S unit) :
  preserves keep m -> preserves keep f -> preserves keep (try_finally m f).
Proof.
  intros Hm Hf s. unfold try_finally. specialize (Hm s).
  destruct (m s) as [r s']; simpl in *. specialize (Hf s').
  destruct (f s') as [[[]|e] s'']; simpl in *; congruence.
Qed.
End Frames.

Section LocalFrames.
Context {L X : Type} (keep : World -> X).

Lemma preserves_lift_world {A} (m : M World A) :
  preserves keep m -> preserves (S := L * World) (keep ∘ snd) (lift_world m).
Proof.
  intros Hm [l w]. unfold lift_world. specialize (Hm w).
  by destruct (m w) as [r w'].
Qed.

Lemma preserves_get_local : preserves (S := L * World) (keep ∘ snd) get_local.
Proof. by intros [l w]. Qed.

Lemma preserves_set_local l : preserves (S := L * World) (keep ∘ snd) (set_local l).
Proof. by intros [l' w]. Qed.

Lemma preserves_lift_world_beside {A} (m : M World A) :
  preserves keep m ->
  preserves (S := L * World) (fun s => (s.1, keep s.2)) (lift_world m).
Proof.
  intros Hm [l w]. unfold lift_world. specialize (Hm w).
  destruct (m w) as [r w']. simpl in *. by rewrite Hm.
Qed.

Lemma preserves_get_local_beside :
  preserves (S := L * World) (fun s => (s.1, keep s.2)) get_local.
Proof. by intros [l w]. Qed.

Lemma preserves_with_local {A} (init : L) (m : M (L * World) A) :
  preserves (keep ∘ snd) m -> preserves keep (with_local init m).
Proof.
  intros Hm w. unfold with_local. specialize (Hm (init, w)).
  by destruct (m (init, w)) as [r [l w']].
Qed.
End LocalFrames.

Lemma preserves_yield {X} (keep : World -> X) y :
  preserves (keep ∘ snd) (yield y).
Proof. by intros [ys w]. Qed.

Lemma preserves_yield_event {X} (keep : World -> X) b e :
  preserves (keep ∘ snd) (yield_event b e).
Proof. destruct b; [apply preserves_yield|apply preserves_ret]. Qed.

Create HintDb frames.

(** Applies the frame rules through the text of a method. *)
Ltac frame_step :=
  first
    [ solve [auto with frames]
    | apply preserves_ret | apply preserves_throw | apply preserves_get
    | apply preserves_lift_result | apply preserves_get_local
    | apply preserves_set_local | apply preserves_yield
    | apply preserves_yield_event
    | apply preserves_lift_world
    | apply preserves_lift_world_beside
    | apply preserves_get_local_beside
    | apply preserves_with_local
    | apply preserves_try_catch; [|intros ?]
    | apply preserves_try_finally
    | apply preserves_bind; [|intros ?]
    | apply preserves_modify; intros ?; solve [auto]
    | progress cbv zeta ].

Ltac frame := repeat (frame_step || case_match).


(** ** Streaming reconstruction *)

Lemma apply_delta_existing now i e d :
  index d = i ->
  apply_tool_call_delta now [(i, e)] d = [(i, merge_delta e d)].
Proof.
  intros <-. unfold apply_tool_call_delta, merge_delta. simpl.
  rewrite !decide_True by done. simpl.
  by rewrite !or_else_fragment.
Qed.

Lemma reconstruct_same_index i e (timed : list (N * ToolCallDelta)) :
  Forall (fun d => index d = i) timed.*2 ->
  reconstruct_from [(i, e)] timed = [(i, foldl merge_delta e timed.*2)].
Proof.
  revert e. induction timed as [|[t d] timed IH]; intros e Hall; [done|].
  apply Forall_cons in Hall as [Hd Hall].
  unfold reconstruct_from in *. simpl.
  rewrite apply_delta_existing by done. by apply IH.
Qed.

Lemma last_id_truthy frags i : last_id frags = Some i -> i <> "".
Proof.
  revert i. induction frags as [|d frags IH]; intros i; simpl; [done|].
  destruct (last_id frags) as [j|] eqn:Hj.
  - intros [= <-]. by apply IH.
  - destruct (truthy (delta_id d)) eqn:Ht; [|done].
    intros Hd. rewrite Hd in Ht. by apply truthy_Some.
Qed.

Lemma or_else_Some_nonempty i d : i <> "" -> or_else (Some i) d = i.
Proof. intros Hi. unfold or_else. by destruct (String.eqb_spec i ""). Qed.

Lemma merged_fragments e frags :
  foldl merge_delta e frags =
    {| tc_id := or_else (last_id frags) (tc_id e);
       function_name := function_name e ++ joined_names frags;
       function_arguments := function_arguments e ++ joined_arguments frags |}.
Proof.
  revert e. induction frags as [|d frags IH]; intros e; simpl.
  - rewrite !append_nil_r. by destruct e.
  - rewrite IH. unfold merge_delta at 1 2 3. simpl. rewrite !append_assoc.
    f_equal. destruct (last_id frags) as [j|] eqn:Hj.
    + apply last_id_truthy in Hj. by rewrite !or_else_Some_nonempty.
    + simpl. destruct (delta_id d) as [s|]; simpl; [|done].
      destruct (String.eqb s "") eqn:Hs; simpl; by rewrite ?Hs.
Qed.

Lemma apply_delta_other now buffer d i :
  index d <> i ->
  jm_get i (apply_tool_call_delta now buffer d) = jm_get i buffer.
Proof.
  intros Hne. unfold apply_tool_call_delta.
  destruct (jm_get (index d) buffer); by rewrite jm_get_set_ne.
Qed.

Lemma apply_delta_same now b b' d :
  jm_get (index d) b = jm_get (index d) b' ->
  jm_get (index d) (apply_tool_call_delta now b d)
  = jm_get (index d) (apply_tool_call_delta now b' d).
Proof.
  intros Heq. unfold apply_tool_call_delta. rewrite <- Heq.
  destruct (jm_get (index d) b); by rewrite !jm_get_set_eq.
Qed.

(** The entry of index [i] only depends on the deltas of index [i]. *)
Lemma reconstruct_per_index i timed : forall b b',
  jm_get i b = jm_get i b' ->
  jm_get i (reconstruct_from b timed) = jm_get i (reconstruct_from b' (only i timed)).
Proof.
  induction timed as [|[t d] timed IH]; intros b b' Heq; [done|].
  unfold reconstruct_from in *. simpl.
  destruct (N.eqb_spec (index d) i) as [<-|Hne]; simpl.
  - apply IH. by apply apply_delta_same.
  - apply IH. by rewrite apply_delta_other.
Qed.

Lemma reconstruct_single i t d rest :
  Forall (fun f => index f = i) (d :: rest.*2) ->
  reconstruct ((t, d) :: rest)
  = [(i, {| tc_id := or_else (last_id (d :: rest.*2))
                       ("call_" ++ show t ++ "_" ++ show i);
            function_name := joined_names (d :: rest.*2);
            function_arguments := joined_arguments (d :: rest.*2) |})].
Proof.
  intros Hall. apply Forall_cons in Hall as [Hd Hall].
  unfold reconstruct, reconstruct_from. simpl.
  unfold apply_tool_call_delta at 2. simpl. rewrite Hd.
  fold (reconstruct_from
          [(i, {| tc_id := or_else (delta_id d)
                             ("call_" ++ show t ++ "_" ++ show i);
                  function_name := or_else (delta_name d) "";
                  function_arguments := or_else (delta_arguments d) "" |})]
          rest).
  rewrite reconstruct_same_index by done. rewrite merged_fragments. simpl.
  do 3 f_equal.
  destruct (last_id rest.*2) as [j|] eqn:Hj.
  - apply last_id_truthy in Hj. by rewrite !or_else_Some_nonempty.
  - simpl. destruct (delta_id d) as [s|]; simpl; [|done].
    destruct (String.eqb s "") eqn:Hs; simpl; by rewrite ?Hs.
Qed.

Lemma only_indexed i timed : Forall (fun f => index f = i) (only i timed).*2.
Proof.
  induction timed as [|[t d] timed IH]; simpl; [constructor|].
  destruct (N.eqb_spec (index d) i); simpl; [by constructor|done].
Qed.

(** [C5] Chunking invariance of the reconstruction buffer.  Take any delta
    stream and a tool call of index [i] in it whose fragments are
    [(t, d) :: rest] ([t] being the arrival time of the first one), with
    [fname] and [args] the concatenations of their name and arguments
    fragments and [id] the last non-empty id that any of them carries.
    Whatever the split into fragments, and whatever deltas of other
    indices are interleaved, the buffer entry of [i] is the tool call
    [{id or fallback, fname, args}], the same as when one delta delivers
    [id], [fname] and [args] whole; and when the stream carries this call
    only, the buffers and the finalized lists of both deliveries are
    equal. *)
Theorem chunking_invariant (stream : list (N * ToolCallDelta)) (i t : N)
    (d : ToolCallDelta) (rest : list (N * ToolCallDelta))
    (id : option string) (fname args : string) :
  only i stream = (t, d) :: rest ->
  last_id (d :: rest.*2) = id ->
  joined_names (d :: rest.*2) = fname ->
  joined_arguments (d :: rest.*2) = args ->
  let whole := {| index := i; delta_id := id; delta_name := Some fname;
                  delta_arguments := Some args |} in
  let call := {| tc_id := or_else id ("call_" ++ show t ++ "_" ++ show i);
                 function_name := fname; function_arguments := args |} in
  jm_get i (reconstruct stream) = Some call
  /\ jm_get i (reconstruct [(t, whole)]) = Some call
  /\ (stream = (t, d) :: rest ->
      reconstruct stream = reconstruct [(t, whole)]
      /\ finalize (reconstruct stream) = finalize (reconstruct [(t, whole)])).
Proof.
  intros Honly Hid Hname Hargs whole call.
  assert (Forall (fun f => index f = i) (d :: rest.*2)) as Hall.
  { change (d :: rest.*2) with (((t, d) :: rest).*2). rewrite <- Honly.
    apply only_indexed. }
  assert (reconstruct ((t, d) :: rest) = [(i, call)]) as Hchunked.
  { rewrite (reconstruct_single i) by done. unfold call.
    by rewrite Hid, Hname, Hargs. }
  assert (reconstruct [(t, whole)] = [(i, call)]) as Hwhole.
  { unfold reconstruct, reconstruct_from, whole, call, apply_tool_call_delta.
    simpl.
    by destruct (String.eqb_spec fname "") as [->|],
               (String.eqb_spec args "") as [->|]. }
  split; [|split].
  - unfold reconstruct. rewrite (reconstruct_per_index i stream [] []) by done.
    rewrite Honly. fold (reconstruct ((t, d) :: rest)). rewrite Hchunked.
    simpl. by rewrite decide_True.
  - rewrite Hwhole. simpl. by rewrite decide_True.
  - intros ->. by rewrite Hchunked, Hwhole.
Qed.

(** A call delivered in three fragments, interleaved with the single delta
    of another call. *)
Lemma chunking_invariant_witness :
  let d1 := {| index := 0; delta_id := Some "call_9"; delta_name := Some "get_";
               delta_arguments := Some "{city:" |} in
  let d2 := {| index := 0; delta_id := None; delta_name := Some "weath";
               delta_arguments := Some "Par" |} in
  let d3 := {| index := 0; delta_id := None; delta_name := Some "er";
               delta_arguments := Some "is}" |} in
  let other := {| index := 1; delta_id := None; delta_name := Some "now";
                  delta_arguments := Some "{}" |} in
  let call := {| tc_id := "call_9"; function_name := "get_weather";
                 function_arguments := "{city:Paris}" |} in
  jm_get 0 (reconstruct [(5, d1); (6, d2); (6, other); (7, d3)]) = Some call
  /\ finalize (reconstruct [(5, d1); (6, d2); (6, other); (7, d3)])
     = [call; {| tc_id := "call_6_1"; function_name := "now";
                 function_arguments := "{}" |}].
Proof.
  intros d1 d2 d3 other call.
  destruct (chunking_invariant [(5, d1); (6, d2); (6, other); (7, d3)] 0 5 d1
              [(6, d2); (7, d3)] (Some "call_9") "get_weather" "{city:Paris}")
    as (Hentry & _ & _).
  - reflexivity.
  - reflexivity.
  - reflexivity.
  - reflexivity.
  - split; [exact Hentry|]. vm_compute. reflexivity.
Defined.

Lemma set_clock_same w : set_clock (clock w) w = w.
Proof. by destruct w. Qed.

Lemma consume_chunk_spec fb acc chunk ys w :
  exists ys', consume_chunk fb acc chunk (ys, w)
              = (Ok (absorb (clock w) acc chunk), (ys', w)).
Proof.
  unfold consume_chunk, absorb, bind, yield_event, yield, lift_world, Date_now, ret.
  destruct acc as [text buffer has]; simpl.
  destruct (truthy (delta_content chunk)), (delta_tool_calls chunk) as [deltas|],
    (truthy (finish_reason chunk)), fb; simpl;
    try destruct (length buffer =? 0)%nat; simpl; eauto.
Qed.

Lemma drain_spec fb cs : forall acc ys w,
  exists ys', drain fb cs acc (ys, w)
              = (Ok (accumulate cs acc),
                 (ys', set_clock (last_time cs (clock w)) w)).
Proof.
  induction cs as [|[t chunk] cs IH]; intros acc ys w; simpl.
  - exists ys. by rewrite set_clock_same.
  - unfold bind at 1. simpl.
    destruct (consume_chunk_spec fb acc chunk ys (set_clock t w))
      as [ys1 Hchunk].
    unfold bind at 1. rewrite Hchunk.
    destruct (IH (absorb t acc chunk) ys1 (set_clock t w)) as [ys2 Hrest].
    exists ys2. exact Hrest.
Qed.

Lemma reconstruct_from_app buffer l1 l2 :
  reconstruct_from buffer (l1 ++ l2)%list
  = reconstruct_from (reconstruct_from buffer l1) l2.
Proof. apply foldl_app. Qed.

Lemma reconstruct_from_chunk t buffer deltas :
  reconstruct_from buffer (List.map (pair t) deltas)
  = foldl (apply_tool_call_delta t) buffer deltas.
Proof.
  revert buffer. induction deltas as [|d deltas IH]; intros buffer; [done|].
  simpl. apply IH.
Qed.

(** The buffer that the generator holds when the initial stream ends is the
    one reconstructed from the stream's deltas in arrival order. *)
Lemma accumulate_buffer cs : forall acc,
  toolCallsBuffer_of (accumulate cs acc)
  = reconstruct_from (toolCallsBuffer_of acc) (timed_deltas cs).
Proof.
  induction cs as [|[t chunk] cs IH]; intros acc; [done|].
  simpl. rewrite IH, reconstruct_from_app. f_equal.
  unfold absorb. simpl. destruct (delta_tool_calls chunk) as [deltas|]; simpl.
  - by rewrite reconstruct_from_chunk.
  - done.
Qed.

Lemma jm_get_Forall {K V} `{EqDecision K} (P : K * V -> Prop) k v
    (m : list (K * V)) :
  Forall P m -> jm_get k m = Some v -> P (k, v).
Proof.
  intros Hall Hget. apply jm_get_In in Hget.
  rewrite Forall_forall in Hall. apply Hall. by apply list_elem_of_In.
Qed.

Lemma apply_delta_ids now buffer d :
  ids_present buffer -> ids_present (apply_tool_call_delta now buffer d).
Proof.
  intros Hall. unfold apply_tool_call_delta.
  destruct (jm_get (index d) buffer) as [existing|] eqn:Hget.
  - apply jm_set_Forall; [done|]. simpl.
    destruct (truthy (delta_id d)) eqn:Ht.
    + destruct (delta_id d) as [s|]; [|done]. by apply truthy_Some.
    + apply (jm_get_Forall _ _ _ _ Hall Hget).
  - apply jm_set_Forall; [done|]. simpl.
    apply or_else_nonempty, fallback_id_nonempty.
Qed.

Lemma reconstruct_from_ids timed : forall buffer,
  ids_present buffer -> ids_present (reconstruct_from buffer timed).
Proof.
  induction timed as [|[t d] timed IH]; intros buffer Hall; [done|].
  apply IH. by apply apply_delta_ids.
Qed.

Lemma valid_tool_call_spec tc :
  valid_tool_call tc = true <-> tc_id tc <> "" /\ function_name tc <> "".
Proof.
  unfold valid_tool_call.
  rewrite negb_true_iff, orb_false_iff, !negb_false_iff, !truthy_Some. done.
Qed.

(** [C10] Every entry of the reconstruction buffer has a non-empty id when
    the initial stream ends: a delta that creates an entry without carrying
    an id stores the fallback [call_<timestamp>_<index>], and later deltas
    only overwrite the id with a non-empty one.  Hence the completeness
    filter keeps exactly the entries whose function name is non-empty: an
    entry is only ever excluded because its name is empty. *)
Theorem buffered_ids_present fb cs ys w :
  exists ys' w',
    drain fb cs nothing_accumulated (ys, w)
    = (Ok (accumulate cs nothing_accumulated), (ys', w'))
    /\ let buffer := toolCallsBuffer_of (accumulate cs nothing_accumulated) in
       Forall (fun e => tc_id e.2 <> "") buffer
       /\ finalize buffer
          = List.filter (fun tc => negb (String.eqb (function_name tc) ""))
                        (jm_values buffer)
       /\ (forall tc, In tc (jm_values buffer) -> ~ In tc (finalize buffer) ->
             function_name tc = "")
       /\ (forall t d b,
             jm_get (index d) b = None -> truthy (delta_id d) = false ->
             jm_get (index d) (apply_tool_call_delta t b d)
             = Some {| tc_id := "call_" ++ show t ++ "_" ++ show (index d);
                       function_name := fragment (delta_name d);
                       function_arguments := fragment (delta_arguments d) |}).
Proof.
  destruct (drain_spec fb cs nothing_accumulated ys w) as [ys' Hdrain].
  exists ys', (set_clock (last_time cs (clock w)) w). split; [done|].
  intros buffer.
  assert (ids_present buffer) as Hids.
  { unfold buffer. rewrite accumulate_buffer.
    apply reconstruct_from_ids. constructor. }
  assert (forall tc, In tc (jm_values buffer) ->
            valid_tool_call tc = negb (String.eqb (function_name tc) ""))
    as Hvalid.
  { intros tc Hin. unfold jm_values in Hin. apply in_map_iff in Hin as [[i tc'] [<- Hin]].
    unfold ids_present in Hids. rewrite Forall_forall in Hids.
    specialize (Hids (i, tc') (proj2 (list_elem_of_In _ _) Hin)). simpl in *.
    unfold valid_tool_call. simpl.
    destruct (String.eqb_spec (tc_id tc') ""); [done|].
    by destruct (String.eqb (function_name tc') ""). }
  split; [done|]. split; [|split].
  - unfold finalize. induction (jm_values buffer) as [|tc l IH]; [done|].
    simpl. rewrite Hvalid by (by left).
    rewrite IH; [done|]. intros tc' Hin. apply Hvalid. by right.
  - intros tc Hin Hout.
    destruct (String.eqb_spec (function_name tc) "") as [|Hname]; [done|].
    exfalso. apply Hout. unfold finalize. apply filter_In. split; [done|].
    rewrite Hvalid by done. by destruct (String.eqb_spec (function_name tc) "").
  - intros t d b Hnone Hid. unfold apply_tool_call_delta. rewrite Hnone.
    rewrite jm_get_set_eq. do 2 f_equal.
    unfold or_else. unfold truthy in Hid.
    destruct (delta_id d) as [s|]; [|done].
    by destruct (String.eqb s "").
Qed.

(** ** Status derivation *)

Lemma getServerStatus_spec w serverName instance :
  jm_get serverName (mcpServerInstances w) = Some instance ->
  exists st,
    _getServerStatus serverName w = (Ok st, w)
    /\ st_status st = derived_status instance
    /\ st_lastError st = lastError instance
    /\ st_uptime st
       = (if truthyN (startTime instance)
          then Some (Z.of_N (clock w)
                     - Z.of_N (default 0%N (startTime instance)))%Z
          else None).
Proof.
  intros Hget. unfold _getServerStatus, bind, get, Date_now, ret. simpl.
  rewrite Hget. simpl. eexists. split; [reflexivity|]. done.
Qed.

(** [C9, amended] The status reported for a registered instance is
    [connected] if it is initialized, else [error] if a (non-empty) last
    error is recorded, else [disconnected]; the uptime [now - startTime] is
    reported whenever the instance has a (non-zero) start timestamp,
    whether or not it is initialized. *)
Theorem status_derivation w serverName instance :
  jm_get serverName (mcpServerInstances w) = Some instance ->
  exists st,
    _getServerStatus serverName w = (Ok st, w)
    /\ st_status st = (if initialized instance then Connected
                       else if truthy (lastError instance) then Error
                       else Disconnected)
    /\ st_lastError st = lastError instance
    /\ st_uptime st
       = (if truthyN (startTime instance)
          then Some (Z.of_N (clock w)
                     - Z.of_N (default 0%N (startTime instance)))%Z
          else None).
Proof. apply getServerStatus_spec. Qed.

(** [C9, counterexample] A command server whose launch failed at time 100
    never initialized, yet at time 250 its status carries the uptime 150. *)
Lemma uptime_reported_without_initialization :
  let w := (and_then (_initializeMCPServer demo_env "fs") (modify (set_clock 250))
              (constructed [("fs", command_definition "missing")] 100)).2 in
  exists i st,
    jm_get "fs" (mcpServerInstances w) = Some i
    /\ initialized i = false
    /\ (_getServerStatus "fs" w).1 = Ok st
    /\ st_status st = Error
    /\ st_lastError st = Some "spawn missing ENOENT"
    /\ st_uptime st = Some 150%Z.
Proof. vm_compute. do 2 eexists. repeat split; reflexivity. Qed.

Lemma status_derivation_witness :
  let w := (_initializeMCPServer demo_env "fs"
              (constructed [("fs", http_definition "http://fs")] 100)).2 in
  exists i st,
    jm_get "fs" (mcpServerInstances w) = Some i
    /\ _getServerStatus "fs" w = (Ok st, w)
    /\ st_status st = Connected
    /\ st_uptime st = Some 0%Z.
Proof.
  intros w.
  assert (exists i, jm_get "fs" (mcpServerInstances w) = Some i
                    /\ initialized i = true /\ startTime i = Some 100)
    as (i & Hget & Hinit & Hstart).
  { vm_compute. eexists. repeat split; reflexivity. }
  destruct (status_derivation w "fs" i Hget) as (st & Hrun & Hst & _ & Hup).
  exists i, st. rewrite Hinit in Hst. rewrite Hstart in Hup.
  repeat split; [done..|]. rewrite Hup. reflexivity.
Defined.


(** ** What each method leaves untouched *)

Section MethodFrames.
Context (env : Environment) {X : Type} (keep : World -> X).

Lemma do_fetch_preserves r : ignores_requests keep -> preserves keep (do_fetch env r).
Proof. intros H w. apply H. Qed.

Lemma mcpRequest_preserves serverName method params session custom :
  ignores_requests keep ->
  preserves keep (_mcpRequest env serverName method params session custom).
Proof.
  intros H. unfold _mcpRequest.
  pose proof do_fetch_preserves. frame.
Qed.

Lemma kill_preserves h : ignores_processes keep -> preserves keep (kill h).
Proof. intros H w. apply H. Qed.

Lemma ignores_instances_one n : ignores_instances keep -> ignores_instance keep n.
Proof. intros H i w. apply H. Qed.

Lemma set_instance_preserves n i :
  ignores_instance keep n -> preserves keep (set_instance n i).
Proof. intros H w. apply H. Qed.

Lemma Date_now_preserves : preserves keep Date_now.
Proof. by intros w. Qed.

Lemma initializeCommandServer_preserves :
  ignores_processes keep -> ignores_clock keep ->
  preserves (keep ∘ snd) (_initializeCommandServer env).
Proof.
  intros Hp Hc [i w]. unfold _initializeCommandServer. simpl.
  destruct (spawn env _ _ _); simpl; by rewrite ?Hc, Hp.
Qed.

Lemma initializeHttpServer_preserves :
  ignores_requests keep -> preserves (keep ∘ snd) (_initializeHttpServer env).
Proof.
  intros H. unfold _initializeHttpServer.
  pose proof mcpRequest_preserves. frame.
Qed.

Lemma start_sequence_preserves t :
  ignores_requests keep -> ignores_processes keep -> ignores_clock keep ->
  preserves (keep ∘ snd) (start_sequence env t).
Proof.
  intros. unfold start_sequence.
  destruct (decide (t = Command));
    auto using initializeCommandServer_preserves, initializeHttpServer_preserves.
Qed.

Lemma initializeMCPServer_preserves serverName :
  ignores_requests keep -> ignores_processes keep -> ignores_clock keep ->
  ignores_instance keep serverName ->
  preserves keep (_initializeMCPServer env serverName).
Proof.
  intros. unfold _initializeMCPServer.
  pose proof start_sequence_preserves. pose proof set_instance_preserves.
  pose proof Date_now_preserves. frame.
Qed.

Lemma restartMCPServer_preserves serverName :
  ignores_requests keep -> ignores_processes keep -> ignores_clock keep ->
  ignores_instance keep serverName ->
  preserves keep (restartMCPServer env serverName).
Proof.
  intros. unfold restartMCPServer.
  pose proof initializeMCPServer_preserves. pose proof set_instance_preserves.
  pose proof Date_now_preserves. pose proof kill_preserves. frame.
Qed.

End MethodFrames.

(** ** The tool-catalog cache *)

Lemma restart_keeps_cache env serverName w :
  let w' := (restartMCPServer env serverName w).2 in
  mcpToolsCache w' = mcpToolsCache w /\ mcpLastCacheTime w' = mcpLastCacheTime w.
Proof.
  pose proof (restartMCPServer_preserves env
                (fun w => (mcpToolsCache w, mcpLastCacheTime w)) serverName) as H.
  unfold preserves in H. simpl.
  specialize (H ltac:(done) ltac:(done) ltac:(done) ltac:(done) w).
  by simplify_eq.
Qed.

(** [C3, amended] The cached catalog is returned, with the world unchanged
    (so no server is contacted), exactly when a cache has been captured and
    its age [now - capturedAt] is below 30000 ms; otherwise [getMCPTools]
    answers [[]] (disabled, or no instance) or rebuilds the catalog and
    stores it with the capture time [now].  Reaching the TTL is the only
    invalidation: [restartMCPServer] changes neither the cached list nor
    its capture time, so a [getMCPTools] issued within the TTL after a
    restart returns the list captured before it. *)
Theorem cache_policy env w :
  (forall cached,
     mcpToolsCache w = Some cached ->
     (Z.of_N (clock w) - Z.of_N (mcpLastCacheTime w) < 30000)%Z ->
     getMCPTools env w = (Ok cached, w))
  /\ (cache_valid w = false ->
      getMCPTools env w
      = if negb (mcpEnabled w) || (length (mcpServerInstances w) =? 0)%nat
        then (Ok [], w)
        else match _getMCPToolsInternal env w with
             | (Ok allTools, w') =>
                 (Ok allTools, set_cache (Some allTools) (clock w) w')
             | (Throw e, w') => (Throw e, w')
             end)
  /\ (forall serverName,
        let w' := (restartMCPServer env serverName w).2 in
        mcpToolsCache w' = mcpToolsCache w
        /\ mcpLastCacheTime w' = mcpLastCacheTime w)
  /\ (forall serverName cached now,
        mcpToolsCache w = Some cached ->
        (Z.of_N now - Z.of_N (mcpLastCacheTime w) < 30000)%Z ->
        let w' := set_clock now (restartMCPServer env serverName w).2 in
        getMCPTools env w' = (Ok cached, w')).
Proof.
  assert (forall w0 cached,
            mcpToolsCache w0 = Some cached ->
            (Z.of_N (clock w0) - Z.of_N (mcpLastCacheTime w0) < 30000)%Z ->
            getMCPTools env w0 = (Ok cached, w0)) as Hhit.
  { intros w0 cached Hc Hage.
    unfold getMCPTools, ensureMCPInitialized, bind, ret, get, Date_now. simpl.
    rewrite Hc. unfold CACHE_DURATION.
    by rewrite (proj2 (Z.ltb_lt _ _) Hage). }
  split; [apply Hhit|]. split; [|split].
  - unfold cache_valid. intros Hinvalid.
    unfold getMCPTools, ensureMCPInitialized, bind, ret, get, Date_now, modify.
    simpl. destruct (mcpToolsCache w) as [cached|]; rewrite ?Hinvalid;
      destruct (negb (mcpEnabled w) || (length (mcpServerInstances w) =? 0)%nat);
      try done; by destruct (_getMCPToolsInternal env w) as [[allTools|e] w'].
  - intros serverName. apply restart_keeps_cache.
  - intros serverName cached now Hc Hage w'.
    destruct (restart_keeps_cache env serverName w) as [Hc' Ht'].
    apply Hhit; unfold w'; simpl; congruence.
Qed.

Lemma cache_policy_witness :
  let w := set_clock 20000
             (getMCPTools demo_env
                (set_clock 1000
                   (initializeMCP demo_env
                      (constructed [("fs", http_definition "http://fs")] 0)).2)).2 in
  exists cached,
    mcpToolsCache w = Some cached
    /\ List.map fn_name cached = ["read_file"]
    /\ getMCPTools demo_env w = (Ok cached, w).
Proof.
  intros w.
  assert (exists cached, mcpToolsCache w = Some cached
                         /\ List.map fn_name cached = ["read_file"]
                         /\ mcpLastCacheTime w = 1000 /\ clock w = 20000)
    as (cached & Hc & Hnames & Ht & Hnow).
  { vm_compute. eexists. repeat split; reflexivity. }
  exists cached. split; [done|]. split; [done|].
  apply (proj1 (cache_policy demo_env w) cached Hc).
  rewrite Ht, Hnow. reflexivity.
Defined.

(** [C3, counterexample] The catalog captured at time 1000 is still returned
    at time 3000, without any request being sent, although the server was
    restarted at time 2000. *)
Lemma cache_survives_restart :
  let w1 := (getMCPTools demo_env
               (set_clock 1000
                  (initializeMCP demo_env
                     (constructed [("fs", http_definition "http://fs")] 0)).2)).2 in
  let w2 := set_clock 3000 (restartMCPServer demo_env "fs" (set_clock 2000 w1)).2 in
  exists cached,
    mcpToolsCache w1 = Some cached
    /\ mcpLastCacheTime w1 = 1000
    /\ getMCPTools demo_env w2 = (Ok cached, w2)
    /\ (exists i, jm_get "fs" (mcpServerInstances w2) = Some i
                  /\ startTime i = Some 2000).
Proof. vm_compute. eexists. repeat split. eexists. split; reflexivity. Qed.

(** ** The protocol exchange and the start sequences, as functions *)

Lemma mcpRequest_spec env serverName method params session custom w :
  _mcpRequest env serverName method params session custom w
  = match (match custom with
           | Some i => Some i
           | None => jm_get serverName (mcpServerInstances w)
           end) with
    | None => (Throw ("MCP server not found: " ++ serverName), w)
    | Some i =>
        (exchange env serverName i method params session,
         if decide (type i = Command) then w
         else set_requests
                (requests w ++ [build_request i method params session])%list w)
    end.
Proof.
  unfold _mcpRequest, exchange, bind, get, throw, do_fetch, lift_result, ret.
  simpl.
  destruct (match custom with
            | Some i => Some i
            | None => jm_get serverName (mcpServerInstances w)
            end) as [i|]; [|done].
  destruct (decide (type i = Command)); [done|].
  destruct (fetch env _) as [response|e]; [|done].
  destruct (ok response); simpl; [|done].
  destruct (find_data_line (text response)) as [line|]; simpl; [|done].
  destruct (String.eqb line ""); simpl; [done|].
  destruct (JSON_parse_payload env line) as [data|e]; [|done].
  by destruct (error data).
Qed.



Lemma initializeHttpServer_spec env i registered w :
  jm_get (name i) (mcpServerInstances w) = Some registered ->
  (_initializeHttpServer env (i, w)).1 = (handshake env registered i).1
  /\ (_initializeHttpServer env (i, w)).2.1 = (handshake env registered i).2.
Proof.
  intros Hget.
  unfold _initializeHttpServer, handshake, bind, get_local, try_catch,
    lift_world, set_local, throw, ret.
  rewrite mcpRequest_spec, Hget.
  destruct (exchange env (name i) registered "initialize" ParamsInitialize None)
    as [[data response]|e]; simpl; [|done].
  destruct (has_result data); simpl; [|done].
  by destruct (_mcpRequest env (name i) "notifications/initialized" ParamsEmpty
                 (session_header response) None _) as [[?|?] ?].
Qed.

Lemma initializeCommandServer_spec env i w :
  (_initializeCommandServer env (i, w)).1 = (launch env i (next_handle w)).1
  /\ (_initializeCommandServer env (i, w)).2.1 = (launch env i (next_handle w)).2.
Proof.
  unfold _initializeCommandServer, launch. simpl.
  by destruct (spawn env _ _ _).
Qed.

Lemma start_sequence_spec env i w :
  jm_get (name i) (mcpServerInstances w) = Some i ->
  (start_sequence env (type i) (i, w)).1 = (started env i (next_handle w)).1
  /\ (start_sequence env (type i) (i, w)).2.1 = (started env i (next_handle w)).2.
Proof.
  intros Hget. unfold start_sequence, started.
  destruct (decide (type i = Command)).
  - apply initializeCommandServer_spec.
  - by apply initializeHttpServer_spec.
Qed.

(** A start attempt of a well-formed definition always returns, and leaves
    the settled instance in the registry under the server's own name. *)
Lemma initializeMCPServer_spec env serverName c t w :
  jm_get serverName (mcpServersConfig w) = Some c ->
  _getServerType (processServerConfig env c) = Ok t ->
  (_initializeMCPServer env serverName w).1 = Ok tt
  /\ jm_get serverName (mcpServerInstances (_initializeMCPServer env serverName w).2)
     = Some (settled (started env
                        (new_instance serverName (processServerConfig env c) t
                                      (clock w))
                        (next_handle w))).
Proof.
  intros Hcfg Htype.
  set (fresh := new_instance serverName (processServerConfig env c) t (clock w)).
  set (w1 := set_mcpServerInstances (jm_set serverName fresh (mcpServerInstances w)) w).
  assert (jm_get (name fresh) (mcpServerInstances w1) = Some fresh) as Hreg.
  { simpl. apply jm_get_set_eq. }
  destruct (start_sequence_spec env fresh w1 Hreg) as [Hr Hcell].
  pose proof (start_sequence_preserves env mcpServerInstances (type fresh)
                ltac:(done) ltac:(done) ltac:(done) (fresh, w1)) as Hframe.
  unfold _initializeMCPServer, bind, get, lift_result, Date_now, set_instance,
    modify, with_local. simpl.
  rewrite Hcfg, Htype. simpl. fold fresh. fold w1.
  change t with (type fresh) at 1 2.
  destruct (start_sequence env (type fresh) (fresh, w1)) as [r [cell w2]].
  simpl in *. subst r cell. unfold settled.
  destruct ((started env fresh (next_handle w)).1); simpl;
    (split; [done|apply jm_get_set_eq]).
Qed.

Lemma initializeMCPServer_others env serverName other w :
  serverName <> other ->
  jm_get other (mcpServerInstances (_initializeMCPServer env serverName w).2)
  = jm_get other (mcpServerInstances w).
Proof.
  intros Hne.
  apply (initializeMCPServer_preserves env
           (fun w => jm_get other (mcpServerInstances w)) serverName);
    try done.
  intros i w0. simpl. by apply jm_get_set_ne.
Qed.

Lemma initializeMCPServer_config env serverName w :
  mcpServersConfig (_initializeMCPServer env serverName w).2 = mcpServersConfig w.
Proof.
  by apply (initializeMCPServer_preserves env mcpServersConfig serverName).
Qed.

(** The verdict does not depend on when the attempt ran nor on the handle
    that the subprocess received. *)
Lemma verdict_independent env serverName pc t now h :
  let i := settled (started env (new_instance serverName pc t now) h) in
  (initialized i, lastError i) = start_verdict env serverName pc t.
Proof.
  unfold start_verdict, settled, started, launch, handshake, exchange. simpl.
  destruct (decide (t = Command)); simpl.
  - by destruct (spawn env _ _ _).
  - unfold build_request. simpl.
    destruct (fetch env _) as [response|e]; [|done].
    destruct (ok response); simpl; [|done].
    destruct (find_data_line (text response)) as [line|]; simpl; [|done].
    destruct (String.eqb line ""); simpl; [done|].
    destruct (JSON_parse_payload env line) as [data|e]; [|done].
    destruct (error data); [done|]. by destruct (has_result data).
Qed.

(** ** Failing exchanges *)




(** ** Batch initialization *)

Section CatalogFrames.
Context (env : Environment) {X : Type} (keep : World -> X).

Lemma register_tools_preserves serverName ts :
  ignores_toolToServerMap keep -> preserves keep (register_tools serverName ts).
Proof. intros H w. apply H. Qed.

Lemma collect_global_tools_preserves entries :
  ignores_requests keep -> ignores_toolToServerMap keep ->
  preserves keep (collect_global_tools env entries).
Proof.
  intros Hr Ht. induction entries as [|[serverName instance] entries IH]; simpl.
  - apply preserves_ret.
  - pose proof (mcpRequest_preserves env keep).
    pose proof register_tools_preserves. frame.
Qed.

Lemma getMCPToolsInternal_preserves :
  ignores_requests keep -> ignores_toolToServerMap keep ->
  preserves keep (_getMCPToolsInternal env).
Proof.
  intros Hr Ht. unfold _getMCPToolsInternal.
  pose proof collect_global_tools_preserves. frame.
Qed.

End CatalogFrames.

Lemma allSettled_cons (m : M World unit) ms w :
  allSettled (m :: ms) w = allSettled ms (m w).2.
Proof.
  simpl. unfold bind, try_catch, ret. by destruct (m w) as [[[]|e] w1].
Qed.

Lemma allSettled_spec env names : forall w,
  NoDup names ->
  (allSettled (List.map (_initializeMCPServer env) names) w).1 = Ok tt
  /\ mcpServersConfig (allSettled (List.map (_initializeMCPServer env) names) w).2
     = mcpServersConfig w
  /\ (forall n, n ∉ names ->
        jm_get n (mcpServerInstances
                    (allSettled (List.map (_initializeMCPServer env) names) w).2)
        = jm_get n (mcpServerInstances w))
  /\ (forall n c t,
        n ∈ names ->
        jm_get n (mcpServersConfig w) = Some c ->
        _getServerType (processServerConfig env c) = Ok t ->
        exists now h,
          jm_get n (mcpServerInstances
                      (allSettled (List.map (_initializeMCPServer env) names) w).2)
          = Some (settled (started env
                             (new_instance n (processServerConfig env c) t now) h))).
Proof.
  induction names as [|n0 names IH]; intros w Hnd.
  - simpl. split; [done|]. split; [done|]. split; [done|].
    intros n c t Hin. by apply elem_of_nil in Hin.
  - apply NoDup_cons in Hnd as [Hfresh Hnd].
    change (List.map (_initializeMCPServer env) (n0 :: names))
      with (_initializeMCPServer env n0 :: List.map (_initializeMCPServer env) names).
    rewrite allSettled_cons.
    pose proof (initializeMCPServer_config env n0 w) as Hcfg.
    pose proof (fun other => initializeMCPServer_others env n0 other w) as Hothers.
    pose proof (fun c t => initializeMCPServer_spec env n0 c t w) as Hown.
    destruct (_initializeMCPServer env n0 w) as [r w1]. simpl in *.
    destruct (IH w1 Hnd) as (Hok & Hcfg' & Hout & Hin).
    split; [done|]. split; [congruence|]. split.
    + intros n Hn. apply not_elem_of_cons in Hn as [Hne Hn].
      rewrite Hout by done. apply Hothers. congruence.
    + intros n c t Hn Hc Ht. apply elem_of_cons in Hn as [->|Hn].
      * destruct (Hown c t Hc Ht) as [_ Hentry].
        exists (clock w), (next_handle w). by rewrite Hout.
      * apply Hin; [done| |done]. by rewrite Hcfg.
Qed.

Lemma initializeMCP_returns env w : (initializeMCP env w).1 = Ok tt.
Proof.
  unfold initializeMCP, bind at 1, get.
  destruct (negb (mcpEnabled w) || (length (mcpServersConfig w) =? 0)%nat);
    [done|].
  unfold try_catch at 1.
  by destruct (bind _ _ w) as [[[]|e] w'].
Qed.

Lemma initializeMCP_instances env w :
  mcpEnabled w = true -> mcpServersConfig w <> [] ->
  mcpServerInstances (initializeMCP env w).2
  = mcpServerInstances
      (allSettled (List.map (_initializeMCPServer env) (jm_keys (mcpServersConfig w)))
                  (set_mcpClient true w)).2.
Proof.
  intros Hen Hcfg.
  assert ((length (mcpServersConfig w) =? 0)%nat = false) as Hlen.
  { by destruct (mcpServersConfig w). }
  unfold initializeMCP, bind at 1, get. rewrite Hen, Hlen. simpl.
  unfold try_catch at 1, bind at 1, modify. simpl. unfold bind at 1.
  destruct (allSettled _ (set_mcpClient true w)) as [[[]|e0] w1]; simpl; [|done].
  unfold bind at 1.
  destruct (0 <? length _)%nat; [|done].
  pose proof (getMCPToolsInternal_preserves env mcpServerInstances
                ltac:(done) ltac:(done) w1) as Hframe.
  unfold try_catch, bind.
  by destruct (_getMCPToolsInternal env w1) as [[ts|e0] w2].
Qed.

(** [C7, amended] Batch initialization never fails, whatever the servers'
    definitions and start outcomes.  Every configured server with a
    well-formed definition ends with its own instance in the registry;
    whether that instance is initialized and what error it records are
    determined by the server's own definition alone ([start_verdict]), not
    by the other servers of the batch; and a failure raised by its start
    sequence (subprocess launch or HTTP handshake) is recorded as
    [lastError] on that instance, which stays uninitialized. *)
Theorem batch_initialization_isolated env w serverName c t :
  mcpEnabled w = true ->
  NoDup (jm_keys (mcpServersConfig w)) ->
  In (serverName, c) (mcpServersConfig w) ->
  _getServerType (processServerConfig env c) = Ok t ->
  (forall w0, exists w0', initializeMCP env w0 = (Ok tt, w0'))
  /\ exists i,
       jm_get serverName (mcpServerInstances (initializeMCP env w).2) = Some i
       /\ (initialized i, lastError i)
          = start_verdict env serverName (processServerConfig env c) t
       /\ (forall now h message,
             (started env (new_instance serverName (processServerConfig env c)
                                        t now) h).1 = Throw message ->
             lastError i = Some message /\ initialized i = false).
Proof.
  intros Hen Hnd Hin Htype. split.
  - intros w0. pose proof (initializeMCP_returns env w0) as Hret.
    destruct (initializeMCP env w0) as [r w0']. simpl in Hret. subst r. eauto.
  - rewrite initializeMCP_instances; [|done|by intros Hnil; rewrite Hnil in Hin].
    destruct (allSettled_spec env (jm_keys (mcpServersConfig w))
                (set_mcpClient true w) Hnd) as (_ & _ & _ & Hentry).
    destruct (Hentry serverName c t) as (now0 & h0 & Hget).
    { apply list_elem_of_In. unfold jm_keys.
      change serverName with ((serverName, c).1). by apply in_map. }
    { simpl. by apply jm_get_NoDup. }
    { done. }
    eexists. split; [exact Hget|]. split.
    + apply verdict_independent.
    + intros now h message Hthrow.
      pose proof (verdict_independent env serverName (processServerConfig env c)
                    t now0 h0) as H0.
      pose proof (verdict_independent env serverName (processServerConfig env c)
                    t now h) as H1.
      simpl in H0, H1. rewrite <- H1 in H0.
      unfold settled in H0 at 3 4. rewrite Hthrow in H0. simpl in H0.
      assert (initialized (started env (new_instance serverName
                                          (processServerConfig env c) t now) h).2
              = false) as Huninit.
      { revert Hthrow. unfold started, launch, handshake.
        destruct (decide _); simpl.
        - by destruct (spawn env _ _ _).
        - destruct (exchange env _ _ _ _ _) as [[data response]|e]; [|done].
          by destruct (has_result data). }
      rewrite Huninit in H0. by simplify_eq.
Qed.

Lemma batch_initialization_isolated_witness :
  let w := constructed [("broken", command_definition "missing");
                        ("fs", http_definition "http://fs")] 0 in
  exists i, jm_get "fs" (mcpServerInstances (initializeMCP demo_env w).2) = Some i
            /\ initialized i = true /\ lastError i = None.
Proof.
  intros w.
  destruct (batch_initialization_isolated demo_env w "fs"
              (http_definition "http://fs") StreamableHttp)
    as [_ (i & Hget & Hverdict & _)].
  - reflexivity.
  - apply NoDup_ListNoDup. repeat constructor; simpl; intuition discriminate.
  - right. left. reflexivity.
  - reflexivity.
  - exists i. split; [exact Hget|]. vm_compute in Hverdict. by simplify_eq.
Defined.

(** [C7, counterexample] A server whose definition has neither a command
    nor a url/type: its start attempt throws, batch initialization absorbs
    the error, and no instance of the server exists afterwards, so the
    failure is recorded nowhere. *)
Lemma configuration_error_not_recorded :
  let w := constructed [("bad", no_definition);
                        ("fs", http_definition "http://fs")] 0 in
  (_initializeMCPServer demo_env "bad" w).1
  = Throw "Invalid server configuration: must specify either command or url/type"
  /\ (initializeMCP demo_env w).1 = Ok tt
  /\ jm_get "bad" (mcpServerInstances (initializeMCP demo_env w).2) = None
  /\ List.map (fun e => (e.1, initialized e.2, lastError e.2))
              (mcpServerInstances (initializeMCP demo_env w).2)
     = [("fs", true, None)].
Proof. vm_compute. repeat split. Qed.

(** ** The tool phase *)

Section ToolFrames.
Context (env : Environment) {X : Type} (keep : World -> X).
Context (Hrequests : ignores_requests keep).

Lemma callToolOnServer_preserves serverName toolName args :
  preserves keep (_callToolOnServer env serverName toolName args).
Proof.
  unfold _callToolOnServer. pose proof (mcpRequest_preserves env keep). frame.
Qed.

Lemma callToolByName_preserves toolName args :
  preserves keep (_callToolByName env toolName args).
Proof.
  unfold _callToolByName. pose proof callToolOnServer_preserves. frame.
Qed.

Lemma call_on_per_request_preserves toolName args servers :
  preserves keep (call_on_per_request env toolName args servers).
Proof.
  induction servers as [|[serverName instance] servers IH]; simpl.
  - apply preserves_ret.
  - pose proof (mcpRequest_preserves env keep). frame.
Qed.

Lemma callToolWithServers_preserves toolName args servers :
  preserves keep (_callToolWithServers env toolName args servers).
Proof.
  unfold _callToolWithServers.
  pose proof call_on_per_request_preserves.
  pose proof callToolByName_preserves. frame.
Qed.

Lemma route_tool_call_preserves toolCall args servers :
  preserves keep (route_tool_call env toolCall args servers).
Proof.
  unfold route_tool_call. pose proof callToolWithServers_preserves. frame.
Qed.

Lemma process_each_preserves toolCalls servers :
  preserves keep (process_each env toolCalls servers).
Proof.
  induction toolCalls as [|toolCall toolCalls IH]; simpl.
  - apply preserves_ret.
  - pose proof route_tool_call_preserves. frame.
Qed.

Lemma execute_streamed_preserves fb servers total position toolCall :
  preserves (keep ∘ snd)
            (execute_streamed env fb servers total position toolCall).
Proof.
  unfold execute_streamed. pose proof route_tool_call_preserves. frame.
Qed.

Lemma execute_all_preserves fb servers total toolCalls : forall position,
  preserves (keep ∘ snd) (execute_all env fb servers total position toolCalls).
Proof.
  induction toolCalls as [|toolCall toolCalls IH]; intros position; simpl.
  - apply preserves_ret.
  - pose proof execute_streamed_preserves. frame.
Qed.

End ToolFrames.

Lemma drain_preserves {X} (keep : World -> X) fb cs :
  ignores_clock keep -> forall acc, preserves (keep ∘ snd) (drain fb cs acc).
Proof.
  intros Hc acc [ys w].
  destruct (drain_spec fb cs acc ys w) as [ys' ->]. simpl. apply Hc.
Qed.

Lemma forward_spec cs : forall ys w,
  exists ys', forward cs (ys, w)
              = (Ok tt, (ys', set_clock (last_time cs (clock w)) w)).
Proof.
  induction cs as [|[t chunk] cs IH]; intros ys w; simpl.
  - exists ys. by rewrite set_clock_same.
  - unfold bind at 1. simpl. unfold bind at 1. simpl.
    destruct (IH (ys ++ [YChunk chunk])%list (set_clock t w)) as [ys' Hrest].
    exists ys'. exact Hrest.
Qed.

Lemma forward_preserves {X} (keep : World -> X) cs :
  ignores_clock keep -> preserves (keep ∘ snd) (forward cs).
Proof.
  intros Hc. induction cs as [|[t chunk] cs IH]; simpl.
  - apply preserves_ret.
  - apply preserves_bind; [|intros ?].
    + apply preserves_lift_world, preserves_modify. intros w. apply Hc.
    + frame.
Qed.

(** Whatever happens while a tool call is routed, exactly one result
    message is produced, and it answers that call. *)
Lemma route_tool_call_id env toolCall args servers w r :
  (route_tool_call env toolCall args servers w).1 = Ok r ->
  tool_call_id r.1 = tc_id toolCall.
Proof.
  unfold route_tool_call, bind, get, ret. simpl.
  destruct (toolToServerMap w !! function_name toolCall); [|by intros [= <-]].
  destruct (mcpEnabled w && mcpClient w && _); [|by intros [= <-]].
  destruct (_callToolWithServers env _ _ _ w) as [[res|e] w']; simpl;
    [by intros [= <-]|done].
Qed.


Lemma yield_event_run b e ys w :
  yield_event b e (ys, w)
  = (Ok tt, (if b then (ys ++ [YEvent e])%list else ys, w)).
Proof. by destruct b. Qed.

Lemma execute_streamed_spec env fb servers total position toolCall ys w :
  exists pushed,
    (execute_streamed env fb servers total position toolCall (ys, w)).1 = Ok pushed
    /\ tool_call_id pushed = tc_id toolCall.
Proof.
  unfold execute_streamed, bind at 1. rewrite yield_event_run.
  unfold try_catch.
  destruct (if String.eqb (trim (function_arguments toolCall)) ""
            then Throw "Empty arguments"
            else JSON_parse env (function_arguments toolCall)) as [args|e].
  - unfold bind at 1, lift_world.
    pose proof (route_tool_call_id env toolCall args servers w) as Hroute.
    destruct (route_tool_call env toolCall args servers w) as [[r|e] w2];
      simpl in *.
    + unfold bind, ret. rewrite yield_event_run.
      eexists. split; [reflexivity|]. by apply Hroute.
    + unfold bind, ret. rewrite yield_event_run.
      eexists. split; [reflexivity|]. done.
  - unfold bind, ret. rewrite yield_event_run.
    eexists. split; [reflexivity|]. done.
Qed.

Lemma execute_all_spec env fb servers total toolCalls : forall position ys w,
  exists toolResults,
    (execute_all env fb servers total position toolCalls (ys, w)).1 = Ok toolResults
    /\ List.map tool_call_id toolResults = List.map tc_id toolCalls.
Proof.
  induction toolCalls as [|toolCall toolCalls IH]; intros position ys w; simpl.
  - by exists [].
  - unfold bind at 1.
    destruct (execute_streamed_spec env fb servers total position toolCall ys w)
      as (pushed & Hpushed & Hid).
    destruct (execute_streamed env fb servers total position toolCall (ys, w))
      as [r [ys1 w1]]. simpl in Hpushed. subst r.
    destruct (IH (S position) ys1 w1) as (more & Hmore & Hids).
    unfold bind.
    destruct (execute_all env fb servers total (S position) toolCalls (ys1, w1))
      as [r s2]. simpl in Hmore. subst r. simpl. exists (pushed :: more).
    split; [done|]. simpl. by rewrite Hid, Hids.
Qed.

(** ** The streaming turn *)

Lemma consume_chunk_yields fb acc chunk ys w :
  Forall passthrough ys ->
  Forall passthrough (consume_chunk fb acc chunk (ys, w)).2.1.
Proof.
  intros Hys.
  unfold consume_chunk, bind, yield_event, yield, lift_world, Date_now, ret.
  destruct acc as [body buffer has]; simpl.
  destruct (truthy (delta_content chunk)), (delta_tool_calls chunk) as [deltas|],
    (truthy (finish_reason chunk)), fb; simpl;
    try destruct (length buffer =? 0)%nat; simpl;
    repeat (apply Forall_app; split); try done; by repeat constructor.
Qed.

Lemma drain_yields fb cs : forall acc ys w,
  Forall passthrough ys -> Forall passthrough (drain fb cs acc (ys, w)).2.1.
Proof.
  induction cs as [|[t chunk] cs IH]; intros acc ys w Hys; [done|].
  simpl. unfold bind at 1. simpl. unfold bind at 1.
  pose proof (consume_chunk_yields fb acc chunk ys (set_clock t w) Hys) as Hstep.
  destruct (consume_chunk_spec fb acc chunk ys (set_clock t w)) as [ys1 Hrun].
  rewrite Hrun in *. simpl in Hstep. by apply IH.
Qed.

Lemma no_tool_calls_no_buffer cs : forall acc,
  hasToolCalls (accumulate cs acc) = false ->
  toolCallsBuffer_of (accumulate cs acc) = toolCallsBuffer_of acc.
Proof.
  induction cs as [|[t chunk] cs IH]; intros acc Hnone; [done|].
  simpl in *.
  assert (hasToolCalls (absorb t acc chunk) = false) as Hstep.
  { clear IH. revert Hnone. generalize (absorb t acc chunk).
    induction cs as [|[t' chunk'] cs IH]; intros a; simpl; [done|].
    intros H. apply IH in H. revert H. unfold absorb. simpl.
    by destruct (delta_tool_calls chunk'). }
  rewrite IH by done. revert Hstep. unfold absorb. simpl.
  by destruct (delta_tool_calls chunk).
Qed.

(** The streaming turn, by what the initial stream carries. *)
Lemma streaming_turn env options servers fb w initial :
  stream options = true ->
  chat_completions_stream env options = Ok initial ->
  stream_error initial = None ->
  let acc := accumulate (chunks initial) nothing_accumulated in
  let toolCalls := finalize (toolCallsBuffer_of acc) in
  let run := _createStreamingWithTools env options servers fb ([], w) in
  (toolCalls = [] ->
     run.1 = Ok tt
     /\ completions run.2.2 = (completions w ++ [options])%list
     /\ requests run.2.2 = requests w
     /\ Forall passthrough run.2.1)
  /\ (toolCalls <> [] ->
        exists toolResults,
          List.map tool_call_id toolResults = List.map tc_id toolCalls
          /\ let followUp :=
               follow_up options
                 (Assistant (Some (assistant_content acc)) (Some toolCalls))
                 toolResults in
             match counted fb toolResults with
             | Throw message =>
                 run.1 = Throw message
                 /\ completions run.2.2 = (completions w ++ [options])%list
             | Ok _ =>
                 completions run.2.2
                 = (completions w ++ [options; followUp])%list
                 /\ run.1 = match chat_completions_stream env followUp with
                            | Ok s => match stream_error s with
                                      | Some e => Throw e
                                      | None => Ok tt
                                      end
                            | Throw e => Throw e
                            end
             end).
Proof.
  intros Hstream Hinitial Hend acc toolCalls run.
  set (w0 := set_completions (completions w ++ [options])%list w).
  destruct (drain_spec fb (chunks initial) nothing_accumulated [] w0)
    as [ys1 Hdrain].
  pose proof (drain_yields fb (chunks initial) nothing_accumulated [] w0
                ltac:(constructor)) as Hys1.
  rewrite Hdrain in Hys1. simpl in Hys1.
  set (w1 := set_clock (last_time (chunks initial) (clock w0)) w0) in *.
  assert (run = (if negb (hasToolCalls acc) then ret tt
                          else if (length toolCalls =? 0)%nat then ret tt
                          else
                            yield_event fb
                              (tool_execution_start
                                 (List.map function_name toolCalls)
                                 (length toolCalls)) ;;
                            toolResults <- execute_all env fb servers
                                             (length toolCalls) 0 toolCalls ;;
                            if (length toolResults =? 0)%nat then ret tt
                            else
                              (if fb then
                                 successful <-
                                   lift_result (count_successful toolResults) ;;
                                 yield (YEvent (tools_completed
                                                  (length toolCalls) successful))
                               else ret tt) ;;
                              yield_event fb final_response_start ;;
                              followUpStream <-
                                lift_world
                                  (createChatCompletion env
                                     (follow_up options
                                        (Assistant (Some (assistant_content acc))
                                                   (Some toolCalls))
                                        toolResults)) ;;
                              match followUpStream with
                              | CompletionResponse _ =>
                                  throw "followUpStream is not async iterable"
                              | CompletionStream followUp =>
                                  forward (chunks followUp) ;;
                                  end_of_stream followUp
                              end) (ys1, w1)) as Hrun.
  { unfold run, _createStreamingWithTools, bind at 1, lift_world,
      createChatCompletion. rewrite Hstream, Hinitial. fold w0.
    unfold bind at 1. unfold nothing_accumulated in Hdrain. rewrite Hdrain.
    fold nothing_accumulated. fold acc.
    unfold end_of_stream at 1. rewrite Hend. unfold bind at 1, ret at 1.
    reflexivity. }
  clearbody run. split.
  - intros Hnone. rewrite Hrun. rewrite Hnone. simpl.
    destruct (negb (hasToolCalls acc)); simpl; done.
  - intros Hsome.
    assert (hasToolCalls acc = true) as Hhas.
    { destruct (hasToolCalls acc) eqn:Hhas; [done|]. exfalso. apply Hsome.
      unfold toolCalls, acc. by rewrite no_tool_calls_no_buffer. }
    assert ((length toolCalls =? 0)%nat = false) as Hlen.
    { by destruct toolCalls. }
    rewrite Hhas, Hlen in Hrun. change (negb true) with false in Hrun.
    cbv beta iota in Hrun.
    unfold bind at 1 in Hrun. rewrite yield_event_run in Hrun.
    set (ys2 := if fb then _ else ys1) in Hrun.
    destruct (execute_all_spec env fb servers (length toolCalls) toolCalls
                0%nat ys2 w1) as (toolResults & Hexec & Hids).
    pose proof (execute_all_preserves env completions ltac:(done) fb servers
                  (length toolCalls) toolCalls 0%nat (ys2, w1)) as Hframe.
    unfold bind at 1 in Hrun.
    destruct (execute_all env fb servers (length toolCalls) 0 toolCalls (ys2, w1))
      as [r [ys3 w3]]. simpl in Hexec, Hframe. subst r.
    exists toolResults. split; [done|].
    assert ((length toolResults =? 0)%nat = false) as Hlen'.
    { assert (length toolResults = length toolCalls) as ->; [|done].
      by rewrite <- (length_map tool_call_id), Hids, length_map. }
    rewrite Hlen' in Hrun. unfold bind at 1 in Hrun.
    intros followUp. fold followUp in Hrun.
    assert (exists ys4,
              forall k : M (list Yielded * World) unit,
                match (if fb then
                         successful <-
                           lift_result (count_successful toolResults) ;;
                         yield (YEvent (tools_completed
                                          (length toolCalls) successful))
                       else ret tt) (ys3, w3) with
                | (Ok _, s') => k s'
                | (Throw e, s') => (Throw e, s')
                end
                = match counted fb toolResults with
                  | Ok _ => k (ys4, w3)
                  | Throw e => (Throw e, (ys3, w3))
                  end) as [ys4 Hcount].
    { unfold counted. destruct fb; [|by exists ys3].
      unfold bind, lift_result, yield.
      destruct (count_successful toolResults) as [n|e]; by eexists. }
    rewrite Hcount in Hrun. clear Hcount.
    destruct (counted fb toolResults) as [n|message].
    2: { rewrite Hrun. simpl. split; [done|]. rewrite Hframe. done. }
    unfold bind at 1 in Hrun. rewrite yield_event_run in Hrun.
    set (ys5 := if fb then _ else _) in Hrun.
    unfold bind at 1, lift_world, createChatCompletion in Hrun.
    assert (stream followUp = true) as Hfs by done. rewrite Hfs in Hrun.
    set (w4 := set_completions (completions w3 ++ [followUp])%list w3) in Hrun.
    assert (completions w4 = (completions w ++ [options; followUp])%list) as Hlog.
    { unfold w4. simpl. rewrite Hframe. simpl. by rewrite <- app_assoc. }
    destruct (chat_completions_stream env followUp) as [s|e].
    + destruct (forward_spec (chunks s) ys5 w4) as [ys6 Hforward].
      unfold bind at 1 in Hrun. rewrite Hforward in Hrun.
      unfold end_of_stream in Hrun. rewrite Hrun.
      destruct (stream_error s); simpl; (split; [exact Hlog|done]).
    + rewrite Hrun. simpl. done.
Qed.

(** ** One follow-up call *)


(** ** The completeness filter *)

(** [C4] Once the initial stream has ended, the finalized list consists of
    exactly the buffered entries that have a non-empty id and a non-empty
    function name, in buffer order.  If that list is empty (every entry was
    discarded, or there was none) the generator ends there: it has only
    passed chunks through, no tool was contacted and the initial backend
    call is the only one.  Otherwise the tool results answer exactly the
    finalized calls, so a discarded entry never appears among them; they
    are the result messages of the follow-up request, which is made unless
    the count of the successful tools, made with execution feedback,
    throws at a result whose content is not a string. *)
Theorem incomplete_calls_discarded env options servers fb w initial :
  stream options = true ->
  chat_completions_stream env options = Ok initial ->
  stream_error initial = None ->
  let acc := accumulate (chunks initial) nothing_accumulated in
  let buffer := toolCallsBuffer_of acc in
  let toolCalls := finalize buffer in
  let run := _createStreamingWithTools env options servers fb ([], w) in
  buffer = reconstruct (timed_deltas (chunks initial))
  /\ (forall tc, In tc toolCalls <->
                 In tc (jm_values buffer)
                 /\ tc_id tc <> "" /\ function_name tc <> "")
  /\ (toolCalls = [] ->
        run.1 = Ok tt
        /\ completions run.2.2 = (completions w ++ [options])%list
        /\ requests run.2.2 = requests w
        /\ Forall passthrough run.2.1)
  /\ (toolCalls <> [] ->
        exists toolResults,
          List.map tool_call_id toolResults = List.map tc_id toolCalls
          /\ match counted fb toolResults with
             | Ok _ =>
                 exists followUp,
                   completions run.2.2
                   = (completions w ++ [options; followUp])%list
                   /\ messages followUp
                      = (messages options
                         ++ [Assistant (Some (assistant_content acc))
                                       (Some toolCalls)]
                         ++ List.map ToolResult toolResults)%list
             | Throw message =>
                 run.1 = Throw message
                 /\ completions run.2.2 = (completions w ++ [options])%list
             end).
Proof.
  intros Hstream Hinitial Hend acc buffer toolCalls run.
  destruct (streaming_turn env options servers fb w initial Hstream Hinitial Hend)
    as [Hnone Hsome].
  split; [apply accumulate_buffer|]. split; [|split].
  - intros tc. unfold toolCalls, finalize. rewrite filter_In.
    by rewrite valid_tool_call_spec.
  - exact Hnone.
  - intros Hne. destruct (Hsome Hne) as (toolResults & Hids & Hrest).
    exists toolResults. split; [done|].
    destruct (counted fb toolResults); [|done].
    destruct Hrest as [Hlog _]. eexists. split; [exact Hlog|reflexivity].
Qed.

Lemma incomplete_calls_discarded_witness :
  let options := demo_enhanced "ask:read_file" true in
  let run := _createStreamingWithTools nameless_env options [] false
               ([], fs_connected) in
  run.1 = Ok tt
  /\ completions run.2.2 = [options]
  /\ requests run.2.2 = requests fs_connected.
Proof.
  intros options run.
  destruct (incomplete_calls_discarded nameless_env options [] false fs_connected
              {| chunks :=
                   [(10, text_chunk "Let me check.");
                    (11, tool_chunk {| index := 0; delta_id := Some "call_1";
                                       delta_name := None;
                                       delta_arguments := Some "{}" |})];
                 stream_error := None |})
    as (_ & _ & Hnone & _).
  - reflexivity.
  - reflexivity.
  - reflexivity.
  - destruct Hnone as (Hok & Hlog & Hreq & _); [reflexivity|].
    split; [exact Hok|]. split; [exact Hlog|exact Hreq].
Defined.


(** [C6, failing input] The server at [http://mute] answers the call of
    [ping] with neither result nor error, so the content extracted from
    the result is [undefined].  The non-streaming turn and the streaming
    turn without execution feedback make the follow-up call with that
    result message.  The streaming turn with execution feedback executes
    the tool and then throws a [TypeError] while it counts the successful
    tools: the follow-up call is never made and the initial call remains
    the only one. *)
Theorem follow_up_lost_with_feedback :
  let request streaming feedback :=
    {| model := "ask:ping"; messages := [Plain "user" "hello"]; tools := None;
       tool_choice := None; stream := streaming; mcpServers := None;
       toolExecutionFeedback := feedback |} in
  let undefined_result :=
    {| tool_call_id := "call_1"; content := ContentUndefined |} in
  (* how the generator ended, the events it yielded, and the tool results
     in the requests of the backend calls made *)
  let drained feedback :=
    match createWithMCPTools demo_env (request true feedback) mute_connected with
    | (Ok (Generator g), w) =>
        match run_generator g w with
        | (Ok (ended, ys), w') =>
            Some (ended, events_of ys,
                  List.map tool_results_of (completions w'))
        | _ => None
        end
    | _ => None
    end in
  let returned :=
    match createWithMCPTools demo_env (request false true) mute_connected with
    | (Ok (Returned (CompletionResponse r)), w) =>
        Some (message_content r, _mcpToolResults r,
              List.map tool_results_of (completions w))
    | _ => None
    end in
  returned = Some (Some "answer", Some [undefined_result],
                   [[]; [undefined_result]])
  /\ drained false = Some (Ok tt, [], [[]; [undefined_result]])
  /\ drained true
     = Some (Throw "Cannot read properties of undefined (reading 'startsWith')",
             [tool_call_detected; tool_execution_start ["ping"] 1;
              tool_executing "ping" 1 1; tool_completed "ping"],
             [[]]).
Proof. vm_compute. repeat split. Qed.

(** ** Routing of tool calls *)

(** A tool name that the global routing table does not hold is answered
    with the notice, whatever the per-request servers offer: they are not
    consulted. *)
Lemma route_outside_global_table env toolCall args servers w :
  toolToServerMap w !! function_name toolCall = None ->
  route_tool_call env toolCall args servers w
  = (Ok ({| tool_call_id := tc_id toolCall;
            content := "Tool " ++ function_name toolCall
                       ++ " requires external execution" |}, false), w).
Proof.
  intros Hnone. unfold route_tool_call, bind, get, ret. simpl. by rewrite Hnone.
Qed.

(** A per-request server that is initialized and lists the tool answers
    the call before any other server is tried, whatever the global routing
    table holds. *)
Lemma per_request_server_tried_first env toolName args serverName instance
    rest w listed called :
  initialized instance = true ->
  type instance <> Command ->
  exchange env serverName instance "tools/list" ParamsEmpty (sessionId instance)
  = Ok listed ->
  existsb (fun t => String.eqb (mt_name t) toolName) (tools_of listed.1) = true ->
  exchange env serverName instance "tools/call" (ParamsToolCall toolName args)
           (sessionId instance) = Ok called ->
  (_callToolWithServers env toolName args ((serverName, instance) :: rest) w).1
  = Ok (result called.1).
Proof.
  intros Hinit Htype Hlist Hhas Hcall.
  unfold _callToolWithServers, bind at 1. simpl call_on_per_request.
  rewrite Hinit. simpl negb. cbv iota.
  unfold bind at 1, try_catch.
  destruct (decide (type instance = Command)) as [|_]; [done|].
  unfold bind at 1. rewrite mcpRequest_spec, Hlist. simpl.
  destruct (decide (type instance = Command)) as [|_]; [done|].
  rewrite Hhas. unfold bind at 1.
  rewrite mcpRequest_spec, Hcall. simpl.
  by destruct (decide (type instance = Command)).
Qed.

(** When no per-request server is initialized the call goes to the server
    that the global routing table names. *)
Lemma global_table_consulted env toolName args servers w :
  Forall (fun e => initialized e.2 = false) servers ->
  _callToolWithServers env toolName args servers w
  = _callToolByName env toolName args w.
Proof.
  intros Hall. unfold _callToolWithServers, bind at 1.
  assert (call_on_per_request env toolName args servers w = (Ok None, w)) as ->.
  { induction Hall as [|[n i] servers Hi _ IH]; [done|].
    simpl in *. rewrite Hi. simpl. unfold bind at 1, ret at 1. exact IH. }
  done.
Qed.

(** [C1, failing input] The server at [http://extra] offers [lookup], which
    no global server offers.  Through [_callToolWithServers] the
    per-request instance does answer the call; but [_processToolCalls] and
    the streaming generator, given that instance, answer [Tool lookup
    requires external execution] without sending any request, because they
    first look the name up in the global routing table.  A whole turn whose
    request defines that server ends the same way, its per-request HTTP
    instance moreover never being initialized: the handshake resolves the
    temporary name in the global registry. *)
Theorem per_request_only_tool_not_executed :
  let servers := [("temp_extra_5", extra_instance)] in
  let notice := {| tool_call_id := "call_1";
                   content := "Tool lookup requires external execution" |} in
  toolToServerMap fs_connected !! "lookup" = None
  /\ (_callToolWithServers demo_env "lookup" (JObj []) servers fs_connected).1
     = Ok (Some {| res_tools := None; res_value := JStr "contents" |})
  /\ (process_each demo_env [demo_call "lookup"] servers fs_connected).1
     = Ok [notice]
  /\ requests (process_each demo_env [demo_call "lookup"] servers fs_connected).2
     = requests fs_connected
  /\ (let run := _createStreamingWithTools demo_env
                   (demo_enhanced "ask:lookup" true) servers false
                   ([], fs_connected) in
      List.map tool_results_of (completions run.2.2) = [[]; [notice]]
      /\ requests run.2.2 = requests fs_connected)
  /\ (let turn := createWithMCPTools demo_env
                    (demo_options "ask:lookup" false
                       (Some [("extra", http_definition "http://extra")]))
                    fs_connected in
      List.map tool_results_of (completions turn.2) = [[]; [notice]]
      /\ List.filter (fun r => String.eqb (fr_method r) "tools/call")
                     (requests turn.2) = []).
Proof. vm_compute. repeat split. Qed.

(** ** Teardown of per-request servers *)

(** *** Temporary names do not collide *)

Lemma mentions_app c a b : mentions c (a ++ b) = mentions c a || mentions c b.
Proof.
  induction a as [|x a IH]; [done|].
  change (mentions c (String x (a ++ b))
          = (Ascii.eqb x c || mentions c a) || mentions c b).
  simpl. by rewrite IH, orb_assoc.
Qed.

Lemma split_at_last c a b a' b' :
  mentions c b = false -> mentions c b' = false ->
  a ++ String c b = a' ++ String c b' -> a = a'.
Proof.
  intros Hb Hb'. revert a'.
  induction a as [|x a IH]; intros [|x' a'] Heq; [done| | |].
  - change (String c b = String x' (a' ++ String c b')) in Heq.
    injection Heq as <- ->. rewrite mentions_app in Hb. simpl in Hb.
    rewrite Ascii.eqb_refl in Hb. simpl in Hb. by rewrite orb_true_r in Hb.
  - change (String x (a ++ String c b) = String c b') in Heq.
    injection Heq as -> <-. rewrite mentions_app in Hb'. simpl in Hb'.
    rewrite Ascii.eqb_refl in Hb'. simpl in Hb'. by rewrite orb_true_r in Hb'.
  - change (String x (a ++ String c b) = String x' (a' ++ String c b')) in Heq.
    injection Heq as -> Heq. f_equal. by apply IH.
Qed.

Lemma digit_not_underscore d : Ascii.eqb (pretty_N_char d) "_" = false.
Proof. unfold pretty_N_char. by repeat case_match. Qed.

Lemma pretty_N_go_no_underscore x : forall s,
  mentions "_" s = false -> mentions "_" (pretty_N_go x s) = false.
Proof.
  induction (N.lt_wf_0 x) as [x _ IH]. intros s Hs.
  destruct (decide (0 < x)%N) as [Hpos|Hzero].
  - rewrite pretty_N_go_step by done. apply IH.
    + by apply N.div_lt.
    + simpl. by rewrite digit_not_underscore.
  - assert (x = 0%N) as -> by lia. by rewrite pretty_N_go_0.
Qed.

Lemma show_no_underscore n : mentions "_" (show n) = false.
Proof.
  unfold show, pretty, pretty_N. destruct (decide (n = 0%N)); [done|].
  by apply pretty_N_go_no_underscore.
Qed.

Lemma temp_name_inj n1 t1 n2 t2 :
  "temp_" ++ n1 ++ "_" ++ show t1 = "temp_" ++ n2 ++ "_" ++ show t2 -> n1 = n2.
Proof.
  intros Heq. apply (inj (String.append "temp_")) in Heq.
  apply (split_at_last "_" n1 (show t1) n2 (show t2));
    auto using show_no_underscore.
Qed.

(** *** Teardown when the definitions are well formed *)

#[local] Set Warnings "-clear-no-such-hyp".

Lemma jm_set_fresh {K V} `{EqDecision K} (k : K) (v : V) (m : list (K * V)) :
  k ∉ m.*1 -> jm_set k v m = (m ++ [(k, v)])%list.
Proof.
  induction m as [|[k' v'] m IH]; simpl; [done|].
  intros Hfresh. apply not_elem_of_cons in Hfresh as [Hne Hfresh].
  rewrite decide_False by done. by rewrite IH.
Qed.

Lemma handles_snoc servers k i :
  handles (servers ++ [(k, i)])%list
  = handles servers ∪ match subprocess_of i with
                      | Some h => {[h]}
                      | None => ∅
                      end.
Proof.
  unfold handles. rewrite omap_app, list_to_set_app_L. simpl.
  destruct (subprocess_of i); simpl; set_solver.
Qed.

Lemma cleanup_spec servers : forall w,
  (_cleanupPerRequestServers servers w).1 = Ok tt
  /\ running (_cleanupPerRequestServers servers w).2 = running w ∖ handles servers.
Proof.
  induction servers as [|[k i] servers IH]; intros w; simpl.
  - split; [done|]. unfold handles. simpl. set_solver.
  - unfold bind. unfold handles, subprocess_of in *. simpl.
    destruct (if decide (type i = Command) then process i else None) as [h|];
      simpl.
    + destruct (IH (set_processes (next_handle w) (running w ∖ {[h]}) w))
        as [Hok Hrun].
      split; [done|]. rewrite Hrun. simpl. set_solver.
    + destruct (IH w) as [Hok Hrun]. split; [done|]. rewrite Hrun. set_solver.
Qed.

(** A start sequence adds at most the subprocess of its own instance. *)
Lemma start_sequence_running env i w :
  let s := (start_sequence env (type i) (i, w)).2 in
  type s.1 = type i
  /\ forall h, h ∈ running s.2 -> h ∈ running w \/ subprocess_of s.1 = Some h.
Proof.
  unfold start_sequence. destruct (decide (type i = Command)) as [Hcmd|Hhttp].
  - unfold _initializeCommandServer, subprocess_of.
    destruct (spawn env _ _ _); simpl; rewrite decide_True by done;
      (split; [done|]); intros h; set_solver.
  - pose proof (initializeHttpServer_preserves env running ltac:(done) (i, w))
      as Hframe.
    simpl in *. split.
    + unfold _initializeHttpServer, bind, get_local, try_catch, lift_world,
        set_local, throw, ret.
      destruct (_mcpRequest env (name i) "initialize" ParamsInitialize None None w)
        as [[[data response]|e] w1]; simpl; [|done].
      destruct (has_result data); simpl; [|done].
      by destruct (_mcpRequest env (name i) "notifications/initialized" ParamsEmpty
                     (session_header response) None w1) as [[?|?] ?].
    + intros h Hh. left. by rewrite <- Hframe.
Qed.

Lemma start_per_request_step env n c t rest acc w :
  _getServerType (processServerConfig env c) = Ok t ->
  let fresh := new_instance ("temp_" ++ n ++ "_" ++ show (clock w))
                            (processServerConfig env c) t (clock w) in
  let s := start_sequence env t (fresh, w) in
  start_per_request env ((n, c) :: rest) acc w
  = start_per_request env rest
      (jm_set ("temp_" ++ n ++ "_" ++ show (clock w))
              match s.1 with
              | Ok _ => s.2.1
              | Throw message => with_lastError (Some message) s.2.1
              end acc)
      s.2.2.
Proof.
  intros Htype fresh s. simpl.
  unfold bind at 1, Date_now. unfold bind at 1. rewrite Htype. simpl.
  unfold bind at 1. unfold bind at 1, with_local. fold fresh. fold s.
  by destruct s as [r [cell w2]].
Qed.

Lemma start_per_request_spec env definitions : forall acc w (processed : list string),
  Forall (fun d => exists t, _getServerType (processServerConfig env d.2) = Ok t)
         definitions ->
  NoDup definitions.*1 ->
  (forall n, n ∈ definitions.*1 -> n ∉ processed) ->
  (forall k, k ∈ acc.*1 ->
     exists n t, n ∈ processed /\ k = "temp_" ++ n ++ "_" ++ show t) ->
  exists started,
    (start_per_request env definitions acc w).1 = Ok started
    /\ handles acc ⊆ handles started
    /\ forall h, h ∈ running (start_per_request env definitions acc w).2 ->
                 h ∈ running w \/ h ∈ handles started.
Proof.
  induction definitions as [|[n c] rest IH];
    intros acc w processed Htypes Hnd Hnew Hold.
  - exists acc. simpl. split; [done|]. split; [done|]. auto.
  - apply Forall_cons in Htypes as [[t Htype] Htypes]. simpl in Htype.
    simpl in Hnd. apply NoDup_cons in Hnd as [Hn Hnd].
    rewrite (start_per_request_step env n c t rest acc w Htype).
    set (temp := "temp_" ++ n ++ "_" ++ show (clock w)).
    set (fresh := new_instance temp (processServerConfig env c) t (clock w)).
    destruct (start_sequence_running env fresh w) as [Hkind Hrun].
    change (type fresh) with t in Hkind, Hrun.
    destruct (start_sequence env t (fresh, w)) as [r [cell w2]]. simpl in *.
    set (kept := match r with
                 | Ok _ => cell
                 | Throw message => with_lastError (Some message) cell
                 end).
    assert (subprocess_of kept = subprocess_of cell) as Hkept.
    { unfold kept. by destruct r. }
    assert (temp ∉ acc.*1) as Hfresh.
    { intros Hin. destruct (Hold temp Hin) as (n' & t' & Hn' & Heq).
      apply temp_name_inj in Heq as <-.
      apply (Hnew n); [by left|done]. }
    rewrite (jm_set_fresh temp kept acc Hfresh).
    destruct (IH (acc ++ [(temp, kept)])%list w2 (n :: processed) Htypes Hnd)
      as (started & Hok & Hsub & Hcover).
    { intros n' Hn'. apply not_elem_of_cons. split.
      - intros ->. by apply Hn.
      - apply Hnew. by right. }
    { intros k. rewrite fmap_app. simpl. intros Hk.
      apply elem_of_app in Hk as [Hk|Hk].
      - destruct (Hold k Hk) as (n' & t' & Hn' & ->).
        exists n', t'. split; [by right|done].
      - apply list_elem_of_singleton in Hk as ->.
        exists n, (clock w). split; [by left|done]. }
    rewrite handles_snoc, Hkept in Hsub.
    exists started. split; [done|]. split; [set_solver|].
    intros h Hh. destruct (Hcover h Hh) as [Hw2|Hst]; [|by right].
    destruct (Hrun h Hw2) as [Hw|Hown]; [by left|].
    right. rewrite Hown in Hsub. set_solver.
Qed.

Section TurnFrames.
Context (env : Environment) {X : Type} (keep : World -> X).

Lemma getToolsFromPerRequestServers_preserves servers :
  ignores_requests keep ->
  preserves keep (_getToolsFromPerRequestServers env servers).
Proof.
  intros Hr. induction servers as [|[serverName instance] servers IH]; simpl.
  - apply preserves_ret.
  - pose proof (mcpRequest_preserves env keep). frame.
Qed.

Lemma getMCPTools_preserves :
  ignores_requests keep -> ignores_toolToServerMap keep -> ignores_cache keep ->
  preserves keep (getMCPTools env).
Proof.
  intros Hr Ht Hc. unfold getMCPTools, ensureMCPInitialized.
  pose proof (getMCPToolsInternal_preserves env keep).
  pose proof (Date_now_preserves keep).
  assert (forall c t, preserves keep (modify (set_cache c t))) as Hset.
  { intros c t w. apply Hc. }
  frame.
Qed.

Lemma createChatCompletion_preserves options :
  ignores_completions keep -> preserves keep (createChatCompletion env options).
Proof. intros H w. apply H. Qed.

Lemma processToolCalls_preserves response options servers :
  ignores_requests keep -> ignores_completions keep ->
  preserves keep (_processToolCalls env response options servers).
Proof.
  intros Hr Hc. unfold _processToolCalls.
  pose proof (process_each_preserves env keep Hr).
  pose proof createChatCompletion_preserves. frame.
Qed.

(** Draining the generator changes the clock and the two logs only. *)
Lemma createStreamingWithTools_preserves options servers fb :
  ignores_requests keep -> ignores_completions keep -> ignores_clock keep ->
  preserves (keep ∘ snd) (_createStreamingWithTools env options servers fb).
Proof.
  intros Hr Hc Ht. unfold _createStreamingWithTools, end_of_stream.
  pose proof createChatCompletion_preserves.
  pose proof (execute_all_preserves env keep Hr).
  pose proof (drain_preserves keep).
  pose proof (forward_preserves keep).
  frame.
Qed.

End TurnFrames.

Lemma covered_preserved w (s s' : list (string * MCPServerInstance) * World) :
  (s'.1, running s'.2) = (s.1, running s.2) -> covered w s -> covered w s'.
Proof.
  intros Heq Hc h Hh. injection Heq as Hl Hr. rewrite Hl. apply Hc.
  by rewrite <- Hr.
Qed.

(** Whatever the turn does after [perRequestServers] has been assigned, it
    neither spawns a subprocess nor loses the map. *)
Ltac rest_of_turn env :=
  pose proof (getMCPTools_preserves env running
                ltac:(done) ltac:(done) ltac:(done));
  pose proof (fun o => createChatCompletion_preserves env running o ltac:(done));
  pose proof (fun r o s => processToolCalls_preserves env running r o s
                             ltac:(done) ltac:(done));
  frame.

(** For a request whose per-request definitions are well formed, every
    subprocess spawned for the turn has been killed when
    [createWithMCPTools] returns or throws: whether the turn succeeds, the
    backend call throws, tool arguments fail to decode or a generator is
    returned, no subprocess runs afterwards that did not run before. *)
Lemma teardown_when_well_formed env options w :
  (forall definitions, mcpServers options = Some definitions ->
     well_formed_definitions env definitions) ->
  running (createWithMCPTools env options w).2 ⊆ running w.
Proof.
  intros Hwf. unfold createWithMCPTools, bind at 1, with_local.
  match goal with
  | |- context [try_finally ?body ?clean ([], w)] =>
      set (BODY := body); set (CLEAN := clean)
  end.
  assert (covered w (BODY ([], w)).2) as Hcovered.
  { unfold BODY, try_catch, bind at 1.
    destruct (mcpServers options) as [definitions|] eqn:Hdefs.
    - destruct (Hwf definitions eq_refl) as [Hnd Htypes].
      match goal with
      | |- context [let (_, _) := ?phase ([], w) in _] =>
          assert (covered w (phase ([], w)).2) as Hphase;
          [|destruct (phase ([], w)) as [[perRequestTools|e] sp]]
      end.
      + unfold bind at 1, lift_world, _initializePerRequestServers.
        destruct (start_per_request_spec env definitions [] w [] Htypes Hnd)
          as (started & Hok & _ & Hcover).
        { intros n _. apply not_elem_of_nil. }
        { intros k Hk. by apply elem_of_nil in Hk. }
        destruct (start_per_request env definitions [] w) as [r w1].
        simpl in Hok, Hcover. subst r. unfold bind at 1, set_local.
        pose proof (getToolsFromPerRequestServers_preserves env running started
                      ltac:(done) w1) as Hframe.
        destruct (_getToolsFromPerRequestServers env started w1) as [r w2].
        simpl in *. intros h Hh. simpl in *. apply Hcover. by rewrite <- Hframe.
      + match goal with
        | |- context [let (_, _) := ?rest sp in _] =>
            assert (preserves (fun s => (s.1, running s.2)) rest) as Hrest;
            [rest_of_turn env|specialize (Hrest sp);
                              destruct (rest sp) as [[out|e] s0]]
        end; simpl in *; by eapply covered_preserved.
      + simpl. exact Hphase.
    - unfold ret at 1.
      match goal with
      | |- context [let (_, _) := ?rest ([], w) in _] =>
          assert (preserves (fun s => (s.1, running s.2)) rest) as Hrest;
          [rest_of_turn env|specialize (Hrest ([], w));
                            destruct (rest ([], w)) as [[out|e] s0]]
      end; simpl in *;
        (apply (covered_preserved w ([], w)); [exact Hrest|]);
        intros h Hh; by left. }
  unfold try_finally.
  destruct (BODY ([], w)) as [r1 [servers w1]]. simpl in Hcovered.
  unfold CLEAN, bind at 1, get_local.
  destruct (0 <? length servers)%nat eqn:Hlen.
  - unfold lift_world.
    destruct (cleanup_spec servers w1) as [Hok Hrun].
    destruct (_cleanupPerRequestServers servers w1) as [r2 w2].
    simpl in Hok, Hrun. subst r2. simpl.
    rewrite Hrun. intros h Hh. apply elem_of_difference in Hh as [Hh Hnot].
    by destruct (Hcovered h Hh).
  - unfold ret. simpl.
    intros h Hh. destruct (Hcovered h Hh) as [|Hin]; [done|].
    destruct servers; [|done]. unfold handles in Hin. simpl in Hin.
    by apply elem_of_empty in Hin.
Qed.

(** Draining the generator that a streaming turn returns spawns nothing. *)
Lemma generator_spawns_nothing env options servers fb ys w :
  running (_createStreamingWithTools env options servers fb (ys, w)).2.2
  = running w.
Proof.
  by apply (createStreamingWithTools_preserves env running options servers fb).
Qed.

(** [C2, failing input] The request defines the command server [a] and then
    a server [b] with neither command nor url/type.  The subprocess of [a]
    is spawned, the definition of [b] makes the assembly phase throw before
    [perRequestServers] is assigned, the [finally] block therefore finds an
    empty map, and the turn fails with the subprocess of [a] still running. *)
Theorem subprocess_left_running :
  let w := constructed [] 0 in
  let turn := createWithMCPTools demo_env
                (demo_options "gpt" false
                   (Some [("a", command_definition "serve");
                          ("b", no_definition)])) w in
  elements (running w) = []
  /\ (exists message, turn.1 = Throw message
        /\ message = "Invalid server configuration: must specify either command or url/type")
  /\ elements (running turn.2) = [O]
  /\ completions turn.2 = [].
Proof.
  vm_compute. split; [reflexivity|]. split; [|split; reflexivity].
  eexists. split; reflexivity.
Qed.

(** ** Registry queries *)

Lemma jm_get_is_Some {K V} `{EqDecision K} (k : K) (v : V) (m : list (K * V)) :
  In (k, v) m -> is_Some (jm_get k m).
Proof.
  induction m as [|[k' v'] m IH]; simpl; [done|].
  intros [Heq|Hin]; destruct (decide (k = k')); eauto. congruence.
Qed.

Lemma statuses_of_spec w entries :
  (forall e, In e entries -> is_Some (jm_get e.1 (mcpServerInstances w))) ->
  exists statuses,
    statuses_of entries w = (Ok statuses, w)
    /\ Forall2 (fun e s => _getServerStatus e.1 w = (Ok s, w)) entries statuses.
Proof.
  induction entries as [|[n i] entries IH]; intros Hfound; simpl.
  - by exists [].
  - destruct (Hfound (n, i) ltac:(by left)) as [instance Hget]. simpl in Hget.
    destruct IH as (more & Hmore & Hall).
    { intros e He. apply Hfound. by right. }
    assert (exists s, _getServerStatus n w = (Ok s, w)) as [s Hs].
    { unfold _getServerStatus, bind, get, Date_now, ret. rewrite Hget. eauto. }
    exists (s :: more). unfold bind at 1. rewrite Hs.
    unfold bind, ret. rewrite Hmore. split; [done|]. by constructor.
Qed.

(** [X1] Asked without a server name (or with the empty name),
    [getMCPServerStatus] never throws and changes nothing: it returns one
    status per registered instance, in registration order, each being the
    status that the query by that instance's name returns. *)
Theorem status_report_covers_registry w :
  getMCPServerStatus (Some "") w = getMCPServerStatus None w
  /\ exists statuses,
       getMCPServerStatus None w = (Ok (AllStatuses statuses), w)
       /\ Forall2 (fun e s => _getServerStatus e.1 w = (Ok s, w))
                  (mcpServerInstances w) statuses.
Proof.
  split; [done|].
  destruct (statuses_of_spec w (mcpServerInstances w)) as (statuses & Hrun & Hall).
  { intros [n i] Hin. by apply (jm_get_is_Some n i). }
  exists statuses. split; [|done].
  unfold getMCPServerStatus, bind, get, ret. simpl. by rewrite Hrun.
Qed.

(** The outcome of a direct tool call, read off the registry. *)
Lemma callToolOnServer_spec env serverName toolName args w :
  _callToolOnServer env serverName toolName args w
  = match jm_get serverName (mcpServerInstances w) with
    | None => (Throw ("MCP server not found: " ++ serverName), w)
    | Some i =>
        if negb (initialized i) then
          (Throw ("Server " ++ serverName ++ " is not initialized"), w)
        else if decide (type i = Command) then
          (Throw ("Command-based tool calling not yet implemented for "
                  ++ serverName), w)
        else
          (match exchange env serverName i "tools/call"
                   (ParamsToolCall toolName args) (sessionId i) with
           | Ok r => Ok (result r.1)
           | Throw e => Throw e
           end,
           set_requests
             (requests w ++ [build_request i "tools/call"
                               (ParamsToolCall toolName args) (sessionId i)])%list
             w)
    end.
Proof.
  unfold _callToolOnServer, bind, get. simpl.
  destruct (jm_get serverName (mcpServerInstances w)) as [i|] eqn:Hget; [|done].
  destruct (initialized i); simpl; [|done].
  unfold try_catch, bind, throw, ret.
  destruct (decide (type i = Command)); [done|].
  rewrite mcpRequest_spec, Hget. rewrite decide_False by done.
  by destruct (exchange env serverName i "tools/call" _ _) as [[data response]|e].
Qed.

(** [X2] A direct tool call on a named server contacts that server only
    when it is registered, initialized and not command-based.  Otherwise it
    throws and leaves the world as it was: nothing is sent.  When the
    server is contacted, the only change to the world is one [tools/call]
    request carrying the instance's session id, and the call returns the
    [result] member of the reply or rethrows the failure of the exchange. *)
Theorem direct_call_guarded env serverName toolName args w :
  let run := _callToolOnServer env serverName toolName args w in
  match reachable serverName w with
  | Some i =>
      run = (match exchange env serverName i "tools/call"
                     (ParamsToolCall toolName args) (sessionId i) with
             | Ok r => Ok (result r.1)
             | Throw e => Throw e
             end,
             set_requests
               (requests w ++ [build_request i "tools/call"
                                 (ParamsToolCall toolName args) (sessionId i)])%list
               w)
  | None => exists message, run = (Throw message, w)
  end.
Proof.
  cbv zeta. rewrite callToolOnServer_spec. unfold reachable.
  destruct (jm_get serverName (mcpServerInstances w)) as [i|]; [|by eexists].
  destruct (initialized i); simpl; [|by eexists].
  destruct (decide (type i = Command)) as [Hc|Hc];
    rewrite ?(bool_decide_eq_true_2 _ Hc), ?(bool_decide_eq_false_2 _ Hc);
    simpl; [by eexists|done].
Qed.

(** [X3] Listing the tools of one server, [listAvailableTools] with a
    non-empty server name, never touches the routing table or the catalog
    cache, unlike the listing of all servers; it throws without sending
    anything unless the server is registered, initialized and not
    command-based; and every tool it returns is tagged with the name of
    that server. *)
Theorem listing_one_server_registers_nothing env serverName w :
  serverName <> "" ->
  let run := listAvailableTools env (Some serverName) w in
  toolToServerMap run.2 = toolToServerMap w
  /\ mcpToolsCache run.2 = mcpToolsCache w
  /\ mcpLastCacheTime run.2 = mcpLastCacheTime w
  /\ match reachable serverName w with
     | Some i =>
         requests run.2
         = (requests w ++ [build_request i "tools/list" ParamsEmpty (sessionId i)])%list
         /\ match run.1 with
            | Ok ts => Forall (fun t => _mcpServerName t = Some serverName) ts
            | Throw _ => True
            end
     | None => exists message, run = (Throw message, w)
     end.
Proof.
  intros Hname. cbv zeta. unfold listAvailableTools.
  rewrite (proj2 (truthy_Some serverName) Hname). cbn [default].
  unfold reachable, _getToolsFromServer, bind, get. simpl.
  destruct (jm_get serverName (mcpServerInstances w)) as [i|] eqn:Hget;
    [|by repeat split; eauto].
  destruct (initialized i); simpl; [|by repeat split; eauto].
  destruct (decide (type i = Command)) as [Hc|Hc];
    rewrite ?(bool_decide_eq_true_2 _ Hc), ?(bool_decide_eq_false_2 _ Hc);
    simpl; [by repeat split; eauto|].
  unfold try_catch, bind, throw, ret.
  rewrite mcpRequest_spec, Hget. rewrite decide_False by done.
  destruct (exchange env serverName i "tools/list" _ _) as [[data response]|e];
    simpl; repeat split; try done.
  induction (tools_of data); by constructor.
Qed.

Lemma listing_one_server_registers_nothing_witness :
  let run := listAvailableTools demo_env (Some "fs") fs_connected in
  toolToServerMap run.2 = toolToServerMap fs_connected
  /\ mcpToolsCache run.2 = mcpToolsCache fs_connected.
Proof.
  intros run.
  destruct (listing_one_server_registers_nothing demo_env "fs" fs_connected)
    as (Hmap & Hcache & _); [discriminate|].
  split; [exact Hmap|exact Hcache].
Defined.

(** [X4] A capability query never changes the registry: although it sends
    a fresh [initialize] request with the instance's session id, the
    session id and the state of the instance stay as they were.  What it
    returns is never falsy: a reply without a truthy [capabilities] member
    yields the empty object. *)
Theorem capabilities_query_is_read_only env serverName w :
  let run := getMCPServerCapabilities env serverName w in
  mcpServerInstances run.2 = mcpServerInstances w
  /\ toolToServerMap run.2 = toolToServerMap w
  /\ match run.1 with
     | Ok capabilities => json_truthy capabilities = true
     | Throw _ => True
     end
  /\ match reachable serverName w with
     | Some i =>
         requests run.2
         = (requests w ++ [build_request i "initialize" ParamsInitialize
                             (sessionId i)])%list
     | None => exists message, run = (Throw message, w)
     end.
Proof.
  cbv zeta. unfold reachable, getMCPServerCapabilities, bind, get. simpl.
  destruct (jm_get serverName (mcpServerInstances w)) as [i|] eqn:Hget;
    [|by repeat split; eauto].
  destruct (initialized i); simpl; [|by repeat split; eauto].
  destruct (decide (type i = Command)) as [Hc|Hc];
    rewrite ?(bool_decide_eq_true_2 _ Hc), ?(bool_decide_eq_false_2 _ Hc);
    simpl; [by repeat split; eauto|].
  unfold try_catch, bind, throw, ret.
  rewrite mcpRequest_spec, Hget. rewrite decide_False by done.
  destruct (exchange env serverName i "initialize" _ _) as [[data response]|e];
    simpl; repeat split; try done.
  unfold capabilities_of. destruct (result data) as [[ts []]|]; try done.
  destruct (jm_get "capabilities" l) as [c|]; [|done].
  by destruct (json_truthy c) eqn:Htruthy.
Qed.

(** [X5] With arguments, a server-qualified [callMCPTool] does not consult
    the routing table: whatever the table holds, the call has the same
    outcome.  With [undefined] arguments it is taken for the legacy
    signature: the server's name is looked up as a tool name, so unless a
    tool of that name is registered the call throws without contacting the
    server. *)
Theorem server_qualified_call env serverName toolName w :
  (forall args table,
     (callMCPTool env (on_server serverName toolName (Some args))
                  (set_toolToServerMap table w)).1
     = (callMCPTool env (on_server serverName toolName (Some args)) w).1)
  /\ (toolToServerMap w !! serverName = None ->
      callMCPTool env (on_server serverName toolName None) w
      = (Throw ("Tool " ++ serverName ++ " not found on any connected MCP server"),
         w)).
Proof.
  split.
  - intros args table. simpl. rewrite !callToolOnServer_spec. simpl.
    destruct (jm_get serverName (mcpServerInstances w)) as [i|]; [|done].
    destruct (initialized i); simpl; [|done].
    by destruct (decide (type i = Command)).
  - intros Hnone. simpl. unfold _callToolByName, bind, get, throw. simpl.
    by rewrite Hnone.
Qed.

(** ** Construction *)

Lemma allSettled_preserves {X} (keep : World -> X) ms :
  Forall (preserves keep) ms -> preserves keep (allSettled ms).
Proof.
  induction 1 as [|m ms Hm _ IH]; simpl; [apply preserves_ret|].
  apply preserves_bind; [|done].
  apply preserves_try_catch; [done|]. intros ?. apply preserves_ret.
Qed.

Lemma initializeMCP_preserves {X} (keep : World -> X) env :
  ignores_requests keep -> ignores_processes keep -> ignores_clock keep ->
  ignores_instances keep -> ignores_toolToServerMap keep ->
  (forall b w, keep (set_mcpClient b w) = keep w) ->
  preserves keep (initializeMCP env).
Proof.
  intros Hr Hp Hc Hi Ht Hm. unfold initializeMCP.
  apply preserves_bind; [apply preserves_get|]. intros w.
  destruct (negb (mcpEnabled w) || _); [apply preserves_ret|].
  apply preserves_try_catch; [|intros ?; apply preserves_ret].
  apply preserves_bind; [by apply preserves_modify|]. intros _.
  apply preserves_bind.
  { apply allSettled_preserves.
    induction (jm_keys (mcpServersConfig w)) as [|n names IH]; simpl;
      constructor; [|done].
    apply initializeMCPServer_preserves; try done.
    by apply ignores_instances_one. }
  intros _. apply preserves_bind; [apply preserves_get|]. intros w'.
  destruct (0 <? _)%nat; [|apply preserves_ret].
  apply preserves_try_catch; [|intros ?; apply preserves_ret].
  apply preserves_bind; [|intros ?; apply preserves_ret].
  by apply getMCPToolsInternal_preserves.
Qed.

Lemma constructor_preserves {X} (keep : World -> X) env options w :
  ignores_requests keep -> ignores_processes keep -> ignores_clock keep ->
  ignores_instances keep -> ignores_toolToServerMap keep ->
  (forall b w, keep (set_mcpClient b w) = keep w) ->
  keep (constructor env (Ok tt) options w).2
  = keep (modify (fun w =>
      {| mcpServersConfig := configured_servers options;
         mcpEnabled := match opt_mcpEnabled options with
                       | Some false => false
                       | _ => true
                       end;
         mcpClient := false; mcpServerInstances := []; mcpToolsCache := None;
         mcpLastCacheTime := 0; toolToServerMap := ∅; clock := clock w;
         next_handle := next_handle w; running := running w;
         requests := requests w; completions := completions w |}) w).2.
Proof.
  intros Hr Hp Hc Hi Ht Hm. unfold constructor, lift_result, bind at 1.
  unfold bind at 1.
  destruct (modify _ w) as [[[]|e] w0] eqn:Hfresh; [|done]. simpl.
  apply (preserves_try_catch keep (initializeMCP env) (fun _ => ret tt)).
  - by apply initializeMCP_preserves.
  - intros ?. apply preserves_ret.
Qed.

(** [X6] When the base-class constructor throws, so does construction, and
    nothing is set up.  Otherwise construction never throws, whatever
    happens while the servers start.  The client it leaves holds the
    configuration computed from the options, and an empty catalog cache:
    the catalog fetched while initializing is not kept, so the first
    [getMCPTools] fetches again. *)
Theorem construction_settles env super_OpenAI options w :
  let run := constructor env super_OpenAI options w in
  match super_OpenAI with
  | Throw message => run = (Throw message, w)
  | Ok _ =>
      run.1 = Ok tt
      /\ mcpServersConfig run.2 = configured_servers options
      /\ mcpToolsCache run.2 = None
      /\ mcpLastCacheTime run.2 = 0
  end.
Proof.
  cbv zeta. destruct super_OpenAI as [[]|message]; [|done].
  split; [|split; [|split]].
  - unfold constructor, lift_result, bind, modify, try_catch, ret.
    pose proof (initializeMCP_returns env) as Hret.
    match goal with |- context [initializeMCP env ?w0] =>
      specialize (Hret w0); destruct (initializeMCP env w0) as [r w1] end.
    simpl in Hret. by subst r.
  - by rewrite (constructor_preserves mcpServersConfig).
  - by rewrite (constructor_preserves mcpToolsCache).
  - by rewrite (constructor_preserves mcpLastCacheTime).
Qed.

Lemma legacy_name_inj i j : legacy_name i = legacy_name j -> i = j.
Proof.
  unfold legacy_name, show. intros H.
  apply (inj (String.app "legacy_server_")) in H.
  apply (inj pretty) in H. lia.
Qed.

Lemma add_legacy_other urls : forall index config k,
  (forall j, k <> legacy_name j) ->
  jm_get k (add_legacy_servers urls index config) = jm_get k config.
Proof.
  induction urls as [|url urls IH]; intros index config k Hk; [done|].
  simpl. rewrite IH by done. apply jm_get_set_ne. apply not_eq_sym, Hk.
Qed.

Lemma add_legacy_earlier urls : forall index config k,
  (k < index)%nat ->
  jm_get (legacy_name k) (add_legacy_servers urls index config)
  = jm_get (legacy_name k) config.
Proof.
  induction urls as [|url urls IH]; intros index config k Hk; [done|].
  simpl. rewrite IH by lia. apply jm_get_set_ne.
  intros H. apply legacy_name_inj in H. lia.
Qed.

Lemma add_legacy_get urls : forall index config i url,
  urls !! i = Some url ->
  jm_get (legacy_name (index + i)) (add_legacy_servers urls index config)
  = Some (legacy_definition url).
Proof.
  induction urls as [|u urls IH]; intros index config i url Hi; [done|].
  destruct i as [|i]; simpl in *.
  - injection Hi as ->. rewrite Nat.add_0_r.
    rewrite add_legacy_earlier by lia. apply jm_get_set_eq.
  - replace (index + S i)%nat with (S index + i)%nat by lia. by apply IH.
Qed.

(** [X7] The legacy options are folded into the configuration: the URL at
    position [i] of [mcpServerUrls] is configured as the streamable-HTTP
    server [legacy_server_<i>], a non-empty [mcpServerUrl] as
    [legacy_server], each replacing an entry of [mcpServers] of the same
    name; entries of [mcpServers] under other names are kept. *)
Theorem legacy_servers_configured options :
  (forall urls i url,
     opt_mcpServerUrls options = Some urls -> urls !! i = Some url ->
     jm_get ("legacy_server_" ++ show (N.of_nat i)) (configured_servers options)
     = Some (legacy_definition url))
  /\ (forall url,
        opt_mcpServerUrl options = Some url -> url <> "" ->
        jm_get "legacy_server" (configured_servers options)
        = Some (legacy_definition url))
  /\ (forall n,
        startsWith n "legacy_server" = false ->
        jm_get n (configured_servers options)
        = jm_get n (default [] (opt_mcpServers options))).
Proof.
  split; [|split].
  - intros urls i url Hurls Hi. unfold configured_servers. rewrite Hurls.
    assert (jm_get (legacy_name i)
              (add_legacy_servers urls 0 (default [] (opt_mcpServers options)))
            = Some (legacy_definition url)) as Hget.
    { by apply (add_legacy_get urls 0). }
    destruct (truthy (opt_mcpServerUrl options)); [|done].
    rewrite jm_get_set_ne; [done|]. discriminate.
  - intros url Hurl Hne. unfold configured_servers. rewrite Hurl.
    rewrite (proj2 (truthy_Some url) Hne). apply jm_get_set_eq.
  - intros n Hn. unfold configured_servers.
    assert (forall j, n <> legacy_name j) as Hlegacy.
    { intros j ->. by compute in Hn. }
    assert (n <> "legacy_server") as Hsingle.
    { intros ->. by compute in Hn. }
    destruct (truthy (opt_mcpServerUrl options)).
    + rewrite jm_get_set_ne by done.
      destruct (opt_mcpServerUrls options); [by apply add_legacy_other|done].
    + destruct (opt_mcpServerUrls options); [by apply add_legacy_other|done].
Qed.

Lemma legacy_servers_configured_witness :
  let options :=
    {| opt_mcpServers := Some [("legacy_server_0", command_definition "serve");
                               ("fs", legacy_definition "http://fs")];
       opt_mcpServerUrls := Some ["http://a"; "http://b"];
       opt_mcpServerUrl := Some "http://c";
       opt_mcpEnabled := None |} in
  jm_get "legacy_server_0" (configured_servers options)
  = Some (legacy_definition "http://a")
  /\ jm_get "legacy_server_1" (configured_servers options)
     = Some (legacy_definition "http://b")
  /\ jm_get "legacy_server" (configured_servers options)
     = Some (legacy_definition "http://c")
  /\ jm_get "fs" (configured_servers options)
     = Some (legacy_definition "http://fs").
Proof.
  intros options.
  destruct (legacy_servers_configured options) as (Hurls & Hurl & Hkept).
  split; [apply (Hurls ["http://a"; "http://b"] 0%nat); reflexivity|].
  split; [apply (Hurls ["http://a"; "http://b"] 1%nat); reflexivity|].
  split; [apply Hurl; [reflexivity|discriminate]|].
  rewrite Hkept; reflexivity.
Defined.

Lemma initializeMCP_inert env w :
  negb (mcpEnabled w) || (length (mcpServersConfig w) =? 0)%nat = true ->
  initializeMCP env w = (Ok tt, w).
Proof. intros H. unfold initializeMCP, bind at 1, get. by rewrite H. Qed.

(** [X8] A client constructed with [mcpEnabled: false], or without any
    configured server, starts nothing: once the base-class constructor
    has returned, no instance is registered, no request is sent, no
    subprocess is launched, and its catalog is empty. *)
Theorem disabled_client_starts_nothing env options w :
  opt_mcpEnabled options = Some false \/ configured_servers options = [] ->
  let run := constructor env (Ok tt) options w in
  run.1 = Ok tt
  /\ mcpServerInstances run.2 = []
  /\ mcpClient run.2 = false
  /\ toolToServerMap run.2 = ∅
  /\ requests run.2 = requests w
  /\ running run.2 = running w
  /\ next_handle run.2 = next_handle w
  /\ getMCPTools env run.2 = (Ok [], run.2).
Proof.
  intros Hoff. cbv zeta.
  unfold constructor, lift_result, bind, modify, try_catch. cbv beta iota.
  rewrite initializeMCP_inert.
  - simpl. repeat split.
    unfold getMCPTools, ensureMCPInitialized, bind, ret, Date_now, get. simpl.
    by rewrite orb_true_r.
  - simpl. destruct Hoff as [->| ->]; [done|]. simpl. apply orb_true_r.
Qed.

Lemma disabled_client_starts_nothing_witness :
  let options :=
    {| opt_mcpServers := Some [("fs", legacy_definition "http://fs")];
       opt_mcpServerUrls := None; opt_mcpServerUrl := None;
       opt_mcpEnabled := Some false |} in
  let run := constructor demo_env (Ok tt) options (constructed [] 7) in
  mcpServerInstances run.2 = [] /\ requests run.2 = [].
Proof.
  intros options run.
  destruct (disabled_client_starts_nothing demo_env options (constructed [] 7))
    as (_ & Hinstances & _ & _ & Hrequests & _).
  - left. reflexivity.
  - split; [exact Hinstances|exact Hrequests].
Defined.

(** ** Variable substitution *)

Section SubstitutionFacts.
Import Substitution.

Lemma or_else_falsy (o : option string) (d : string) :
  truthy o = false -> or_else o d = d.
Proof.
  unfold truthy, or_else. destruct o as [s|]; [|done].
  by destruct (String.eqb s "").
Qed.

Lemma or_else_truthy (o : option string) (d : string) :
  truthy o = true -> or_else o d = default "" o.
Proof.
  unfold truthy, or_else. destruct o as [s|]; [|done].
  by destruct (String.eqb s "").
Qed.

Lemma append_nonempty (a b : string) : a <> "" -> a ++ b <> "".
Proof. by destruct a. Qed.

Lemma until_brace_spec s :
  s = (until_brace s).1 ++ (until_brace s).2
  /\ mentions "}" (until_brace s).1 = false.
Proof.
  induction s as [|c s [IH1 IH2]]; simpl; [done|].
  destruct (Ascii.eqb c "}") eqn:Hc; simpl; [done|].
  rewrite Hc. split; [|done].
  change (String c s = String c ((until_brace s).1 ++ (until_brace s).2)).
  by rewrite <- IH1.
Qed.

Lemma until_brace_closed v rest :
  mentions "}" v = false -> until_brace (v ++ String "}" rest) = (v, String "}" rest).
Proof.
  induction v as [|c v IH]; simpl; [done|].
  intros H. apply orb_false_iff in H as [Hc Hv].
  change (String c v ++ String "}" rest) with (String c (v ++ String "}" rest)).
  simpl. rewrite Hc. by rewrite IH.
Qed.

Ltac split_char c := destruct c as [[] [] [] [] [] [] [] []]; try done.

Lemma dollar_reference_recognises : recognises dollar_reference.
Proof.
  intros s matched varName after. unfold dollar_reference.
  destruct s as [|c1 s]; [done|].
  destruct s as [|c2 rest]; [by split_char c1|].
  split_char c1. split_char c2.
  destruct (until_brace_spec rest) as [Hrest _].
  destruct (until_brace rest) as [[|c n] [|c3 after']]; try done.
  split_char c3.
  intros [= <- <- <-]. split; [|done]. simpl in Hrest. rewrite Hrest.
  change ("${" ++ String c n ++ "}") with (String "$" (String "{" (String c n ++ "}"))).
  change (String "$" (String "{" (String c n ++ "}")) ++ after')
    with (String "$" (String "{" ((String c n ++ "}") ++ after'))).
  by rewrite append_assoc.
Qed.

Lemma template_reference_recognises : recognises template_reference.
Proof.
  intros s matched varName after. unfold template_reference.
  destruct s as [|c1 s]; [done|].
  destruct s as [|c2 rest]; [by split_char c1|].
  split_char c1. split_char c2.
  destruct (until_brace_spec rest) as [Hrest _].
  destruct (until_brace rest) as [[|c n] [|c3 after']]; try done.
  destruct after' as [|c4 after']; [by split_char c3|].
  split_char c3. split_char c4.
  intros [= <- <- <-]. split; [|done]. simpl in Hrest. rewrite Hrest.
  change ("{{" ++ String c n ++ "}}") with (String "{" (String "{" (String c n ++ "}}"))).
  change (String "{" (String "{" (String c n ++ "}}")) ++ after')
    with (String "{" (String "{" ((String c n ++ "}}") ++ after'))).
  by rewrite append_assoc.
Qed.

Lemma replace_from_nonempty reference getenv fuel s :
  recognises reference -> s <> "" ->
  replace_from reference getenv (S fuel) s <> "".
Proof.
  intros Hwf Hs. simpl.
  destruct (reference s) as [[[matched varName] after]|] eqn:Href.
  - destruct (Hwf _ _ _ _ Href) as [_ Hm].
    by apply append_nonempty, or_else_nonempty.
  - by destruct s.
Qed.

Lemma replace_nonempty reference getenv s :
  recognises reference -> s <> "" -> replace reference getenv s <> "".
Proof.
  intros Hwf Hs. unfold replace. destruct s as [|c s]; [done|].
  by apply replace_from_nonempty.
Qed.

Lemma substituteVariables_nonempty getenv s :
  s <> "" -> substituteVariables getenv s <> "".
Proof.
  intros Hs. unfold substituteVariables.
  apply replace_nonempty; [apply template_reference_recognises|].
  apply replace_nonempty; [apply dollar_reference_recognises|done].
Qed.

Lemma replace_from_absent reference getenv (c : ascii) :
  (forall s, mentions c s = false -> reference s = None) ->
  forall fuel s, mentions c s = false -> replace_from reference getenv fuel s = s.
Proof.
  intros Hnone. induction fuel as [|fuel IH]; intros s Hs; simpl; [done|].
  rewrite Hnone by done. destruct s as [|a s]; [done|].
  simpl in Hs. apply orb_false_iff in Hs as [_ Hs]. by rewrite IH.
Qed.

Lemma dollar_reference_needs_dollar s :
  mentions "$" s = false -> dollar_reference s = None.
Proof.
  destruct s as [|c1 s]; [done|]. simpl. intros H.
  apply orb_false_iff in H as [Hc _]. unfold dollar_reference.
  destruct s as [|c2 rest]; by split_char c1.
Qed.



End SubstitutionFacts.

Lemma unresolved_suffix getenv a b : unresolved getenv (a ++ b) -> unresolved getenv b.
Proof.
  unfold unresolved. induction a as [|c a IH]; [done|]. intros H.
  apply IH. change (String c a ++ b) with (String c (a ++ b)) in H.
  cbn [Substitution.referenced_names] in H.
  by apply Forall_app in H as [_ [_ H]%Forall_app].
Qed.

Lemma replace_from_unresolved reference getenv :
  recognises reference ->
  (forall s matched varName after,
     reference s = Some (matched, varName, after) ->
     In varName (Substitution.referenced_names s)) ->
  forall fuel s,
    unresolved getenv s -> Substitution.replace_from reference getenv fuel s = s.
Proof.
  intros Hwf Hnames. induction fuel as [|fuel IH]; intros s Hs; simpl; [done|].
  destruct (reference s) as [[[matched varName] after]|] eqn:Href.
  - destruct (Hwf _ _ _ _ Href) as [-> _].
    rewrite or_else_falsy.
    + rewrite IH; [done|]. by apply (unresolved_suffix getenv matched).
    + unfold unresolved in Hs. rewrite List.Forall_forall in Hs.
      by apply Hs, (Hnames _ _ _ _ Href).
  - destruct s as [|c s]; [done|]. rewrite IH; [done|].
    by apply (unresolved_suffix getenv (String c "")).
Qed.

Lemma dollar_reference_named s matched varName after :
  Substitution.dollar_reference s = Some (matched, varName, after) ->
  In varName (Substitution.referenced_names s).
Proof.
  intros H. destruct s; cbn [Substitution.referenced_names]; rewrite H;
    by left.
Qed.

Lemma template_reference_named s matched varName after :
  Substitution.template_reference s = Some (matched, varName, after) ->
  In varName (Substitution.referenced_names s).
Proof.
  intros H. destruct s; cbn [Substitution.referenced_names]; rewrite H;
    apply in_or_app; right; by left.
Qed.

Lemma substitute_unresolved getenv value :
  unresolved getenv value ->
  Substitution.substituteVariables getenv value = value.
Proof.
  intros Hunresolved.
  unfold Substitution.substituteVariables, Substitution.replace.
  rewrite (replace_from_unresolved _ getenv dollar_reference_recognises
             dollar_reference_named) by done.
  by rewrite (replace_from_unresolved _ getenv template_reference_recognises
                template_reference_named).
Qed.




Lemma replace_from_empty reference getenv fuel :
  reference "" = None -> Substitution.replace_from reference getenv fuel "" = "".
Proof. intros H. destruct fuel; simpl; [done|]. by rewrite H. Qed.

Lemma mentions_false_app c a b :
  mentions c a = false -> mentions c b = false -> mentions c (a ++ b) = false.
Proof. intros Ha Hb. by rewrite mentions_app, Ha, Hb. Qed.

(** [X10] A reference that makes up the whole text is replaced by the
    value of its variable.  The value put in for [${NAME}] is itself
    scanned for [{{...}}] references by the second pass, whereas the value
    put in for [{{NAME}}] is inserted as it is. *)
Theorem whole_text_reference getenv varName value :
  varName <> "" -> mentions "}" varName = false ->
  getenv varName = Some value -> value <> "" ->
  Substitution.substituteVariables getenv ("${" ++ varName ++ "}")
  = Substitution.replace Substitution.template_reference getenv value
  /\ (mentions "$" varName = false ->
      Substitution.substituteVariables getenv ("{{" ++ varName ++ "}}") = value).
Proof.
  intros Hne Hclosed Hget Hvalue.
  assert (or_else (getenv varName) = fun _ => value) as Hor.
  { rewrite Hget. unfold or_else.
    by rewrite (proj2 (String.eqb_neq value "") Hvalue). }
  destruct varName as [|c n]; [done|]. split.
  - unfold Substitution.substituteVariables. f_equal.
    unfold Substitution.replace.
    change (String.length ("${" ++ String c n ++ "}"))
      with (S (S (String.length (String c n ++ "}")))).
    cbn [Substitution.replace_from].
    assert (Substitution.dollar_reference ("${" ++ String c n ++ "}")
            = Some ("${" ++ String c n ++ "}", String c n, "")) as ->.
    { change ("${" ++ String c n ++ "}")
        with (String "$" (String "{" (String c n ++ String "}" ""))).
      unfold Substitution.dollar_reference.
      by rewrite until_brace_closed. }
    rewrite Hor. simpl. apply append_nil_r.
  - intros Hdollar. unfold Substitution.substituteVariables.
    assert (Substitution.replace Substitution.dollar_reference getenv
              ("{{" ++ String c n ++ "}}") = "{{" ++ String c n ++ "}}") as ->.
    { apply (replace_from_absent _ _ "$" dollar_reference_needs_dollar).
      change ("{{" ++ String c n ++ "}}") with ("{{" ++ (String c n ++ "}}")).
      apply mentions_false_app; [done|]. by apply mentions_false_app. }
    unfold Substitution.replace.
    change (String.length ("{{" ++ String c n ++ "}}"))
      with (S (S (String.length (String c n ++ "}}")))).
    cbn [Substitution.replace_from].
    assert (Substitution.template_reference ("{{" ++ String c n ++ "}}")
            = Some ("{{" ++ String c n ++ "}}", String c n, "")) as ->.
    { change ("{{" ++ String c n ++ "}}")
        with (String "{" (String "{" (String c n ++ String "}" (String "}" "")))).
      unfold Substitution.template_reference.
      by rewrite until_brace_closed. }
    rewrite Hor. simpl. apply append_nil_r.
Qed.

Lemma whole_text_reference_witness :
  let getenv := fun v => if String.eqb v "URL" then Some "http://{{HOST}}/mcp"
                         else if String.eqb v "HOST" then Some "example.org"
                         else None in
  Substitution.substituteVariables getenv "${URL}" = "http://example.org/mcp"
  /\ Substitution.substituteVariables getenv "{{URL}}" = "http://{{HOST}}/mcp".
Proof.
  intros getenv.
  destruct (whole_text_reference getenv "URL" "http://{{HOST}}/mcp")
    as [Hdollar Htemplate]; try reflexivity; try discriminate.
  split; [exact (eq_trans Hdollar eq_refl)|exact (Htemplate eq_refl)].
Defined.

(** [X11] Processing a server definition never changes how the server is
    classified: a definition has the same transport kind, or is rejected
    as invalid, before and after substitution, because substitution never
    turns a non-empty URL into an empty one.  The number of arguments and
    the header names are kept too, and a definition is used as written
    when no reference in its arguments, its URL or its header values names
    something that has a value. *)
Theorem processing_keeps_transport env getenv c :
  (forall s, substituteVariables env s = Substitution.substituteVariables getenv s) ->
  _getServerType (processServerConfig env c) = _getServerType c
  /\ length <$> def_args (processServerConfig env c) = length <$> def_args c
  /\ jm_keys <$> def_headers (processServerConfig env c) = jm_keys <$> def_headers c
  /\ (Forall (unresolved getenv) (definition_texts c) ->
      processServerConfig env c = c).
Proof.
  intros Hsub. split; [|split; [|split]].
  - unfold _getServerType, processServerConfig. simpl.
    destruct (truthy (def_command c)); [done|].
    destruct (def_type c); [done|].
    destruct (def_url c) as [url|]; simpl; [|done].
    destruct (String.eqb_spec url "") as [->|Hne]; simpl; [done|].
    rewrite Hsub.
    by rewrite (proj2 (String.eqb_neq _ "") (substituteVariables_nonempty _ _ Hne)).
  - simpl. destruct (def_args c) as [args|]; simpl; [|done].
    by rewrite length_map.
  - simpl. destruct (def_headers c) as [headers|]; simpl; [|done].
    f_equal. induction headers as [|[k v] headers IH]; [done|].
    unfold jm_keys in *. simpl. f_equal. exact IH.
  - intros Hunresolved.
    assert (forall s, unresolved getenv s -> substituteVariables env s = s)
      as Hid.
    { intros s Hs. rewrite Hsub. by apply substitute_unresolved. }
    destruct c as [command args type url headers timeout envs].
    unfold definition_texts in Hunresolved. simpl in Hunresolved.
    apply Forall_app in Hunresolved as [Hargs [Hurl Hheaders]%Forall_app].
    unfold processServerConfig. simpl. f_equal.
    + destruct args as [args|]; simpl in *; [|done]. f_equal.
      induction Hargs as [|a args Ha _ IH]; [done|]. simpl. by rewrite Hid, IH.
    + destruct url as [url|]; simpl in *; [|done].
      destruct (String.eqb url ""); simpl in *; [done|].
      rewrite Hid; [done|]. by inversion Hurl.
    + destruct headers as [headers|]; simpl in *; [|done]. f_equal.
      induction headers as [|[k v] headers IH]; [done|]. simpl in *.
      inversion Hheaders; subst. by rewrite Hid, IH.
Qed.

Lemma processing_keeps_transport_witness :
  let getenv := fun v => if String.eqb v "MCP_SERVER_URL" then Some "http://fs"
                         else None in
  let c := {| def_command := None; def_args := Some ["--config"; "${CONFIG_PATH}"];
              def_type := None; def_url := Some "${MCP_SERVER_URL}";
              def_headers := Some [("Authorization", "Bearer {{API_TOKEN}}")];
              def_timeout := None; def_env := [] |} in
  _getServerType (processServerConfig (substituting_env getenv) c)
  = Ok StreamableHttp
  /\ def_url (processServerConfig (substituting_env getenv) c) = Some "http://fs".
Proof.
  intros getenv c.
  destruct (processing_keeps_transport (substituting_env getenv) getenv c)
    as [Htype _]; [reflexivity|].
  split; [rewrite Htype|]; reflexivity.
Defined.

(** ** Providers *)

Section DeleteFacts.
Context {V : Type}.
Implicit Types (object : list (string * V)).

Lemma jm_get_delete_ne key key' object :
  key <> key' -> jm_get key (delete key' object) = jm_get key object.
Proof.
  intros Hne. induction object as [|[k v] object IH]; [done|].
  unfold delete in *. simpl.
  destruct (String.eqb_spec k key') as [->|Hk]; simpl.
  - rewrite decide_False by done. apply IH.
  - destruct (decide (key = k)); [done|]. apply IH.
Qed.

Lemma jm_get_delete_eq key object : jm_get key (delete key object) = None.
Proof.
  induction object as [|[k v] object IH]; [done|].
  unfold delete in *. simpl.
  destruct (String.eqb_spec k key) as [->|Hk]; simpl; [done|].
  rewrite decide_False by done. apply IH.
Qed.

Lemma delete_idempotent key object :
  delete key (delete key object) = delete key object.
Proof.
  unfold delete. induction object as [|[k v] object IH]; [done|]. simpl.
  destruct (String.eqb k key) eqn:Hk; simpl; [done|]. by rewrite Hk, IH.
Qed.

Lemma delete_set_ne key key' v object :
  key <> key' ->
  delete key (jm_set key' v object) = jm_set key' v (delete key object).
Proof.
  intros Hne. unfold delete.
  induction object as [|[k x] object IH]; simpl.
  - by rewrite (proj2 (String.eqb_neq key' key)).
  - destruct (decide (key' = k)) as [<-|Hk]; simpl.
    + rewrite (proj2 (String.eqb_neq key' key)) by done. simpl.
      by rewrite decide_True.
    + destruct (String.eqb k key); simpl; [done|].
      rewrite decide_False by done. by rewrite IH.
Qed.

End DeleteFacts.

Lemma jm_set_idempotent {K V} `{EqDecision K} (k : K) (v : V) (m : list (K * V)) :
  jm_set k v (jm_set k v m) = jm_set k v m.
Proof.
  induction m as [|[k' v'] m IH]; simpl.
  - by rewrite decide_True.
  - destruct (decide (k = k')) as [->|Hne]; simpl.
    + by rewrite decide_True.
    + rewrite decide_False by done. by rewrite IH.
Qed.

Lemma jm_set_present {K V} `{EqDecision K} (k : K) (v : V) (m : list (K * V)) :
  jm_get k m = Some v -> jm_set k v m = m.
Proof.
  induction m as [|[k' v'] m IH]; simpl; [done|].
  destruct (decide (k = k')) as [->|Hne]; [by intros [= ->]|].
  intros H. by rewrite IH.
Qed.

Lemma provider_client_cached getenv providerConfig l :
  match Provider.getProviderClient getenv providerConfig l with
  | (Ok found, l') =>
      exists client,
        found = Some client
        /\ jm_get (Provider.baseURL providerConfig) (Provider.providerClients l')
           = Some client
        /\ Provider.sent l' = Provider.sent l
  | (Throw _, l') =>
      l' = l
      /\ jm_has (Provider.baseURL providerConfig) (Provider.providerClients l)
         = false
      /\ truthy (getenv (Provider.apiKeyEnv providerConfig)) = false
  end.
Proof.
  unfold Provider.getProviderClient, bind, get, modify, throw, ret, jm_has.
  simpl.
  destruct (jm_get (Provider.baseURL providerConfig) (Provider.providerClients l))
    as [client|] eqn:Hcached; simpl.
  - rewrite Hcached. by exists client.
  - destruct (truthy (getenv (Provider.apiKeyEnv providerConfig))) eqn:Hkey;
      cbn; [|done].
    rewrite !jm_get_set_eq. by eexists.
Qed.

(** [X12] A provider's client is created once: after a successful lookup,
    every later lookup for that provider returns the same client without
    reading the environment again, so a key that is unset or replaced
    afterwards goes unnoticed.  A lookup only fails when no client is
    cached and the provider's key is unset or empty, and it then leaves the
    cache as it was. *)
Theorem provider_client_created_once getenv getenv' providerConfig l :
  match Provider.getProviderClient getenv providerConfig l with
  | (Ok found, l') =>
      exists client,
        found = Some client
        /\ Provider.getProviderClient getenv' providerConfig l'
           = (Ok (Some client), l')
  | (Throw _, l') =>
      l' = l
      /\ jm_has (Provider.baseURL providerConfig) (Provider.providerClients l)
         = false
      /\ truthy (getenv (Provider.apiKeyEnv providerConfig)) = false
  end.
Proof.
  pose proof (provider_client_cached getenv providerConfig l) as Hfirst.
  destruct (Provider.getProviderClient getenv providerConfig l)
    as [[found|message] l1]; [|done].
  destruct Hfirst as (client & -> & Hcached & _). exists client.
  split; [done|].
  unfold Provider.getProviderClient, bind, get, ret, jm_has. simpl.
  rewrite Hcached. simpl. by rewrite Hcached.
Qed.

(** [X13] For a model whose name begins with [gemini-] the request is sent
    without [max_tokens], with a truthy [stream] set to [true] and any
    other [stream] left as it is; every other field keeps its value,
    adjusting an adjusted request changes nothing, and for every other
    model the request is passed on as it is. *)
Theorem gemini_parameters options modelName :
  let optimized := Provider.optimizeParametersForProvider options modelName in
  (forall key, key <> "max_tokens" -> key <> "stream" ->
     jm_get key optimized = jm_get key options)
  /\ json_truthy <$> jm_get "stream" optimized
     = json_truthy <$> jm_get "stream" options
  /\ Provider.optimizeParametersForProvider optimized modelName = optimized
  /\ if startsWith modelName "gemini-"
     then jm_get "max_tokens" optimized = None
          /\ jm_get "stream" optimized
             = match jm_get "stream" options with
               | Some s => if json_truthy s then Some (JBool true) else Some s
               | None => None
               end
     else optimized = options.
Proof.
  cbv zeta. unfold Provider.optimizeParametersForProvider.
  destruct (startsWith modelName "gemini-"); [|done].
  pose proof (jm_get_delete_ne "stream" "max_tokens" options ltac:(done)) as Hs.
  destruct (jm_get "stream" (delete "max_tokens" options)) as [s|] eqn:Hstream.
  - destruct (json_truthy s) eqn:Htruthy.
    + repeat split.
      * intros key H1 H2. rewrite jm_get_set_ne by done.
        by apply jm_get_delete_ne.
      * rewrite jm_get_set_eq, <- Hs. simpl. by rewrite Htruthy.
      * rewrite delete_set_ne, delete_idempotent by done.
        rewrite jm_get_set_eq. simpl. apply jm_set_idempotent.
      * rewrite jm_get_set_ne by done. apply jm_get_delete_eq.
      * by rewrite jm_get_set_eq, <- Hs, Htruthy.
    + repeat split.
      * intros key H1 H2. by apply jm_get_delete_ne.
      * by rewrite Hstream, <- Hs.
      * rewrite delete_idempotent, Hstream. by rewrite Htruthy.
      * apply jm_get_delete_eq.
      * by rewrite Hstream, <- Hs, Htruthy.
  - repeat split.
    + intros key H1 H2. by apply jm_get_delete_ne.
    + by rewrite Hstream, <- Hs.
    + by rewrite delete_idempotent, Hstream.
    + apply jm_get_delete_eq.
    + by rewrite Hstream, <- Hs.
Qed.

(** [X14] A completion makes exactly one backend call, with the adjusted
    fields, through the client of the provider that the prefix of the
    model name selects: the client cached for the provider, or one created
    with the provider's key and cached, or the default client when no
    prefix matches.  When the client cannot be obtained, because no client
    is cached and the provider's key is unset or empty, or because the
    default client cannot be built, the completion throws, no call is made
    and the client cache is left as it was. *)
Theorem one_backend_call_per_completion getenv new_OpenAI create modelName
    options l :
  let run := Provider.createChatCompletion getenv new_OpenAI create modelName
               options l in
  let called client :=
    Provider.sent run.2
    = (Provider.sent l
       ++ [(client, modelName,
            Provider.optimizeParametersForProvider options modelName)])%list in
  match Provider.getProviderConfig modelName with
  | Some providerConfig =>
      let key := Provider.baseURL providerConfig in
      let apiKey := getenv (Provider.apiKeyEnv providerConfig) in
      match jm_get key (Provider.providerClients l) with
      | Some client =>
          called client
          /\ Provider.providerClients run.2 = Provider.providerClients l
      | None =>
          if truthy apiKey then
            called (Provider.ProviderClient (default "" apiKey) key)
            /\ Provider.providerClients run.2
               = jm_set key (Provider.ProviderClient (default "" apiKey) key)
                        (Provider.providerClients l)
          else
            run = (Throw ("Missing API key for "
                          ++ Provider.provider_name providerConfig
                          ++ ". Please set " ++ Provider.apiKeyEnv providerConfig
                          ++ " environment variable."), l)
      end
  | None =>
      match new_OpenAI with
      | Ok _ =>
          called Provider.DefaultClient
          /\ Provider.providerClients run.2 = Provider.providerClients l
      | Throw message => run = (Throw message, l)
      end
  end.
Proof.
  cbv zeta.
  unfold Provider.createChatCompletion, bind, lift_result, ret, throw,
    Provider.chat_completions.
  destruct (Provider.getProviderConfig modelName) as [providerConfig|].
  - unfold Provider.getProviderClient, bind, get, modify, throw, ret, jm_has.
    simpl.
    destruct (jm_get (Provider.baseURL providerConfig) (Provider.providerClients l))
      as [client|] eqn:Hcached; simpl.
    + rewrite Hcached.
      destruct (create client modelName _) as [response|e]; simpl; [|done].
      destruct (jm_get "stream" _) as [s|]; [|done].
      destruct (json_truthy s); [|done]. by destruct response.
    + destruct (truthy (getenv (Provider.apiKeyEnv providerConfig))) eqn:Hkey;
        cbn; [|done].
      rewrite !jm_get_set_eq.
      destruct (create _ modelName _) as [response|e]; simpl; [|done].
      destruct (jm_get "stream" _) as [s|]; [|done].
      destruct (json_truthy s); [|done]. by destruct response.
  - destruct new_OpenAI as [[]|message]; [|done].
    destruct (create Provider.DefaultClient modelName _) as [response|e];
      simpl; [|done].
    destruct (jm_get "stream" _) as [s|]; [|done].
    destruct (json_truthy s); [|done]. by destruct response.
Qed.

(** ** Tool schemas for Gemini *)

Section CleanFacts.
Import Gemini.

Lemma clean_object members :
  cleanSchemaProperties (JObj members) = JObj (clean_members members).
Proof. reflexivity. Qed.

Lemma clean_array items :
  cleanSchemaProperties (JArr items) = JObj (clean_elements 0 items).
Proof. reflexivity. Qed.

Lemma pretty_N_char_digit d : is_digit (pretty_N_char d) = true.
Proof. unfold pretty_N_char. by repeat case_match. Qed.

Lemma pretty_N_go_digits (c : ascii) x : forall s,
  is_digit c = false ->
  mentions c s = false -> mentions c (pretty_N_go x s) = false.
Proof.
  induction (N.lt_wf_0 x) as [x _ IH]. intros s Hc Hs.
  destruct (decide (0 < x)%N) as [Hpos|Hzero].
  - rewrite pretty_N_go_step by done. apply IH; [by apply N.div_lt|done|].
    simpl. rewrite Hs, orb_false_r.
    destruct (Ascii.eqb_spec (pretty_N_char (x `mod` 10)) c) as [<-|]; [|done].
    by rewrite pretty_N_char_digit in Hc.
  - assert (x = 0%N) as -> by lia. by rewrite pretty_N_go_0.
Qed.

Lemma show_digits (c : ascii) n : is_digit c = false -> mentions c (show n) = false.
Proof.
  intros Hc. unfold show, pretty, pretty_N. destruct (decide (n = 0%N)).
  - change (Ascii.eqb "0" c || false = false).
    destruct (Ascii.eqb_spec "0" c) as [<-|]; [by vm_compute in Hc|done].
  - by apply pretty_N_go_digits.
Qed.

Lemma index_not_skipped n : skipped (show n) = false.
Proof.
  unfold skipped, skipped_keywords. simpl.
  repeat match goal with
  | |- context [String.eqb (show n) ?k] =>
      let H := fresh in
      destruct (String.eqb_spec (show n) k) as [H|_];
      [exfalso;
       first [ pose proof (show_digits "a" n eq_refl) as Hd; rewrite H in Hd; done
             | pose proof (show_digits "o" n eq_refl) as Hd; rewrite H in Hd; done
             | pose proof (show_digits "n" n eq_refl) as Hd; rewrite H in Hd; done
             | pose proof (show_digits "$" n eq_refl) as Hd; rewrite H in Hd; done
             | pose proof (show_digits "e" n eq_refl) as Hd; rewrite H in Hd; done ]
      |]
  end.
  done.
Qed.

Lemma mentions_key_object key members :
  mentions_key key (JObj members) = false
  <-> Forall (fun e => String.eqb e.1 key = false /\ mentions_key key e.2 = false)
             members.
Proof.
  induction members as [|[k value] members IH].
  - split; [by constructor|done].
  - change (mentions_key key (JObj ((k, value) :: members)))
      with (String.eqb k key || mentions_key key value
            || mentions_key key (JObj members)).
    rewrite !orb_false_iff, IH. split.
    + intros [[Hk Hv] Hrest]. by constructor.
    + intros H. apply Forall_cons in H as [[Hk Hv] Hrest]. done.
Qed.

Lemma mentions_key_array key items :
  mentions_key key (JArr items) = false
  <-> Forall (fun value => mentions_key key value = false) items.
Proof.
  induction items as [|value items IH].
  - split; [by constructor|done].
  - change (mentions_key key (JArr (value :: items)))
      with (mentions_key key value || mentions_key key (JArr items)).
    rewrite orb_false_iff, IH. split.
    + intros [Hv Hrest]. by constructor.
    + intros H. by apply Forall_cons in H.
Qed.

Lemma skipped_differs key k :
  skipped key = true -> skipped k = false -> String.eqb k key = false.
Proof.
  intros Hkey Hk. destruct (String.eqb_spec k key) as [->|]; [|done].
  congruence.
Qed.

Lemma clean_removes key :
  skipped key = true ->
  forall j,
    mentions_key key (cleanSchemaProperties j) = false
    /\ mentions_key key (clean_value j) = false
    /\ mentions_key key (clean_item j) = false.
Proof.
  intros Hkey j.
  induction j as [|b|n|s|items IH|members IH] using Json_induction; try done.
  - assert (mentions_key key (cleanSchemaProperties (JArr items)) = false) as Hc.
    { rewrite clean_array. apply mentions_key_object. generalize 0%nat.
      induction IH as [|value items (_ & Hvalue & _) _ IHitems]; intros index;
        simpl; constructor; [|apply IHitems]. simpl.
      split; [|done]. apply skipped_differs; [done|apply index_not_skipped]. }
    split; [done|]. split; [|done].
    change (clean_value (JArr items)) with (JArr (List.map clean_item items)).
    apply mentions_key_array. clear Hc.
    induction IH as [|value items (_ & _ & Hitem) _ IHitems]; simpl;
      by constructor.
  - assert (mentions_key key (cleanSchemaProperties (JObj members)) = false) as Hc.
    { rewrite clean_object. apply mentions_key_object.
      induction IH as [|[k value] members (_ & Hvalue & _) _ IHmembers]; simpl;
        [by constructor|].
      destruct (skipped k) eqn:Hk; [done|]. constructor; [|done]. simpl.
      split; [|done]. by apply skipped_differs. }
    done.
Qed.

Lemma fixed_members_clean l : fixed_members l -> clean_members l = l.
Proof.
  induction 1 as [|[k value] l [Hk Hvalue] _ IH]; [done|]. simpl in *.
  by rewrite Hk, Hvalue, IH.
Qed.

Lemma clean_idempotent j :
  cleanSchemaProperties (cleanSchemaProperties j) = cleanSchemaProperties j
  /\ clean_value (clean_value j) = clean_value j
  /\ clean_item (clean_item j) = clean_item j.
Proof.
  induction j as [|b|n|s|items IH|members IH] using Json_induction; try done.
  - assert (cleanSchemaProperties (cleanSchemaProperties (JArr items))
            = cleanSchemaProperties (JArr items)) as Hc.
    { rewrite clean_array, clean_object. f_equal. apply fixed_members_clean.
      generalize 0%nat.
      induction IH as [|value items (_ & Hvalue & _) _ IHitems]; intros index;
        simpl; constructor; [|apply IHitems]. simpl.
      split; [apply index_not_skipped|done]. }
    split; [done|]. split.
    + change (clean_value (JArr items)) with (JArr (List.map clean_item items)).
      change (clean_value (JArr (List.map clean_item items)))
        with (JArr (List.map clean_item (List.map clean_item items))).
      f_equal. clear Hc.
      induction IH as [|value items (_ & _ & Hitem) _ IHitems]; [done|].
      simpl. by rewrite Hitem, IHitems.
    + change (clean_item (JArr items)) with (cleanSchemaProperties (JArr items)).
      rewrite clean_array.
      change (clean_item (JObj (clean_elements 0 items)))
        with (cleanSchemaProperties (JObj (clean_elements 0 items))).
      by rewrite <- clean_array.
  - assert (cleanSchemaProperties (cleanSchemaProperties (JObj members))
            = cleanSchemaProperties (JObj members)) as Hc.
    { rewrite !clean_object. f_equal. apply fixed_members_clean.
      induction IH as [|[k value] members (_ & Hvalue & _) _ IHmembers]; simpl;
        [by constructor|].
      destruct (skipped k) eqn:Hk; [done|]. by constructor. }
    split; [done|]. split.
    + change (clean_value (JObj members)) with (cleanSchemaProperties (JObj members)).
      rewrite clean_object.
      change (clean_value (JObj (clean_members members)))
        with (cleanSchemaProperties (JObj (clean_members members))).
      by rewrite <- clean_object.
    + change (clean_item (JObj members)) with (cleanSchemaProperties (JObj members)).
      rewrite clean_object.
      change (clean_item (JObj (clean_members members)))
        with (cleanSchemaProperties (JObj (clean_members members))).
      by rewrite <- clean_object.
Qed.

End CleanFacts.

(** [X15] Cleaning a schema removes every skipped keyword ([anyOf],
    [oneOf], [allOf], [not], [$ref], [const], [examples], [default],
    [$schema], [additionalProperties]) at every depth, inside objects and
    arrays alike, and cleaning a cleaned schema changes nothing. *)
Theorem cleaned_schema_has_no_skipped_keyword obj :
  Forall (fun key => mentions_key key (Gemini.cleanSchemaProperties obj) = false)
         Gemini.skipped_keywords
  /\ Gemini.cleanSchemaProperties (Gemini.cleanSchemaProperties obj)
     = Gemini.cleanSchemaProperties obj.
Proof.
  split; [|apply clean_idempotent].
  repeat constructor; by apply clean_removes.
Qed.

Section SanitizeFacts.
Import Gemini.

Lemma delete_absent {V} key (object : list (string * V)) :
  jm_get key object = None -> delete key object = object.
Proof.
  unfold delete. induction object as [|[k v] object IH]; simpl; [done|].
  destruct (decide (key = k)) as [->|Hne]; [done|]. intros H.
  rewrite (proj2 (String.eqb_neq k key)) by done. simpl. by rewrite IH.
Qed.

Lemma fixed_members_cleaned members : fixed_members (clean_members members).
Proof.
  induction members as [|[k value] members IH]; simpl; [by constructor|].
  destruct (skipped k) eqn:Hk; [done|]. constructor; [|done]. simpl.
  split; [done|]. apply clean_idempotent.
Qed.

Lemma fixed_members_elements items : forall index,
  fixed_members (clean_elements index items).
Proof.
  induction items as [|value items IH]; intros index; simpl; constructor;
    [|apply IH].
  simpl. split; [apply index_not_skipped|apply clean_idempotent].
Qed.

Lemma clean_members_length l : (length (clean_members l) <= length l)%nat.
Proof.
  induction l as [|[k value] l IH]; simpl; [done|].
  destruct (skipped k); simpl; lia.
Qed.

Lemma fixed_members_of_eq l : clean_members l = l -> fixed_members l.
Proof.
  induction l as [|[k value] l IH]; simpl; [by constructor|].
  destruct (skipped k) eqn:Hk.
  - intros Heq. pose proof (clean_members_length l) as Hlen.
    rewrite Heq in Hlen. simpl in Hlen. lia.
  - intros [= Hvalue Hrest]. constructor; [done|]. by apply IH.
Qed.

(** The properties of a cleaned schema, whatever the schema was. *)
Lemma cleaned_properties properties members :
  cleanSchemaProperties properties = JObj members -> fixed_members members.
Proof.
  destruct properties as [| | | |items|l]; try done.
  - rewrite clean_array. intros [= <-]. apply fixed_members_elements.
  - rewrite clean_object. intros [= <-]. apply fixed_members_cleaned.
Qed.

Lemma ensure_basic_type_fixed propSchema propSchema' :
  clean_value propSchema = propSchema ->
  ensure_basic_type propSchema = Ok propSchema' ->
  clean_value propSchema' = propSchema'.
Proof.
  intros Hfixed. unfold ensure_basic_type.
  destruct propSchema as [| | | |items|fields]; try by intros [= <-].
  destruct (jm_get "type" fields) as [t|]; [|by intros [= <-]].
  destruct (json_truthy t && negb (is_basic_type t)); [|by intros [= <-]].
  intros [= <-].
  change (cleanSchemaProperties (JObj (jm_set "type" (JStr "string") fields))
          = JObj (jm_set "type" (JStr "string") fields)).
  rewrite clean_object. f_equal. apply fixed_members_clean.
  apply jm_set_Forall; [|done].
  apply fixed_members_of_eq.
  change (cleanSchemaProperties (JObj fields) = JObj fields) in Hfixed.
  rewrite clean_object in Hfixed. by injection Hfixed.
Qed.

Lemma ensure_basic_type_settled propSchema propSchema' :
  ensure_basic_type propSchema = Ok propSchema' ->
  ensure_basic_type propSchema' = Ok propSchema'.
Proof.
  unfold ensure_basic_type.
  destruct propSchema as [| | | |items|fields]; try by intros [= <-].
  destruct (jm_get "type" fields) as [t|] eqn:Htype.
  - destruct (json_truthy t && negb (is_basic_type t)) eqn:Hodd.
    + intros [= <-]. by rewrite jm_get_set_eq.
    + intros [= <-]. by rewrite Htype, Hodd.
  - intros [= <-]. by rewrite Htype.
Qed.

Lemma ensure_basic_types_settled properties properties' :
  ensure_basic_types properties = Ok properties' ->
  ensure_basic_types properties' = Ok properties'
  /\ (fixed_members properties -> fixed_members properties')
  /\ (forall key,
        skipped key = true ->
        mentions_key key (JObj properties) = false ->
        mentions_key key (JObj properties') = false)
  /\ (forall name fields t,
        In (name, JObj fields) properties' ->
        jm_get "type" fields = Some t -> json_truthy t = true ->
        is_basic_type t = true).
Proof.
  revert properties'.
  induction properties as [|[name propSchema] properties IH]; intros properties'.
  { intros [= <-]. repeat split; try done. }
  cbn [ensure_basic_types].
  destruct (ensure_basic_type propSchema) as [propSchema'|] eqn:Hone; [|done].
  destruct (ensure_basic_types properties) as [rest'|]; [|done].
  intros [= <-]. destruct (IH rest' eq_refl) as (Hagain & Hfixed & Hclean & Htypes).
  split; [|split; [|split]].
  - simpl. by rewrite (ensure_basic_type_settled _ _ Hone), Hagain.
  - intros Hall. apply Forall_cons in Hall as [[Hname Hvalue] Hall].
    constructor; [|by apply Hfixed]. simpl. split; [done|].
    by apply (ensure_basic_type_fixed propSchema).
  - intros key Hkey Hmentions.
    apply mentions_key_object in Hmentions.
    apply Forall_cons in Hmentions as [[Hname Hvalue] Hrest].
    apply mentions_key_object. constructor.
    + simpl in *. split; [done|]. revert Hone. unfold ensure_basic_type.
      destruct propSchema as [| | | |items|fields]; try by intros [= <-].
      destruct (jm_get "type" fields) as [t|]; [|by intros [= <-]].
      destruct (json_truthy t && negb (is_basic_type t)); [|by intros [= <-]].
      intros [= <-]. apply mentions_key_object. apply mentions_key_object in Hvalue.
      apply jm_set_Forall; [done|]. cbn [fst snd]. split; [|done].
      destruct (String.eqb_spec "type" key) as [<-|]; [|done].
      by vm_compute in Hkey.
    + apply mentions_key_object. apply Hclean; [done|].
      by apply mentions_key_object.
  - intros name' fields t [Hhere|Hin] Htype Htruthy; [|by eapply Htypes].
    injection Hhere as -> ->. revert Hone. unfold ensure_basic_type.
    destruct propSchema as [| | | |items|fields0]; try done.
    destruct (jm_get "type" fields0) as [t0|] eqn:Ht0.
    + destruct (json_truthy t0 && negb (is_basic_type t0)) eqn:Hodd.
      * intros [= <-]. rewrite jm_get_set_eq in Htype. by injection Htype as <-.
      * intros [= <-]. rewrite Ht0 in Htype. injection Htype as ->.
        rewrite Htruthy in Hodd. simpl in Hodd. by destruct (is_basic_type t).
    + intros [= <-]. congruence.
Qed.

Lemma ensure_basic_types_null properties name :
  In (name, JNull) properties ->
  ensure_basic_types properties
  = Throw "Cannot read properties of null (reading 'type')".
Proof.
  induction properties as [|[n propSchema] properties IH]; [done|].
  intros [Hhere|Hin].
  - by injection Hhere as -> ->.
  - simpl. rewrite (IH Hin).
    unfold ensure_basic_type.
    destruct propSchema as [| | | |items|fields]; try done.
    destruct (jm_get "type" fields) as [t|]; [|done].
    by destruct (json_truthy t && negb (is_basic_type t)).
Qed.

End SanitizeFacts.

Section PrepareFacts.
Import Gemini.

Lemma jm_get_set_other {V} (k k' : string) (v : V) m :
  k <> k' -> jm_get k (jm_set k' v m) = jm_get k m.
Proof. intros H. apply jm_get_set_ne. congruence. Qed.

(** What [prepare] leaves under the keys that the sanitizer reads. *)
Lemma prepare_spec params :
  jm_get "$schema" (prepare params) = None
  /\ jm_get "additionalProperties" (prepare params) = None
  /\ (exists required, jm_get "required" (prepare params) = Some (JArr required))
  /\ jm_get "properties" (prepare params)
     = match jm_get "properties" params with
       | Some properties =>
           if json_truthy properties
           then Some (cleanSchemaProperties properties)
           else Some properties
       | None => None
       end.
Proof.
  unfold prepare.
  set (p1 := delete "additionalProperties" (delete "$schema" params)).
  assert (jm_get "$schema" p1 = None) as Hschema.
  { unfold p1. rewrite jm_get_delete_ne by done. apply jm_get_delete_eq. }
  assert (jm_get "additionalProperties" p1 = None) as Hadditional.
  { apply jm_get_delete_eq. }
  assert (jm_get "properties" p1 = jm_get "properties" params) as Hproperties.
  { unfold p1. by rewrite !jm_get_delete_ne. }
  set (p2 := match jm_get "properties" p1 with
             | Some properties =>
                 if json_truthy properties
                 then jm_set "properties" (cleanSchemaProperties properties) p1
                 else p1
             | None => p1
             end).
  assert (jm_get "$schema" p2 = None /\ jm_get "additionalProperties" p2 = None
          /\ jm_get "properties" p2
             = match jm_get "properties" params with
               | Some properties =>
                   if json_truthy properties
                   then Some (cleanSchemaProperties properties)
                   else Some properties
               | None => None
               end) as (Hschema2 & Hadditional2 & Hproperties2).
  { unfold p2. rewrite <- Hproperties.
    destruct (jm_get "properties" p1) as [properties|] eqn:Hp; [|done].
    destruct (json_truthy properties); [|done].
    rewrite !jm_get_set_other by done. by rewrite jm_get_set_eq. }
  destruct (jm_get "required" p2) as [[| | | |required|]|] eqn:Hrequired;
    rewrite ?jm_get_set_eq, ?jm_get_set_other by done; eauto 10.
Qed.

End PrepareFacts.

Section SanitizeTheorems.
Import Gemini.

Lemma prepare_fixed members required :
  jm_get "$schema" members = None ->
  jm_get "additionalProperties" members = None ->
  jm_get "required" members = Some (JArr required) ->
  match jm_get "properties" members with
  | Some properties =>
      json_truthy properties = true -> cleanSchemaProperties properties = properties
  | None => True
  end ->
  prepare members = members.
Proof.
  intros Hschema Hadditional Hrequired Hproperties. unfold prepare.
  rewrite (delete_absent "$schema") by done.
  rewrite (delete_absent "additionalProperties") by done.
  destruct (jm_get "properties" members) as [properties|] eqn:Hp.
  - destruct (json_truthy properties).
    + rewrite Hproperties by done. rewrite jm_set_present by done.
      by rewrite Hrequired.
    + by rewrite Hrequired.
  - by rewrite Hrequired.
Qed.

Lemma sanitize_object tool params :
  fn_parameters tool = JObj params ->
  sanitizeToolSchemaForGemini tool
  = match jm_get "properties" (prepare params) with
    | Some (JObj properties) =>
        match ensure_basic_types properties with
        | Ok properties' =>
            Ok (with_parameters
                  (JObj (jm_set "properties" (JObj properties') (prepare params)))
                  tool)
        | Throw e => Throw e
        end
    | _ => Ok (with_parameters (JObj (prepare params)) tool)
    end.
Proof. intros H. unfold sanitizeToolSchemaForGemini. by rewrite H. Qed.

(** The sanitized tool, when its parameters are an object. *)
Lemma sanitize_object_spec tool params sanitized :
  fn_parameters tool = JObj params ->
  sanitizeToolSchemaForGemini tool = Ok sanitized ->
  exists final required,
    sanitized = with_parameters (JObj final) tool
    /\ jm_get "$schema" final = None
    /\ jm_get "additionalProperties" final = None
    /\ jm_get "required" final = Some (JArr required)
    /\ match jm_get "properties" final with
       | Some (JObj properties) =>
           fixed_members properties
           /\ ensure_basic_types properties = Ok properties
           /\ (forall key, skipped key = true ->
                 mentions_key key (JObj properties) = false)
           /\ (forall name fields t,
                 In (name, JObj fields) properties ->
                 jm_get "type" fields = Some t -> json_truthy t = true ->
                 is_basic_type t = true)
       | Some properties =>
           cleanSchemaProperties properties = properties
           /\ forall key, mentions_key key properties = false
       | None => True
       end.
Proof.
  intros Hparams. rewrite (sanitize_object tool params Hparams).
  destruct (prepare_spec params)
    as (Hschema & Hadditional & [required Hrequired] & Hproperties).
  destruct (jm_get "properties" (prepare params)) as [properties|] eqn:Hp.
  2: { intros [= <-]. exists (prepare params), required. by rewrite Hp. }
  assert (properties_cleaned :
            cleanSchemaProperties properties = properties
            /\ (forall key, skipped key = true ->
                  mentions_key key properties = false)).
  { destruct (jm_get "properties" params) as [original|]; [|done].
    destruct (json_truthy original) eqn:Htruthy; injection Hproperties as ->.
    - split; [apply clean_idempotent|]. intros key Hkey. by apply clean_removes.
    - by destruct original. }
  destruct properties_cleaned as [Hclean Habsent].
  destruct properties as [| | | |items|properties];
    try (intros [= <-]; exists (prepare params), required; rewrite Hp;
         repeat split; done).
  destruct (ensure_basic_types properties) as [properties'|] eqn:Hensure;
    [|done].
  intros [= <-].
  destruct (ensure_basic_types_settled _ _ Hensure)
    as (Hagain & Hfixed & Hkeys & Htypes).
  exists (jm_set "properties" (JObj properties') (prepare params)), required.
  rewrite jm_get_set_eq, !jm_get_set_other by done.
  repeat split; try done.
  - apply Hfixed. rewrite clean_object in Hclean.
    apply fixed_members_of_eq. by injection Hclean.
  - intros key Hkey. apply Hkeys; [done|]. by apply Habsent.
Qed.

Lemma sanitize_cases tool sanitized :
  sanitizeToolSchemaForGemini tool = Ok sanitized ->
  (json_truthy (fn_parameters tool) = false
   /\ sanitized = with_parameters EMPTY_PARAMETERS tool)
  \/ (exists items, fn_parameters tool = JArr items /\ sanitized = tool)
  \/ (exists params, fn_parameters tool = JObj params).
Proof.
  unfold sanitizeToolSchemaForGemini.
  destruct (json_truthy (fn_parameters tool)) eqn:Htruthy; simpl.
  - destruct (fn_parameters tool) as [| | | |items|params]; try done.
    + intros [= <-]. right. left. by exists items.
    + intros _. right. right. by exists params.
  - intros [= <-]. by left.
Qed.

End SanitizeTheorems.

(** [X16] A tool that the sanitizer returns keeps its name, description
    and server.  Unless its parameters were an array, they are an object
    without [$schema] and [additionalProperties] whose [required] member
    is an array; no skipped keyword occurs anywhere inside its
    [properties]; and every top-level property schema with a truthy [type]
    has one of the types [string], [number], [boolean], [array],
    [object]. *)
Theorem sanitized_tool_shape tool sanitized :
  Gemini.sanitizeToolSchemaForGemini tool = Ok sanitized ->
  fn_name sanitized = fn_name tool
  /\ fn_description sanitized = fn_description tool
  /\ _mcpServerName sanitized = _mcpServerName tool
  /\ match fn_parameters sanitized with
     | JObj params =>
         jm_get "$schema" params = None
         /\ jm_get "additionalProperties" params = None
         /\ (exists required, jm_get "required" params = Some (JArr required))
         /\ (forall properties,
               jm_get "properties" params = Some properties ->
               Forall (fun key => mentions_key key properties = false)
                      Gemini.skipped_keywords)
         /\ (forall properties name fields t,
               jm_get "properties" params = Some (JObj properties) ->
               In (name, JObj fields) properties ->
               jm_get "type" fields = Some t -> json_truthy t = true ->
               Gemini.is_basic_type t = true)
     | JArr items => fn_parameters tool = JArr items
     | _ => False
     end.
Proof.
  intros Hrun.
  destruct (sanitize_cases tool sanitized Hrun)
    as [[_ ->]|[(items & Hitems & ->)|[params Hparams]]].
  - repeat split; try done.
    + eexists. reflexivity.
    + intros properties [= <-]. by repeat constructor.
    + by intros properties name fields t [= <-].
  - by rewrite Hitems.
  - destruct (sanitize_object_spec tool params sanitized Hparams Hrun)
      as (final & required & -> & Hschema & Hadditional & Hrequired & Hfinal).
    repeat split; try done; simpl.
    + by exists required.
    + intros properties Hp. rewrite Hp in Hfinal.
      destruct properties as [| | | |items|properties];
        destruct Hfinal as [_ Hfinal]; repeat constructor; by apply Hfinal.
    + intros properties name fields t Hp. rewrite Hp in Hfinal.
      destruct Hfinal as (_ & _ & _ & Hfinal). apply Hfinal.
Qed.

Lemma sanitized_tool_shape_witness :
  let tool :=
    {| fn_name := "search"; fn_description := "Searches";
       fn_parameters :=
         JObj [("$schema", JStr "http://json-schema.org/draft-07/schema#");
               ("type", JStr "object");
               ("properties",
                JObj [("limit", JObj [("type", JStr "integer");
                                      ("default", JNum 10)]);
                      ("query", JObj [("anyOf", JArr [JObj [("type", JStr "string")]])])]);
               ("additionalProperties", JBool false)];
       _mcpServerName := Some "fs"; _isPerRequest := false |} in
  let sanitized :=
    {| fn_name := "search"; fn_description := "Searches";
       fn_parameters :=
         JObj [("type", JStr "object");
               ("properties",
                JObj [("limit", JObj [("type", JStr "string")]);
                      ("query", JObj [])]);
               ("required", JArr [])];
       _mcpServerName := Some "fs"; _isPerRequest := false |} in
  Gemini.sanitizeToolSchemaForGemini tool = Ok sanitized
  /\ fn_name sanitized = fn_name tool.
Proof.
  intros tool sanitized.
  assert (Gemini.sanitizeToolSchemaForGemini tool = Ok sanitized) as Hrun.
  { reflexivity. }
  split; [exact Hrun|].
  exact (proj1 (sanitized_tool_shape tool sanitized Hrun)).
Defined.

Lemma sanitize_idempotent tool sanitized :
  Gemini.sanitizeToolSchemaForGemini tool = Ok sanitized ->
  Gemini.sanitizeToolSchemaForGemini sanitized = Ok sanitized.
Proof.
  intros Hrun.
  destruct (sanitize_cases tool sanitized Hrun)
    as [[_ ->]|[(items & Hitems & ->)|[params Hparams]]]; [done|done|].
  destruct (sanitize_object_spec tool params sanitized Hparams Hrun)
    as (final & required & -> & Hschema & Hadditional & Hrequired & Hfinal).
  rewrite (sanitize_object _ final) by done.
  assert (Gemini.prepare final = final) as ->.
  { apply (prepare_fixed final required); try done.
    destruct (jm_get "properties" final) as [properties|]; [|done].
    intros _. destruct properties as [| | | |items|properties]; try apply Hfinal.
    rewrite clean_object. f_equal. apply fixed_members_clean, Hfinal. }
  destruct (jm_get "properties" final) as [properties|] eqn:Hp; [|done].
  destruct properties as [| | | |items|properties]; try done.
  destruct Hfinal as (_ & -> & _). by rewrite jm_set_present.
Qed.

(** The list that [tools.map] returns: one sanitized tool per tool. *)
Lemma sanitize_all_spec tools : forall sanitizedTools,
  Gemini.sanitize_all tools = Ok sanitizedTools ->
  Forall2 (fun tool sanitized =>
             Gemini.sanitizeToolSchemaForGemini tool = Ok sanitized)
          tools sanitizedTools.
Proof.
  induction tools as [|tool tools IH]; intros sanitizedTools; simpl.
  - intros [= <-]. constructor.
  - destruct (Gemini.sanitizeToolSchemaForGemini tool) as [sanitized|] eqn:Hone;
      [|done].
    destruct (Gemini.sanitize_all tools) as [rest|]; [|done].
    intros [= <-]. constructor; [done|]. by apply IH.
Qed.

Lemma sanitize_all_idempotent tools sanitizedTools :
  Forall2 (fun tool sanitized =>
             Gemini.sanitizeToolSchemaForGemini tool = Ok sanitized)
          tools sanitizedTools ->
  Gemini.sanitize_all sanitizedTools = Ok sanitizedTools.
Proof.
  induction 1 as [|tool sanitized tools rest Hone _ IH]; [done|].
  simpl. by rewrite (sanitize_idempotent tool sanitized Hone), IH.
Qed.

(** [X17] Sanitizing a sanitized tool changes nothing, and so does
    optimizing a list of tools that [optimizeToolsForProvider] returned
    for the same model.  The list returned has one tool for each tool
    given, which for a [gemini-] model is that tool sanitized. *)
Theorem sanitizing_twice :
  (forall tool sanitized,
     Gemini.sanitizeToolSchemaForGemini tool = Ok sanitized ->
     Gemini.sanitizeToolSchemaForGemini sanitized = Ok sanitized)
  /\ (forall tools modelName optimized,
        Gemini.optimizeToolsForProvider tools modelName = Ok optimized ->
        Gemini.optimizeToolsForProvider optimized modelName = Ok optimized
        /\ if startsWith modelName "gemini-"
           then Forall2 (fun tool sanitized =>
                           Gemini.sanitizeToolSchemaForGemini tool = Ok sanitized)
                        (default [] tools) (default [] optimized)
           else optimized = tools).
Proof.
  split; [exact sanitize_idempotent|].
  intros tools modelName optimized. unfold Gemini.optimizeToolsForProvider.
  destruct tools as [[|tool rest]|].
  - intros [= <-]. split; [done|]. destruct (startsWith _ _); [constructor|done].
  - destruct (startsWith modelName "gemini-") eqn:Hgemini; simpl negb; cbv iota.
    + destruct (Gemini.sanitize_all (tool :: rest)) as [sanitizedTools|] eqn:Hall;
        [|done].
      intros [= <-]. pose proof (sanitize_all_spec _ _ Hall) as Hspec.
      split; [|exact Hspec].
      pose proof (sanitize_all_idempotent _ _ Hspec) as Hagain.
      destruct sanitizedTools as [|sanitized others]; [done|].
      rewrite ?Hgemini. cbv iota. by rewrite Hagain.
    + intros [= <-]. split; [|done]. by rewrite ?Hgemini.
  - intros [= <-]. split; [done|]. destruct (startsWith _ _); [constructor|done].
Qed.

Lemma sanitizing_twice_witness :
  let tool :=
    {| fn_name := "search"; fn_description := "Searches";
       fn_parameters :=
         JObj [("properties",
                JObj [("limit", JObj [("type", JStr "integer");
                                      ("const", JNum 10)])])];
       _mcpServerName := None; _isPerRequest := false |} in
  let sanitized :=
    Gemini.with_parameters
      (JObj [("properties", JObj [("limit", JObj [("type", JStr "string")])]);
             ("required", JArr [])]) tool in
  Gemini.sanitizeToolSchemaForGemini tool = Ok sanitized
  /\ Gemini.sanitizeToolSchemaForGemini sanitized = Ok sanitized
  /\ Gemini.optimizeToolsForProvider (Some [sanitized]) "gemini-pro"
     = Ok (Some [sanitized]).
Proof.
  intros tool sanitized.
  assert (Gemini.sanitizeToolSchemaForGemini tool = Ok sanitized) as Hrun.
  { reflexivity. }
  assert (Gemini.optimizeToolsForProvider (Some [tool]) "gemini-pro"
          = Ok (Some [sanitized])) as Hall.
  { reflexivity. }
  split; [exact Hrun|]. split.
  - exact (proj1 sanitizing_twice tool sanitized Hrun).
  - exact (proj1 (proj2 sanitizing_twice _ _ _ Hall)).
Defined.

(** [X18] A property whose schema is [null] makes the sanitizer throw: the
    cleaning keeps a [null] value, and the loop that normalizes the types
    then reads [type] of it. *)
Theorem null_property_schema_throws tool params properties name :
  fn_parameters tool = JObj params ->
  jm_get "properties" params = Some (JObj properties) ->
  In (name, JNull) properties ->
  Gemini.skipped name = false ->
  Gemini.sanitizeToolSchemaForGemini tool
  = Throw "Cannot read properties of null (reading 'type')".
Proof.
  intros Hparams Hproperties Hin Hname.
  rewrite (sanitize_object tool params Hparams).
  destruct (prepare_spec params) as (_ & _ & _ & Hp).
  rewrite Hproperties in Hp. simpl in Hp. rewrite Hp.
  rewrite (ensure_basic_types_null _ name); [done|].
  clear -Hin Hname. induction properties as [|[k value] properties IH]; [done|].
  simpl. destruct Hin as [[= -> ->]|Hin].
  - rewrite Hname. by left.
  - destruct (Gemini.skipped k); [by apply IH|]. right. by apply IH.
Qed.

Lemma null_property_schema_throws_witness :
  Gemini.sanitizeToolSchemaForGemini
    {| fn_name := "search"; fn_description := "Searches";
       fn_parameters := JObj [("properties", JObj [("query", JNull)])];
       _mcpServerName := None; _isPerRequest := false |}
  = Throw "Cannot read properties of null (reading 'type')".
Proof.
  apply (null_property_schema_throws _ [("properties", JObj [("query", JNull)])]
           [("query", JNull)] "query"); try reflexivity.
  by left.
Defined.

(** ** The catalog and the routing table *)

Lemma register_tools_spec serverName ts w :
  register_tools serverName ts w
  = (Ok tt,
     set_toolToServerMap
       (foldl (fun m t => <[mt_name t := serverName]> m) (toolToServerMap w) ts) w).
Proof. done. Qed.

Lemma registered_lookup serverName ts : forall (table : gmap string string) n,
  foldl (fun m t => <[mt_name t := serverName]> m) table ts !! n
  = if bool_decide (n ∈ List.map mt_name ts) then Some serverName else table !! n.
Proof.
  induction ts as [|t ts IH]; intros table n; simpl; [done|].
  rewrite IH. destruct (decide (n = mt_name t)) as [->|Hne].
  - rewrite lookup_insert_eq. rewrite (bool_decide_eq_true_2 (_ ∈ _ :: _)).
    + by case_bool_decide.
    + by left.
  - rewrite lookup_insert_ne by done.
    case_bool_decide as Hin.
    + rewrite bool_decide_eq_true_2; [done|]. by right.
    + rewrite bool_decide_eq_false_2; [done|].
      intros H. apply elem_of_cons in H as [?|?]; done.
Qed.

(** What the loop over the registry returns and registers. *)
Lemma collect_global_tools_routable env entries : forall w,
  exists ts,
    (collect_global_tools env entries w).1 = Ok ts
    /\ mcpServerInstances (collect_global_tools env entries w).2
       = mcpServerInstances w
    /\ (forall n s,
          toolToServerMap (collect_global_tools env entries w).2 !! n = Some s ->
          toolToServerMap w !! n = Some s
          \/ exists i, In (s, i) entries /\ connected_over_http i = true)
    /\ (forall n,
          is_Some (toolToServerMap w !! n) ->
          is_Some (toolToServerMap (collect_global_tools env entries w).2 !! n))
    /\ Forall (fun t =>
                 is_Some (toolToServerMap (collect_global_tools env entries w).2
                          !! fn_name t)) ts.
Proof.
  induction entries as [|[serverName instance] entries IH]; intros w.
  - exists []. simpl. repeat split; auto.
  - simpl.
    set (step := if negb (initialized instance) then ret []
                 else try_catch _ _).
    unfold bind.
    assert (exists formatted w1,
              step w = (Ok formatted, w1)
              /\ mcpServerInstances w1 = mcpServerInstances w
              /\ (forall n s, toolToServerMap w1 !! n = Some s ->
                    toolToServerMap w !! n = Some s
                    \/ (s = serverName /\ connected_over_http instance = true))
              /\ (forall n, is_Some (toolToServerMap w !! n) ->
                    is_Some (toolToServerMap w1 !! n))
              /\ Forall (fun t => is_Some (toolToServerMap w1 !! fn_name t))
                        formatted)
      as (formatted & w1 & -> & Hreg & Hfrom & Hmono & Hall).
    { unfold step, connected_over_http.
      destruct (initialized instance); simpl.
      2: { exists [], w. repeat split; auto. }
      unfold try_catch.
      destruct (decide (type instance = Command)) as [Hc|Hc].
      { rewrite (bool_decide_eq_true_2 _ Hc). exists [], w. repeat split; auto. }
      rewrite (bool_decide_eq_false_2 _ Hc). simpl.
      unfold bind at 1.
      pose proof (mcpRequest_preserves env toolToServerMap serverName "tools/list"
                    ParamsEmpty (sessionId instance) None ltac:(done) w) as Htable.
      pose proof (mcpRequest_preserves env mcpServerInstances serverName
                    "tools/list" ParamsEmpty (sessionId instance) None
                    ltac:(done) w) as Hinstances.
      destruct (_mcpRequest env serverName "tools/list" ParamsEmpty
                  (sessionId instance) None w) as [[r|e] w0]; simpl in *.
      2: { exists [], w0. unfold ret. repeat split; auto.
           - intros n s. rewrite Htable. auto.
           - intros n. by rewrite Htable. }
      unfold bind, ret.
      eexists _, _. split; [reflexivity|]. simpl.
      split; [done|]. split; [|split].
      - intros n s. rewrite registered_lookup, Htable.
        case_bool_decide; [intros [= <-]; by right|by left].
      - intros n. rewrite registered_lookup, Htable. by case_bool_decide.
      - apply Forall_forall. intros t Ht.
        apply list_elem_of_In, in_map_iff in Ht as (mt & <- & Hmt).
        simpl. rewrite registered_lookup.
        rewrite bool_decide_eq_true_2; [done|].
        apply list_elem_of_In, in_map_iff. by exists mt. }
    destruct (IH w1) as (more & Hmore & Hreg' & Hfrom' & Hmono' & Hall').
    unfold ret.
    destruct (collect_global_tools env entries w1) as [r w2]. simpl in *.
    subst r. exists (formatted ++ more)%list. simpl.
    split; [done|]. split; [congruence|]. split; [|split].
    + intros n s Hn. destruct (Hfrom' n s Hn) as [Hw1|(i & Hin & Hi)].
      * destruct (Hfrom n s Hw1) as [Hw|[-> Hi]]; [by left|].
        right. exists instance. split; [by left|done].
      * right. exists i. split; [by right|done].
    + intros n Hn. by apply Hmono', Hmono.
    + apply Forall_app. split; [|done].
      eapply Forall_impl; [exact Hall|]. simpl. intros t Ht. by apply Hmono'.
Qed.

(** [X19] Refreshing the catalog never throws and leaves the registry as
    it was.  The routing table is rebuilt from nothing: every tool of the
    catalog returned is registered in it, and every server that it names
    is a registered instance that is initialized and not command-based. *)
Theorem catalog_tools_are_routable env w :
  let run := _getMCPToolsInternal env w in
  exists ts,
    run.1 = Ok ts
    /\ mcpServerInstances run.2 = mcpServerInstances w
    /\ Forall (fun t => is_Some (toolToServerMap run.2 !! fn_name t)) ts
    /\ forall n s,
         toolToServerMap run.2 !! n = Some s ->
         exists i, In (s, i) (mcpServerInstances w)
                   /\ initialized i = true /\ type i <> Command.
Proof.
  cbv zeta. unfold _getMCPToolsInternal, bind, modify, get. simpl.
  destruct (collect_global_tools_routable env (mcpServerInstances w)
              (set_toolToServerMap ∅ w))
    as (ts & Hrun & Hreg & Hfrom & _ & Hall).
  simpl in *. exists ts. split; [done|]. split; [done|]. split; [done|].
  intros n s Hn. destruct (Hfrom n s Hn) as [Hempty|(i & Hin & Hi)].
  - by rewrite lookup_empty in Hempty.
  - exists i. split; [done|]. unfold connected_over_http in Hi.
    apply andb_true_iff in Hi as [Hinit Hkind]. split; [done|].
    apply negb_true_iff, bool_decide_eq_false in Hkind. done.
Qed.

(** ** What the generator yields *)

Lemma chunks_of_app ys ys' : chunks_of (ys ++ ys') = (chunks_of ys ++ chunks_of ys')%list.
Proof. apply flat_map_app. Qed.

Lemma consume_chunk_chunks fb acc chunk ys w :
  chunks_of (consume_chunk fb acc chunk (ys, w)).2.1
  = (chunks_of ys ++ replicate (copies chunk) chunk)%list.
Proof.
  unfold consume_chunk, copies, bind, yield_event, yield, lift_world, Date_now,
    ret.
  destruct acc as [body buffer has]; simpl.
  destruct (truthy (delta_content chunk)), (delta_tool_calls chunk) as [deltas|],
    (truthy (finish_reason chunk)), fb; simpl;
    try destruct (length buffer =? 0)%nat; simpl;
    rewrite ?chunks_of_app; simpl; rewrite <- ?app_assoc; simpl;
    by rewrite ?app_nil_r.
Qed.

(** [X20] While the initial stream is drained, a chunk is yielded once for
    each of its content, its tool-call deltas and its finish reason, all
    before the next chunk is yielded: up to three times, and not at all
    when it carries none of them.  This holds with and without execution
    feedback. *)
Theorem chunk_yielded_per_part fb cs acc ys w :
  chunks_of (drain fb cs acc (ys, w)).2.1
  = (chunks_of ys ++ flat_map (fun tc => replicate (copies tc.2) tc.2) cs)%list.
Proof.
  revert acc ys w. induction cs as [|[t chunk] cs IH]; intros acc ys w.
  - simpl. by rewrite app_nil_r.
  - simpl. unfold bind at 1. simpl. unfold bind at 1.
    pose proof (consume_chunk_chunks fb acc chunk ys (set_clock t w)) as Hstep.
    destruct (consume_chunk_spec fb acc chunk ys (set_clock t w)) as [ys1 Hrun].
    rewrite Hrun in *. simpl in Hstep.
    rewrite IH, Hstep. by rewrite <- app_assoc.
Qed.

Section YieldFrames.
Context (env : Environment).

Lemma lift_world_keeps_yields {A X} (keep : list Yielded -> X) (m : M World A) :
  preserves (S := list Yielded * World) (keep ∘ fst) (lift_world m).
Proof. intros [ys w]. unfold lift_world. by destruct (m w). Qed.

Lemma yield_chunk_keeps_events c :
  preserves (S := list Yielded * World) (events_of ∘ fst) (yield (YChunk c)).
Proof.
  intros [ys w]. unfold yield, events_of. simpl.
  rewrite flat_map_app. simpl. apply app_nil_r.
Qed.

Lemma consume_chunk_silent acc chunk :
  preserves (events_of ∘ fst) (consume_chunk false acc chunk).
Proof.
  unfold consume_chunk.
  pose proof (@lift_world_keeps_yields). pose proof yield_chunk_keeps_events.
  frame.
Qed.

Lemma drain_silent cs : forall acc,
  preserves (events_of ∘ fst) (drain false cs acc).
Proof.
  induction cs as [|[t chunk] cs IH]; intros acc; simpl.
  - apply preserves_ret.
  - pose proof (@lift_world_keeps_yields). pose proof consume_chunk_silent.
    frame.
Qed.

Lemma forward_silent cs : preserves (events_of ∘ fst) (forward cs).
Proof.
  induction cs as [|[t chunk] cs IH]; simpl.
  - apply preserves_ret.
  - pose proof (@lift_world_keeps_yields). pose proof yield_chunk_keeps_events.
    frame.
Qed.

Lemma execute_streamed_silent servers total position toolCall :
  preserves (events_of ∘ fst)
            (execute_streamed env false servers total position toolCall).
Proof.
  unfold execute_streamed. pose proof (@lift_world_keeps_yields). frame.
Qed.

Lemma execute_all_silent servers total toolCalls : forall position,
  preserves (events_of ∘ fst)
            (execute_all env false servers total position toolCalls).
Proof.
  induction toolCalls as [|toolCall toolCalls IH]; intros position; simpl.
  - apply preserves_ret.
  - pose proof execute_streamed_silent. frame.
Qed.

Lemma createStreamingWithTools_silent options servers :
  preserves (events_of ∘ fst)
            (_createStreamingWithTools env options servers false).
Proof.
  unfold _createStreamingWithTools, end_of_stream.
  pose proof (@lift_world_keeps_yields). pose proof drain_silent.
  pose proof execute_all_silent. pose proof forward_silent.
  frame.
Qed.

End YieldFrames.

(** [X21] Without execution feedback the generator yields nothing but
    chunks of the backend's streams, whether it runs to its end or throws
    on the way: no execution event reaches a consumer that did not ask for
    them. *)
Theorem no_event_without_feedback env options servers w :
  exists outcome ys,
    (run_generator (_createStreamingWithTools env options servers false) w).1
    = Ok (outcome, ys)
    /\ events_of ys = [].
Proof.
  unfold run_generator, with_local.
  pose proof (createStreamingWithTools_silent env options servers ([], w))
    as Hsilent.
  destruct (_createStreamingWithTools env options servers false ([], w))
    as [r [ys w']].
  by exists r, ys.
Qed.

(** ** Restart, handshake and teardown *)

Lemma start_sequence_handles env t i w :
  forall h, h ∈ running (start_sequence env t (i, w)).2.2 ->
            h ∈ running w \/ h = next_handle w.
Proof.
  intros h. unfold start_sequence. destruct (decide (t = Command)).
  - unfold _initializeCommandServer.
    destruct (spawn env _ _ _); simpl; set_solver.
  - pose proof (initializeHttpServer_preserves env running ltac:(done) (i, w))
      as Hframe.
    simpl in Hframe. rewrite Hframe. by left.
Qed.

Lemma initializeMCPServer_handles env serverName w :
  forall h, h ∈ running (_initializeMCPServer env serverName w).2 ->
            h ∈ running w \/ h = next_handle w.
Proof.
  intros h. unfold _initializeMCPServer, bind, get, lift_result, Date_now,
    set_instance, modify, with_local, ret. simpl.
  destruct (jm_get serverName (mcpServersConfig w)) as [c|]; [|by left].
  destruct (_getServerType (processServerConfig env c)) as [t|e]; [|by left].
  simpl.
  match goal with |- context [start_sequence env t (?i, ?w0)] =>
    pose proof (start_sequence_handles env t i w0 h) as Hrun;
    destruct (start_sequence env t (i, w0)) as [r [cell w1]] end.
  simpl in *. by destruct r.
Qed.

(** [X22] Restarting a configured server replaces its instance by the
    outcome of a fresh start attempt and leaves every other instance as it
    was; the subprocess that the old instance owned is no longer running
    afterwards.  Restarting a server that is not registered throws and
    changes nothing. *)
Theorem restart_replaces_instance env serverName w :
  let run := restartMCPServer env serverName w in
  match jm_get serverName (mcpServerInstances w) with
  | None => run = (Throw ("MCP server not found: " ++ serverName), w)
  | Some instance =>
      forall c t,
        jm_get serverName (mcpServersConfig w) = Some c ->
        _getServerType (processServerConfig env c) = Ok t ->
        run.1 = Ok tt
        /\ jm_get serverName (mcpServerInstances run.2)
           = Some (settled (started env
                              (new_instance serverName (processServerConfig env c)
                                            t (clock w))
                              (next_handle w)))
        /\ (forall other, other <> serverName ->
              jm_get other (mcpServerInstances run.2)
              = jm_get other (mcpServerInstances w))
        /\ (forall h, subprocess_of instance = Some h ->
              (h < next_handle w)%nat -> h ∉ running run.2)
  end.
Proof.
  intros run.
  assert (run = match jm_get serverName (mcpServerInstances w) with
                | Some instance =>
                    (match (if decide (type instance = Command)
                            then process instance else None) with
                     | Some h => kill h
                     | None => ret tt
                     end ;;
                     now <- Date_now ;;
                     set_instance serverName
                       (with_startTime (Some now)
                          (with_lastError None (with_initialized false instance))) ;;
                     _initializeMCPServer env serverName) w
                | None => (Throw ("MCP server not found: " ++ serverName), w)
                end) as ->.
  { unfold run, restartMCPServer, bind at 1, get. simpl.
    by destruct (jm_get serverName (mcpServerInstances w)). }
  destruct (jm_get serverName (mcpServerInstances w)) as [instance|] eqn:Hget;
    [|done].
  intros c t Hc Ht. unfold subprocess_of.
  set (stopped := match (if decide (type instance = Command)
                         then process instance else None) with
                  | Some h => kill h
                  | None => ret tt
                  end).
  assert (exists w1, stopped w = (Ok tt, w1)
                     /\ mcpServersConfig w1 = mcpServersConfig w
                     /\ mcpServerInstances w1 = mcpServerInstances w
                     /\ clock w1 = clock w /\ next_handle w1 = next_handle w
                     /\ forall h,
                          (if decide (type instance = Command)
                           then process instance else None) = Some h ->
                          h ∉ running w1)
    as (w1 & Hstopped & Hcfg1 & Hreg1 & Hclock1 & Hnext1 & Hgone).
  { unfold stopped.
    destruct (if decide (type instance = Command) then process instance
              else None) as [h0|].
    - eexists. split; [reflexivity|]. simpl. repeat split; try done.
      intros h [= <-]. set_solver.
    - exists w. repeat split; done. }
  set (w2 := set_mcpServerInstances
               (jm_set serverName
                  (with_startTime (Some (clock w1))
                     (with_lastError None (with_initialized false instance)))
                  (mcpServerInstances w1)) w1).
  assert ((stopped ;;
           now <- Date_now ;;
           set_instance serverName
             (with_startTime (Some now)
                (with_lastError None (with_initialized false instance))) ;;
           _initializeMCPServer env serverName) w
          = _initializeMCPServer env serverName w2) as ->.
  { unfold bind at 1. rewrite Hstopped. reflexivity. }
  destruct (initializeMCPServer_spec env serverName c t w2) as [Hok Hentry];
    [simpl; by rewrite Hcfg1|done|].
  pose proof (fun other => initializeMCPServer_others env serverName other w2)
    as Hothers.
  pose proof (initializeMCPServer_handles env serverName w2) as Hrun.
  split; [done|]. split; [|split].
  - rewrite Hentry. simpl. by rewrite Hclock1, Hnext1.
  - intros other Hne. rewrite Hothers by done. simpl.
    rewrite jm_get_set_ne by done. by rewrite Hreg1.
  - intros h Hh Hbelow Hin. destruct (Hrun h Hin) as [Hold|Hnew].
    + by apply (Hgone h).
    + simpl in Hnew. lia.
Qed.

(** [X23] What the handshake of an HTTP server comes to once its
    [initialize] exchange has succeeded depends on the reply alone.  With
    a truthy [result] the server ends connected under the session id of
    the response header, whether the [notifications/initialized] exchange
    that follows succeeds or not; without one it ends neither connected
    nor in error: no [lastError] is recorded. *)
Theorem handshake_depends_on_result env serverName c t w data response :
  jm_get serverName (mcpServersConfig w) = Some c ->
  _getServerType (processServerConfig env c) = Ok t ->
  t <> Command ->
  exchange env serverName
           (new_instance serverName (processServerConfig env c) t (clock w))
           "initialize" ParamsInitialize None = Ok (data, response) ->
  exists i,
    jm_get serverName
           (mcpServerInstances (_initializeMCPServer env serverName w).2) = Some i
    /\ lastError i = None
    /\ if has_result data
       then initialized i = true /\ sessionId i = session_header response
            /\ derived_status i = Connected
       else initialized i = false /\ sessionId i = None
            /\ derived_status i = Disconnected.
Proof.
  intros Hc Ht Hkind Hexchange.
  destruct (initializeMCPServer_spec env serverName c t w Hc Ht) as [_ Hentry].
  eexists. split; [exact Hentry|].
  unfold started. simpl. rewrite decide_False by done.
  unfold handshake. simpl. rewrite Hexchange.
  by destruct (has_result data).
Qed.

Lemma cleanup_preserves {X} (keep : World -> X) servers :
  ignores_processes keep -> preserves keep (_cleanupPerRequestServers servers).
Proof.
  intros Hp. induction servers as [|[k i] servers IH]; simpl.
  - apply preserves_ret.
  - pose proof (kill_preserves keep). frame.
Qed.

(** [X24] Tearing down per-request servers never throws; it stops exactly
    the subprocesses of the command-based instances it is given, stops no
    other subprocess, sends nothing and leaves the registry alone. *)
Theorem teardown_stops_own_subprocesses servers w :
  let run := _cleanupPerRequestServers servers w in
  run.1 = Ok tt
  /\ running run.2 = running w ∖ handles servers
  /\ requests run.2 = requests w
  /\ mcpServerInstances run.2 = mcpServerInstances w.
Proof.
  cbv zeta. destruct (cleanup_spec servers w) as [Hok Hrun].
  split; [done|]. split; [done|]. split.
  - by apply (cleanup_preserves requests).
  - by apply (cleanup_preserves mcpServerInstances).
Qed.

(** [X25] Listing the tools of per-request servers never throws and
    changes neither the routing table, nor the cache, nor the registry.
    Every tool it returns is flagged as per-request and tagged with the
    name of one of the given instances, which is initialized and not
    command-based. *)
Theorem per_request_tools_are_tagged env servers w :
  let run := _getToolsFromPerRequestServers env servers w in
  exists ts,
    run.1 = Ok ts
    /\ toolToServerMap run.2 = toolToServerMap w
    /\ mcpToolsCache run.2 = mcpToolsCache w
    /\ mcpServerInstances run.2 = mcpServerInstances w
    /\ Forall (fun t =>
                 _isPerRequest t = true
                 /\ exists s i, _mcpServerName t = Some s /\ In (s, i) servers
                                /\ initialized i = true /\ type i <> Command)
              ts.
Proof.
  cbv zeta.
  pose proof (getToolsFromPerRequestServers_preserves env toolToServerMap servers
                ltac:(done) w) as Htable.
  pose proof (getToolsFromPerRequestServers_preserves env mcpToolsCache servers
                ltac:(done) w) as Hcache.
  pose proof (getToolsFromPerRequestServers_preserves env mcpServerInstances
                servers ltac:(done) w) as Hreg.
  assert (exists ts,
            (_getToolsFromPerRequestServers env servers w).1 = Ok ts
            /\ Forall (fun t =>
                 _isPerRequest t = true
                 /\ exists s i, _mcpServerName t = Some s /\ In (s, i) servers
                                /\ initialized i = true /\ type i <> Command)
              ts) as (ts & Hrun & Hall).
  { clear. revert w.
    induction servers as [|[serverName instance] servers IH]; intros w; simpl.
    { by exists []. }
    unfold bind.
    set (step := if negb (initialized instance) then ret []
                 else try_catch _ _).
    assert (exists formatted w1,
              step w = (Ok formatted, w1)
              /\ Forall (fun t =>
                   _isPerRequest t = true
                   /\ _mcpServerName t = Some serverName
                   /\ initialized instance = true /\ type instance <> Command)
                 formatted) as (formatted & w1 & -> & Hformatted).
    { unfold step. destruct (initialized instance); simpl; [|by exists [], w].
      unfold try_catch.
      destruct (decide (type instance = Command)); [by exists [], w|].
      unfold bind, ret.
      destruct (_mcpRequest env serverName "tools/list" ParamsEmpty
                  (sessionId instance) (Some instance) w) as [[r|e] w0];
        [|by exists [], w0].
      eexists _, _. split; [reflexivity|].
      induction (tools_of r.1); by constructor. }
    destruct (IH w1) as (more & Hmore & Hall).
    destruct (_getToolsFromPerRequestServers env servers w1) as [r w2].
    simpl in Hmore. subst r. exists (formatted ++ more)%list.
    split; [done|]. apply Forall_app. split.
    - eapply Forall_impl; [exact Hformatted|]. simpl.
      intros t (Hflag & Hname & Hinit & Hkind). split; [done|].
      exists serverName, instance. split; [done|]. split; [by left|done].
    - eapply Forall_impl; [exact Hall|]. simpl.
      intros t (Hflag & s & i & Hname & Hin & Hrest). split; [done|].
      exists s, i. split; [done|]. split; [by right|done]. }
  exists ts. by repeat split.
Qed.

(** ** Progress notices *)

Section ProgressFrames.
Context (env : Environment).

Lemma progress_of_app ys ys' :
  progress_of (ys ++ ys') = (progress_of ys ++ progress_of ys')%list.
Proof. apply flat_map_app. Qed.

Lemma completed_keeps_progress b n :
  preserves (S := list Yielded * World) (progress_of ∘ fst)
            (yield_event b (tool_completed n)).
Proof.
  intros [ys w]. destruct b; [|done]. simpl.
  rewrite progress_of_app. apply app_nil_r.
Qed.

Lemma error_keeps_progress b n message :
  preserves (S := list Yielded * World) (progress_of ∘ fst)
            (yield_event b (tool_error n message)).
Proof.
  intros [ys w]. destruct b; [|done]. simpl.
  rewrite progress_of_app. apply app_nil_r.
Qed.

Lemma execute_streamed_progress servers total position toolCall ys w :
  progress_of (execute_streamed env true servers total position toolCall
                 (ys, w)).2.1
  = (progress_of ys ++ [(function_name toolCall, (position + 1)%nat, total)])%list.
Proof.
  unfold execute_streamed, bind at 1. rewrite yield_event_run.
  match goal with |- context [try_catch ?m ?h] =>
    assert (preserves (progress_of ∘ fst) (try_catch m h)) as Hrest end.
  { pose proof (@lift_world_keeps_yields). pose proof completed_keeps_progress.
    pose proof error_keeps_progress. frame. }
  match goal with |- context [try_catch ?m ?h ?s] =>
    specialize (Hrest s); set (run := try_catch m h s) in * end.
  unfold compose in Hrest. destruct run as [r [ys1 w1]].
  simpl in *. rewrite Hrest. by rewrite progress_of_app.
Qed.

End ProgressFrames.

(** [X26] With execution feedback, the tool loop announces every tool
    call, in the order of the calls, numbered by its position from [1] on,
    together with the total: one notice per call whatever the outcome of
    the call. *)
Theorem progress_numbered env servers total toolCalls : forall position ys w,
  progress_of (execute_all env true servers total position toolCalls (ys, w)).2.1
  = (progress_of ys
     ++ imap (fun i toolCall => (function_name toolCall, (position + i + 1)%nat,
                                 total)) toolCalls)%list.
Proof.
  induction toolCalls as [|toolCall toolCalls IH]; intros position ys w.
  - simpl. by rewrite app_nil_r.
  - simpl. unfold bind at 1.
    pose proof (execute_streamed_progress env servers total position toolCall ys w)
      as Hstep.
    destruct (execute_streamed_spec env true servers total position toolCall ys w)
      as (pushed & Hpushed & _).
    destruct (execute_streamed env true servers total position toolCall (ys, w))
      as [r [ys1 w1]]. simpl in Hpushed, Hstep. subst r.
    unfold bind.
    pose proof (IH (S position) ys1 w1) as Hrest.
    destruct (execute_all env true servers total (S position) toolCalls (ys1, w1))
      as [[results|e] [ys2 w2]]; simpl in *;
      rewrite Hrest, Hstep, <- app_assoc; simpl;
      rewrite Nat.add_0_r; do 2 f_equal;
      apply imap_ext; intros i tc _; simpl; do 2 f_equal; lia.
Qed.

(** ** Per-request instances *)

Lemma start_sequence_name env i w :
  name (start_sequence env (type i) (i, w)).2.1 = name i.
Proof.
  unfold start_sequence. destruct (decide (type i = Command)).
  - unfold _initializeCommandServer. by destruct (spawn env _ _ _).
  - unfold _initializeHttpServer, bind, get_local, try_catch, lift_world,
      set_local, throw, ret.
    destruct (_mcpRequest env (name i) "initialize" ParamsInitialize None None w)
      as [[[data response]|e] w1]; simpl; [|done].
    destruct (has_result data); simpl; [|done].
    by destruct (_mcpRequest env (name i) "notifications/initialized" ParamsEmpty
                   (session_header response) None w1) as [[?|?] ?].
Qed.

Lemma start_per_request_names env definitions :
  forall acc w (processed : list string),
  Forall (fun d => exists t, _getServerType (processServerConfig env d.2) = Ok t)
         definitions ->
  NoDup definitions.*1 ->
  (forall n, n ∈ definitions.*1 -> n ∉ processed) ->
  (forall k, k ∈ acc.*1 ->
     exists n t, n ∈ processed /\ k = "temp_" ++ n ++ "_" ++ show t) ->
  NoDup acc.*1 ->
  Forall (fun e => name e.2 = e.1 /\ startsWith e.1 "temp_" = true) acc ->
  exists started,
    (start_per_request env definitions acc w).1 = Ok started
    /\ length started = (length acc + length definitions)%nat
    /\ NoDup started.*1
    /\ Forall (fun e => name e.2 = e.1 /\ startsWith e.1 "temp_" = true) started.
Proof.
  induction definitions as [|[n c] rest IH];
    intros acc w processed Htypes Hnd Hnew Hold Hacc Hnames.
  - exists acc. simpl. split; [done|]. split; [lia|done].
  - apply Forall_cons in Htypes as [[t Htype] Htypes]. simpl in Htype.
    simpl in Hnd. apply NoDup_cons in Hnd as [Hn Hnd].
    rewrite (start_per_request_step env n c t rest acc w Htype).
    set (temp := "temp_" ++ n ++ "_" ++ show (clock w)).
    set (fresh := new_instance temp (processServerConfig env c) t (clock w)).
    pose proof (start_sequence_name env fresh w) as Hname.
    change (type fresh) with t in Hname.
    destruct (start_sequence env t (fresh, w)) as [r [cell w2]]. simpl in *.
    set (kept := match r with
                 | Ok _ => cell
                 | Throw message => with_lastError (Some message) cell
                 end).
    assert (name kept = temp) as Hkept.
    { unfold kept. by destruct r. }
    assert (temp ∉ acc.*1) as Hfresh.
    { intros Hin. destruct (Hold temp Hin) as (n' & t' & Hn' & Heq).
      apply temp_name_inj in Heq as <-.
      apply (Hnew n); [by left|done]. }
    rewrite (jm_set_fresh temp kept acc Hfresh).
    destruct (IH (acc ++ [(temp, kept)])%list w2 (n :: processed) Htypes Hnd)
      as (started & Hok & Hlen & Hdistinct & Hall).
    { intros n' Hn'. apply not_elem_of_cons. split.
      - intros ->. by apply Hn.
      - apply Hnew. by right. }
    { intros k. rewrite fmap_app. simpl. intros Hk.
      apply elem_of_app in Hk as [Hk|Hk].
      - destruct (Hold k Hk) as (n' & t' & Hn' & ->).
        exists n', t'. split; [by right|done].
      - apply list_elem_of_singleton in Hk as ->.
        exists n, (clock w). split; [by left|done]. }
    { rewrite fmap_app. simpl. apply NoDup_app. split; [done|]. split.
      - intros k Hk Hk'. apply list_elem_of_singleton in Hk' as ->. done.
      - apply NoDup_singleton. }
    { apply Forall_app. split; [done|]. constructor; [|constructor].
      split; [exact Hkept|]. unfold temp, startsWith. simpl.
      generalize ("" ++ n ++ "_" ++ show (clock w)). by intros [|]. }
    exists started. split; [done|]. split; [|done].
    rewrite Hlen, length_app. simpl. lia.
Qed.

(** [X27] Every well-formed definition of a request gets an instance of
    its own: as many instances are returned as definitions were given,
    under pairwise distinct temporary names beginning with [temp_], each
    instance bearing the name it is filed under.  No definition overwrites
    the instance of another, even when a name contains an underscore. *)
Theorem every_definition_gets_an_instance env definitions w :
  well_formed_definitions env definitions ->
  exists started,
    (_initializePerRequestServers env definitions w).1 = Ok started
    /\ length started = length definitions
    /\ NoDup (jm_keys started)
    /\ Forall (fun e => name e.2 = e.1 /\ startsWith e.1 "temp_" = true) started.
Proof.
  intros [Hnd Htypes].
  destruct (start_per_request_names env definitions [] w [] Htypes Hnd
              ltac:(intros n _ H; by apply elem_of_nil in H)
              ltac:(intros k Hk; by apply elem_of_nil in Hk)
              ltac:(constructor) ltac:(constructor))
    as (started & Hrun & Hlen & Hdistinct & Hall).
  by exists started.
Qed.

(** ** Decoding a reply *)

Lemma list_ascii_of_string_app a b :
  list_ascii_of_string (a ++ b)
  = (list_ascii_of_string a ++ list_ascii_of_string b)%list.
Proof.
  induction a as [|c a IH]; [done|].
  change (String c a ++ b) with (String c (a ++ b)). simpl. by rewrite IH.
Qed.

Lemma string_of_list_ascii_app l l' :
  string_of_list_ascii (l ++ l') = string_of_list_ascii l ++ string_of_list_ascii l'.
Proof.
  induction l as [|c l IH]; [done|]. simpl. rewrite IH. done.
Qed.

Lemma string_rev_app a b : string_rev (a ++ b) = string_rev b ++ string_rev a.
Proof.
  unfold string_rev.
  by rewrite list_ascii_of_string_app, rev_app_distr, string_of_list_ascii_app.
Qed.

Lemma string_rev_involutive a : string_rev (string_rev a) = a.
Proof.
  unfold string_rev. rewrite list_ascii_of_string_of_list_ascii, rev_involutive.
  apply string_of_list_ascii_of_string.
Qed.

Lemma split_without c s : mentions c s = false -> split c s = [s].
Proof.
  induction s as [|a s IH]; [done|]. simpl. intros H.
  apply orb_false_iff in H as [Ha Hs]. rewrite Ha, IH; done.
Qed.

Lemma trim_message header body last :
  is_space last = false ->
  (forall rest, trimStart (header ++ rest) = header ++ rest) ->
  trim (header ++ (body ++ String last "")
        ++ String newline (String newline ""))
  = header ++ body ++ String last "".
Proof.
  intros Hlast Hheader. unfold trim. rewrite Hheader.
  rewrite !string_rev_app.
  change (string_rev (String newline (String newline "")))
    with (String newline (String newline "")).
  change (string_rev (String last "")) with (String last "").
  change ((String newline (String newline "")
           ++ (String last "" ++ string_rev body)) ++ string_rev header)
    with (String newline (String newline
            (String last ((string_rev body) ++ string_rev header)))).
  cbn [trimStart]. change (is_space newline) with true. cbv iota.
  rewrite Hlast.
  change (String last (string_rev body ++ string_rev header))
    with ((String last "" ++ string_rev body) ++ string_rev header).
  rewrite !string_rev_app, !string_rev_involutive.
  change (string_rev (String last "")) with (String last "").
  done.
Qed.

Lemma split_line c a rest :
  mentions c a = false -> split c (a ++ String c rest) = a :: split c rest.
Proof.
  induction a as [|x a IH]; simpl.
  - intros _. by rewrite Ascii.eqb_refl.
  - intros H. apply orb_false_iff in H as [Hx Ha].
    change (String x a ++ String c rest) with (String x (a ++ String c rest)).
    simpl. by rewrite Hx, IH.
Qed.

(** [X28] A reply framed as a server-sent event is decoded to its payload:
    from a body made of an optional [event: message] line, the line
    [data: <payload>] and a blank line, the exchange takes exactly the
    payload, provided that the payload is on one line and does not end in
    white space. *)
Theorem framed_reply_decodes named body last :
  mentions newline (body ++ String last "") = false ->
  is_space last = false ->
  find_data_line (sse_message named (body ++ String last ""))
  = Some (body ++ String last "").
Proof.
  intros Hline Hlast. unfold find_data_line, sse_message, data_marker.
  destruct named.
  - change (("event: message" ++ String newline "")
            ++ "data: " ++ (body ++ String last "")
            ++ String newline (String newline ""))
      with (("event: message" ++ String newline "data: ")
            ++ (body ++ String last "") ++ String newline (String newline "")).
    rewrite trim_message by done.
    change (("event: message" ++ String newline "data: ") ++ body ++ String last "")
      with ("event: message" ++ String newline ("data: " ++ body ++ String last "")).
    rewrite split_line by done.
    rewrite (split_without newline ("data: " ++ body ++ String last "")) by done.
    simpl. by destruct (body ++ String last "").
  - change ("" ++ "data: " ++ (body ++ String last "")
            ++ String newline (String newline ""))
      with ("data: " ++ (body ++ String last "")
            ++ String newline (String newline "")).
    rewrite trim_message by done.
    rewrite (split_without newline ("data: " ++ body ++ String last "")) by done.
    simpl. by destruct (body ++ String last "").
Qed.

(** ** Instances of the statements above *)

Lemma server_qualified_call_witness :
  callMCPTool demo_env (on_server "fs" "read_file" None) fs_connected
  = (Throw "Tool fs not found on any connected MCP server", fs_connected).
Proof.
  apply (proj2 (server_qualified_call demo_env "fs" "read_file" fs_connected)).
  vm_compute. reflexivity.
Defined.

Lemma handshake_depends_on_result_witness :
  exists i,
    jm_get "fs"
      (mcpServerInstances
         (_initializeMCPServer demo_env "fs"
            (constructed [("fs", http_definition "http://fs")] 0)).2) = Some i
    /\ initialized i = true /\ sessionId i = Some "session-1".
Proof.
  destruct (handshake_depends_on_result demo_env "fs"
              (http_definition "http://fs") StreamableHttp
              (constructed [("fs", http_definition "http://fs")] 0)
              {| error := None;
                 result := Some {| res_tools := None; res_value := JObj [] |} |}
              {| ok := true; status := 200; statusText := "OK";
                 text := "data: init"; session_header := Some "session-1" |})
    as (i & Hget & _ & Hinit & Hsession & _);
    [reflexivity|reflexivity|discriminate|vm_compute; reflexivity|].
  exists i. split; [exact Hget|]. split; [exact Hinit|exact Hsession].
Defined.

Lemma every_definition_gets_an_instance_witness :
  exists started,
    (_initializePerRequestServers demo_env
       [("a", command_definition "serve"); ("a_b", http_definition "http://fs")]
       (constructed [] 0)).1 = Ok started
    /\ length started = 2%nat.
Proof.
  destruct (every_definition_gets_an_instance demo_env
              [("a", command_definition "serve");
               ("a_b", http_definition "http://fs")] (constructed [] 0))
    as (started & Hrun & Hlen & _).
  - split.
    + apply NoDup_cons. split; [|apply NoDup_singleton].
      intros H. apply list_elem_of_singleton in H. discriminate.
    + repeat constructor; eexists; reflexivity.
  - exists started. split; [exact Hrun|exact Hlen].
Defined.

Lemma framed_reply_decodes_witness :
  find_data_line (sse_message true "{}") = Some "{}".
Proof.
  apply (framed_reply_decodes true "{" "}"); reflexivity.
Defined.

Lemma restart_replaces_instance_witness :
  let w := (initializeMCP demo_env
              (constructed [("fs", command_definition "serve")] 0)).2 in
  (restartMCPServer demo_env "fs" w).1 = Ok tt
  /\ O ∉ running (restartMCPServer demo_env "fs" w).2.
Proof.
  intros w.
  pose proof (restart_replaces_instance demo_env "fs" w) as Hrestart.
  cbv zeta in Hrestart.
  change (jm_get "fs" (mcpServerInstances w))
    with (Some (with_initialized true
                  (with_process O (Some O)
                     (new_instance "fs" (command_definition "serve") Command 0))))
    in Hrestart.
  destruct (Hrestart (command_definition "serve") Command eq_refl eq_refl)
    as (Hok & _ & _ & Hgone).
  split; [exact Hok|]. apply Hgone; [reflexivity|]. vm_compute. lia.
Defined.
